(** * Reeler: a vertical reel (roulette) animation engine

    Shallow embedding of [reeler.js] and of its earlier revisions, with the
    properties of its state machine, its deceleration kinematics and its
    per-frame compositor.

    Modelling conventions.
    - A JavaScript number is a value of [num]: a finite value carried as an
      exact rational, the two infinities, or NaN.  Arithmetic on finite
      values is exact (rounding of IEEE doubles is not represented); the
      special values follow IEEE 754 as JavaScript exposes them.  Zero is
      unsigned: a division by zero takes the sign of the dividend, as a
      division by +0 does.
    - Where the rounding matters, the motion of the reel is replayed on
      binary64 doubles (module [B64]), each operation rounding as the
      engine's does.
    - A nullable field ([null] or [undefined]) is an [option].
    - The mutable instance [this] is a record threaded through every method;
      a method that calls the browser ([requestAnimationFrame], the 2D
      context) returns the list of [effect]s it performed, in order.
    - What the browser supplies ([window.innerWidth], [measureText],
      [Math.random()], [performance.now()]) is an explicit argument. *)

From Stdlib Require Import QArith Qround Qabs ZArith List String Ascii Bool.
From Stdlib Require Import Lia Lqa Psatz Morphisms Setoid.
From Stdlib Require PrimFloat SpecFloat FloatOps.
Import ListNotations.

(* ================================================================== *)
(** * JavaScript numbers *)
(* ================================================================== *)

Module JsNum.

Inductive num : Type :=
| Fin (q : Q)            (* a finite value *)
| Inf (positive : bool)  (* Infinity (true), -Infinity (false) *)
| NaN.

Definition Infinity : num := Inf true.

Definition of_nat (n : nat) : num := Fin (inject_Z (Z.of_nat n)).
Definition of_Z (z : Z) : num := Fin (inject_Z z).

(** Sign of a finite value: [Gt] positive, [Lt] negative, [Eq] zero. *)
Definition sgn (q : Q) : comparison := q ?= 0.

Definition neg (x : num) : num :=
  match x with
  | Fin q => Fin (- q)
  | Inf s => Inf (negb s)
  | NaN => NaN
  end.

Definition add (x y : num) : num :=
  match x, y with
  | NaN, _ | _, NaN => NaN
  | Fin a, Fin b => Fin (a + b)
  | Inf s, Fin _ | Fin _, Inf s => Inf s
  | Inf s, Inf t => if Bool.eqb s t then Inf s else NaN
  end.

Definition sub (x y : num) : num := add x (neg y).

(** [Inf s] scaled by a finite factor: NaN for a zero factor. *)
Definition scale_inf (s : bool) (q : Q) : num :=
  match sgn q with
  | Eq => NaN
  | Gt => Inf s
  | Lt => Inf (negb s)
  end.

Definition mul (x y : num) : num :=
  match x, y with
  | NaN, _ | _, NaN => NaN
  | Fin a, Fin b => Fin (a * b)
  | Inf s, Fin q | Fin q, Inf s => scale_inf s q
  | Inf s, Inf t => Inf (Bool.eqb s t)
  end.

Definition div (x y : num) : num :=
  match x, y with
  | NaN, _ | _, NaN => NaN
  | Fin a, Fin b =>
      match sgn b with
      | Eq => match sgn a with
              | Eq => NaN
              | Gt => Inf true
              | Lt => Inf false
              end
      | _ => Fin (a / b)
      end
  | Fin _, Inf _ => Fin 0
  | Inf s, Fin b => match sgn b with Lt => Inf (negb s) | _ => Inf s end
  | Inf _, Inf _ => NaN
  end.

(** Truncation toward zero, the rounding of the [%] operator. *)
Definition Qtrunc (q : Q) : Z := Z.quot (Qnum q) (Zpos (Qden q)).

(** The remainder operator [%]: the result has the sign of the dividend. *)
Definition rem (x y : num) : num :=
  match x, y with
  | NaN, _ | _, NaN => NaN
  | Inf _, _ => NaN
  | Fin a, Inf _ => Fin a
  | Fin a, Fin b =>
      match sgn b with
      | Eq => NaN
      | _ => Fin (a - b * inject_Z (Qtrunc (a / b)))
      end
  end.

(** Comparisons; every comparison with NaN is false. *)
Definition leb (x y : num) : bool :=
  match x, y with
  | NaN, _ | _, NaN => false
  | Fin a, Fin b => Qle_bool a b
  | Inf false, _ => true
  | _, Inf true => true
  | _, _ => false
  end.

Definition ltb (x y : num) : bool :=
  match x, y with
  | NaN, _ | _, NaN => false
  | Fin a, Fin b => negb (Qle_bool b a)
  | Inf s, Inf t => andb (negb s) t
  | Inf false, Fin _ => true
  | Fin _, Inf true => true
  | _, _ => false
  end.

Definition geb (x y : num) : bool := leb y x.
Definition gtb (x y : num) : bool := ltb y x.

(** Strict equality [===] on numbers. *)
Definition eqb (x y : num) : bool :=
  match x, y with
  | Fin a, Fin b => Qeq_bool a b
  | Inf s, Inf t => Bool.eqb s t
  | _, _ => false
  end.

(** ToBoolean on a number: 0 and NaN are falsy. *)
Definition truthy (x : num) : bool :=
  match x with
  | Fin q => negb (Qeq_bool q 0)
  | Inf _ => true
  | NaN => false
  end.

Definition Math_floor (x : num) : num :=
  match x with
  | Fin q => Fin (inject_Z (Qfloor q))
  | _ => x
  end.

Definition Math_abs (x : num) : num :=
  match x with
  | Fin q => Fin (Qabs q)
  | Inf _ => Inf true
  | NaN => NaN
  end.

Definition Math_min (x y : num) : num :=
  match x, y with
  | NaN, _ | _, NaN => NaN
  | _, _ => if leb x y then x else y
  end.

(** [Math.pow(x, n)] for a natural exponent. *)
Fixpoint Math_pow (x : num) (n : nat) : num :=
  match n with
  | O => Fin 1
  | S O => x
  | S m => mul x (Math_pow x m)
  end.

(** "The same number": equality of finite values as rationals.  Unlike
    [eqb] it relates NaN to itself; it is the equality in which results are
    stated. *)
Definition same (x y : num) : Prop :=
  match x, y with
  | Fin a, Fin b => a == b
  | Inf s, Inf t => s = t
  | NaN, NaN => True
  | _, _ => False
  end.

Definition is_finite (x : num) : bool :=
  match x with Fin _ => true | _ => false end.

End JsNum.
Import JsNum.

Declare Scope js_scope.
Delimit Scope js_scope with js.
Bind Scope js_scope with num.
Infix "+" := add : js_scope.
Infix "-" := sub : js_scope.
Infix "*" := mul : js_scope.
Infix "/" := div : js_scope.
Infix "mod" := rem : js_scope.
Infix "<=?" := leb : js_scope.
Infix "<?" := ltb : js_scope.
Infix ">=?" := geb : js_scope.
Infix ">?" := gtb : js_scope.
Infix "===" := eqb (at level 70, no associativity) : js_scope.
Infix "≈" := same (at level 70, no associativity).

(* ================================================================== *)
(** * Values shared by every revision *)
(* ================================================================== *)

Open Scope string_scope.

(** [this._mode], a string in the source. *)
Inductive Mode : Type := idle | loop | spin_mode | pause | highlight.

Definition Mode_eqb (a b : Mode) : bool :=
  match a, b with
  | idle, idle | loop, loop | spin_mode, spin_mode
  | pause, pause | highlight, highlight => true
  | _, _ => false
  end.

(** ToNumber of a nullable number: [null] converts to 0. *)
Definition ToNumber (o : option num) : num :=
  match o with Some x => x | None => Fin 0 end.

(** [o || d] for a number-valued option (0, NaN and a missing value fall
    back to [d]) and [o ?? d] (only a missing value falls back). *)
Definition or_num (o : option num) (d : num) : num :=
  match o with
  | Some x => if truthy x then x else d
  | None => d
  end.

Definition nullish {A : Type} (o : option A) (d : A) : A :=
  match o with Some x => x | None => d end.

(** [o || d] for a string-valued option: the empty string is falsy. *)
Definition or_str (o : option string) (d : string) : string :=
  match o with
  | Some EmptyString | None => d
  | Some s => s
  end.

(** [o || d] for an array-valued option: every array is truthy. *)
Definition or_arr {A : Type} (o : option (list A)) (d : list A) : list A :=
  match o with Some l => l | None => d end.

(** The configuration object [opts]; a missing key is [None]. *)
Record Options : Type := {
  opt_font : option string;
  opt_fontWeight : option string;
  opt_colors : option (list string);
  opt_bg : option string;
  opt_speed : option num;
  opt_fadeOutAlpha : option num;
  opt_zoomScale : option num;
  opt_lineSpacing : option num;
  opt_highlightDelay : option num;
  opt_highlightAnimDuration : option num;
  opt_fadeGradientColor : option string;
  opt_fadeGradientAlpha : option num;
  opt_fadeGradientPower : option num
}.

(** [{}] *)
Definition no_options : Options :=
  {| opt_font := None; opt_fontWeight := None; opt_colors := None;
     opt_bg := None; opt_speed := None; opt_fadeOutAlpha := None;
     opt_zoomScale := None; opt_lineSpacing := None;
     opt_highlightDelay := None; opt_highlightAnimDuration := None;
     opt_fadeGradientColor := None; opt_fadeGradientAlpha := None;
     opt_fadeGradientPower := None |}.

(** The second argument of [spin]: [{ rotations = 6 } = {}]. *)
Record SpinOpts : Type := { rotations : option num }.
Definition no_spin_opts : SpinOpts := {| rotations := None |}.

(** What the browser reports to [_resize]: the window size and the
    metrics of the string "Hg" in a given font. *)
Record Window : Type := {
  innerWidth : num;
  innerHeight : num;
  measureText : string -> num * num  (* font |-> (ascent, descent) *)
}.

(** A CSS colour as the code builds it: the text it was given, or the
    template [rgba(r,g,b,a)]. *)
Inductive css : Type :=
| CssText (s : string)
| CssRgba (r g b : N) (a : num).

(** The value assigned to [ctx.fillStyle]. *)
Inductive fill_style : Type :=
| Solid (c : option string)
| LinearGradient (x0 y0 x1 y1 : num) (stops : list (num * css)).

(** One text row: [save; translate(W/2, y); scale(s, s); fillStyle;
    globalAlpha; fillText(text, 0, 0); restore]. *)
Record Row : Type := {
  row_i : nat;              (* loop counter *)
  row_idx : nat;            (* cyclic item index *)
  row_x : num;
  row_y : num;
  row_scale : num;
  row_fillStyle : option string;
  row_alpha : num;
  row_text : string
}.

(** The calls on the 2D context that put something on the surface or
    select the font; [textBaseline] and [textAlign] are constant and left
    out. *)
Inductive draw_cmd : Type :=
| FillRect (style : fill_style) (x y w h : num)
| SetFont (font : string)
| FillText (r : Row).

(** What a method does to the outside world. *)
Inductive effect : Type :=
| RequestAnimationFrame
| OnStop (idx : num)
| Draw (cmds : list draw_cmd).

(** The default of [opts.font]: [120px "Noto Sans JP", sans-serif]. *)
Definition dquote : string := String (ascii_of_nat 34) EmptyString.
Definition default_font : string :=
  "120px " ++ dquote ++ "Noto Sans JP" ++ dquote ++ ", sans-serif".

(** [_easeOutCubic] *)
Definition _easeOutCubic (t : num) : num :=
  (Fin 1 - Math_pow (Fin 1 - t) 3)%js.

(** ** [_rgba]: the pattern [^#?([a-f\d]{2})([a-f\d]{2})([a-f\d]{2})$], case
    insensitive, and [parseInt(_, 16)] of its three groups *)

Definition hex_digit (c : ascii) : option N :=
  let n := N_of_ascii c in
  if andb (48 <=? n)%N (n <=? 57)%N then Some (n - 48)%N
  else if andb (97 <=? n)%N (n <=? 102)%N then Some (n - 87)%N
  else if andb (65 <=? n)%N (n <=? 70)%N then Some (n - 55)%N
  else None.

Definition hex_pair (a b : ascii) : option N :=
  match hex_digit a, hex_digit b with
  | Some x, Some y => Some (16 * x + y)%N
  | _, _ => None
  end.

Definition strip_hash (s : string) : string :=
  match s with
  | String "#" rest => rest
  | _ => s
  end.

Definition hex_groups (s : string) : option (N * N * N) :=
  match strip_hash s with
  | String r1 (String r2 (String g1 (String g2 (String b1 (String b2 EmptyString))))) =>
      match hex_pair r1 r2, hex_pair g1 g2, hex_pair b1 b2 with
      | Some r, Some g, Some b => Some (r, g, b)
      | _, _, _ => None
      end
  | _ => None
  end.

Definition _rgba (hex : string) (a : num) : css :=
  match hex_groups hex with
  | None => CssText hex
  | Some (r, g, b) => CssRgba r g b a
  end.

(** [Array.prototype.indexOf] on strings: first position, or [None] for -1. *)
Fixpoint indexOf (items : list string) (label : string) : option nat :=
  match items with
  | [] => None
  | x :: rest =>
      if String.eqb x label then Some O
      else match indexOf rest label with
           | Some i => Some (S i)
           | None => None
           end
  end.

(** What the browser supplies to a method call. *)
Record Browser : Type := {
  window : Window;
  Math_random : num;       (* the next value of [Math.random()], in [0, 1) *)
  performance_now : num    (* the reading of [performance.now()] *)
}.

(* ================================================================== *)
(** * Revision 3.8R10 ([reeler.js], first listing) *)
(* ================================================================== *)

Module R10.

(** The instance [this].  [canvas_width] and [canvas_height] stand for
    [this.canvas.width] and [this.canvas.height]; [_raf] tells whether
    [this._raf] holds a frame handle (a handle is a non-zero integer, hence
    truthy) or is still undefined. *)
Record Reeler : Type := {
  items : list string;
  font : string;
  colors : list string;
  bg : string;
  speed : num;
  fontWeight : option string;
  fadeOutAlpha : num;
  zoomScale : num;
  lineSpacing : num;
  highlightDelay : num;
  highlightAnimDuration : num;
  fadeGradientColor : string;
  fadeGradientAlpha : num;
  fadeGradientPower : num;
  _mode : Mode;
  _offset : num;
  _targetIdx : num;
  _spinStart : option num;
  _spinT : num;
  _accel : num;
  _spinDist : num;
  _pauseStart : option num;
  _highlightStart : option num;
  _prevTS : option num;
  canvas_width : num;
  canvas_height : num;
  _fontHeight : num;
  _lineHeight : num;
  _raf : bool
}.

(** Field assignments [this.f = v]. *)
Definition set_speed (v : num) (s : Reeler) : Reeler :=
  {| items := items s; font := font s; colors := colors s; bg := bg s;
     speed := v; fontWeight := fontWeight s; fadeOutAlpha := fadeOutAlpha s;
     zoomScale := zoomScale s; lineSpacing := lineSpacing s;
     highlightDelay := highlightDelay s;
     highlightAnimDuration := highlightAnimDuration s;
     fadeGradientColor := fadeGradientColor s;
     fadeGradientAlpha := fadeGradientAlpha s;
     fadeGradientPower := fadeGradientPower s; _mode := _mode s;
     _offset := _offset s; _targetIdx := _targetIdx s;
     _spinStart := _spinStart s; _spinT := _spinT s; _accel := _accel s;
     _spinDist := _spinDist s; _pauseStart := _pauseStart s;
     _highlightStart := _highlightStart s; _prevTS := _prevTS s;
     canvas_width := canvas_width s; canvas_height := canvas_height s;
     _fontHeight := _fontHeight s; _lineHeight := _lineHeight s;
     _raf := _raf s |}.
Definition set_mode (v : Mode) (s : Reeler) : Reeler :=
  {| items := items s; font := font s; colors := colors s; bg := bg s;
     speed := speed s; fontWeight := fontWeight s;
     fadeOutAlpha := fadeOutAlpha s; zoomScale := zoomScale s;
     lineSpacing := lineSpacing s; highlightDelay := highlightDelay s;
     highlightAnimDuration := highlightAnimDuration s;
     fadeGradientColor := fadeGradientColor s;
     fadeGradientAlpha := fadeGradientAlpha s;
     fadeGradientPower := fadeGradientPower s; _mode := v;
     _offset := _offset s; _targetIdx := _targetIdx s;
     _spinStart := _spinStart s; _spinT := _spinT s; _accel := _accel s;
     _spinDist := _spinDist s; _pauseStart := _pauseStart s;
     _highlightStart := _highlightStart s; _prevTS := _prevTS s;
     canvas_width := canvas_width s; canvas_height := canvas_height s;
     _fontHeight := _fontHeight s; _lineHeight := _lineHeight s;
     _raf := _raf s |}.
Definition set_offset (v : num) (s : Reeler) : Reeler :=
  {| items := items s; font := font s; colors := colors s; bg := bg s;
     speed := speed s; fontWeight := fontWeight s;
     fadeOutAlpha := fadeOutAlpha s; zoomScale := zoomScale s;
     lineSpacing := lineSpacing s; highlightDelay := highlightDelay s;
     highlightAnimDuration := highlightAnimDuration s;
     fadeGradientColor := fadeGradientColor s;
     fadeGradientAlpha := fadeGradientAlpha s;
     fadeGradientPower := fadeGradientPower s; _mode := _mode s;
     _offset := v; _targetIdx := _targetIdx s; _spinStart := _spinStart s;
     _spinT := _spinT s; _accel := _accel s; _spinDist := _spinDist s;
     _pauseStart := _pauseStart s; _highlightStart := _highlightStart s;
     _prevTS := _prevTS s; canvas_width := canvas_width s;
     canvas_height := canvas_height s; _fontHeight := _fontHeight s;
     _lineHeight := _lineHeight s; _raf := _raf s |}.
Definition set_targetIdx (v : num) (s : Reeler) : Reeler :=
  {| items := items s; font := font s; colors := colors s; bg := bg s;
     speed := speed s; fontWeight := fontWeight s;
     fadeOutAlpha := fadeOutAlpha s; zoomScale := zoomScale s;
     lineSpacing := lineSpacing s; highlightDelay := highlightDelay s;
     highlightAnimDuration := highlightAnimDuration s;
     fadeGradientColor := fadeGradientColor s;
     fadeGradientAlpha := fadeGradientAlpha s;
     fadeGradientPower := fadeGradientPower s; _mode := _mode s;
     _offset := _offset s; _targetIdx := v; _spinStart := _spinStart s;
     _spinT := _spinT s; _accel := _accel s; _spinDist := _spinDist s;
     _pauseStart := _pauseStart s; _highlightStart := _highlightStart s;
     _prevTS := _prevTS s; canvas_width := canvas_width s;
     canvas_height := canvas_height s; _fontHeight := _fontHeight s;
     _lineHeight := _lineHeight s; _raf := _raf s |}.
Definition set_spinStart (v : option num) (s : Reeler) : Reeler :=
  {| items := items s; font := font s; colors := colors s; bg := bg s;
     speed := speed s; fontWeight := fontWeight s;
     fadeOutAlpha := fadeOutAlpha s; zoomScale := zoomScale s;
     lineSpacing := lineSpacing s; highlightDelay := highlightDelay s;
     highlightAnimDuration := highlightAnimDuration s;
     fadeGradientColor := fadeGradientColor s;
     fadeGradientAlpha := fadeGradientAlpha s;
     fadeGradientPower := fadeGradientPower s; _mode := _mode s;
     _offset := _offset s; _targetIdx := _targetIdx s; _spinStart := v;
     _spinT := _spinT s; _accel := _accel s; _spinDist := _spinDist s;
     _pauseStart := _pauseStart s; _highlightStart := _highlightStart s;
     _prevTS := _prevTS s; canvas_width := canvas_width s;
     canvas_height := canvas_height s; _fontHeight := _fontHeight s;
     _lineHeight := _lineHeight s; _raf := _raf s |}.
Definition set_spinT (v : num) (s : Reeler) : Reeler :=
  {| items := items s; font := font s; colors := colors s; bg := bg s;
     speed := speed s; fontWeight := fontWeight s;
     fadeOutAlpha := fadeOutAlpha s; zoomScale := zoomScale s;
     lineSpacing := lineSpacing s; highlightDelay := highlightDelay s;
     highlightAnimDuration := highlightAnimDuration s;
     fadeGradientColor := fadeGradientColor s;
     fadeGradientAlpha := fadeGradientAlpha s;
     fadeGradientPower := fadeGradientPower s; _mode := _mode s;
     _offset := _offset s; _targetIdx := _targetIdx s;
     _spinStart := _spinStart s; _spinT := v; _accel := _accel s;
     _spinDist := _spinDist s; _pauseStart := _pauseStart s;
     _highlightStart := _highlightStart s; _prevTS := _prevTS s;
     canvas_width := canvas_width s; canvas_height := canvas_height s;
     _fontHeight := _fontHeight s; _lineHeight := _lineHeight s;
     _raf := _raf s |}.
Definition set_accel (v : num) (s : Reeler) : Reeler :=
  {| items := items s; font := font s; colors := colors s; bg := bg s;
     speed := speed s; fontWeight := fontWeight s;
     fadeOutAlpha := fadeOutAlpha s; zoomScale := zoomScale s;
     lineSpacing := lineSpacing s; highlightDelay := highlightDelay s;
     highlightAnimDuration := highlightAnimDuration s;
     fadeGradientColor := fadeGradientColor s;
     fadeGradientAlpha := fadeGradientAlpha s;
     fadeGradientPower := fadeGradientPower s; _mode := _mode s;
     _offset := _offset s; _targetIdx := _targetIdx s;
     _spinStart := _spinStart s; _spinT := _spinT s; _accel := v;
     _spinDist := _spinDist s; _pauseStart := _pauseStart s;
     _highlightStart := _highlightStart s; _prevTS := _prevTS s;
     canvas_width := canvas_width s; canvas_height := canvas_height s;
     _fontHeight := _fontHeight s; _lineHeight := _lineHeight s;
     _raf := _raf s |}.
Definition set_spinDist (v : num) (s : Reeler) : Reeler :=
  {| items := items s; font := font s; colors := colors s; bg := bg s;
     speed := speed s; fontWeight := fontWeight s;
     fadeOutAlpha := fadeOutAlpha s; zoomScale := zoomScale s;
     lineSpacing := lineSpacing s; highlightDelay := highlightDelay s;
     highlightAnimDuration := highlightAnimDuration s;
     fadeGradientColor := fadeGradientColor s;
     fadeGradientAlpha := fadeGradientAlpha s;
     fadeGradientPower := fadeGradientPower s; _mode := _mode s;
     _offset := _offset s; _targetIdx := _targetIdx s;
     _spinStart := _spinStart s; _spinT := _spinT s; _accel := _accel s;
     _spinDist := v; _pauseStart := _pauseStart s;
     _highlightStart := _highlightStart s; _prevTS := _prevTS s;
     canvas_width := canvas_width s; canvas_height := canvas_height s;
     _fontHeight := _fontHeight s; _lineHeight := _lineHeight s;
     _raf := _raf s |}.
Definition set_pauseStart (v : option num) (s : Reeler) : Reeler :=
  {| items := items s; font := font s; colors := colors s; bg := bg s;
     speed := speed s; fontWeight := fontWeight s;
     fadeOutAlpha := fadeOutAlpha s; zoomScale := zoomScale s;
     lineSpacing := lineSpacing s; highlightDelay := highlightDelay s;
     highlightAnimDuration := highlightAnimDuration s;
     fadeGradientColor := fadeGradientColor s;
     fadeGradientAlpha := fadeGradientAlpha s;
     fadeGradientPower := fadeGradientPower s; _mode := _mode s;
     _offset := _offset s; _targetIdx := _targetIdx s;
     _spinStart := _spinStart s; _spinT := _spinT s; _accel := _accel s;
     _spinDist := _spinDist s; _pauseStart := v;
     _highlightStart := _highlightStart s; _prevTS := _prevTS s;
     canvas_width := canvas_width s; canvas_height := canvas_height s;
     _fontHeight := _fontHeight s; _lineHeight := _lineHeight s;
     _raf := _raf s |}.
Definition set_highlightStart (v : option num) (s : Reeler) : Reeler :=
  {| items := items s; font := font s; colors := colors s; bg := bg s;
     speed := speed s; fontWeight := fontWeight s;
     fadeOutAlpha := fadeOutAlpha s; zoomScale := zoomScale s;
     lineSpacing := lineSpacing s; highlightDelay := highlightDelay s;
     highlightAnimDuration := highlightAnimDuration s;
     fadeGradientColor := fadeGradientColor s;
     fadeGradientAlpha := fadeGradientAlpha s;
     fadeGradientPower := fadeGradientPower s; _mode := _mode s;
     _offset := _offset s; _targetIdx := _targetIdx s;
     _spinStart := _spinStart s; _spinT := _spinT s; _accel := _accel s;
     _spinDist := _spinDist s; _pauseStart := _pauseStart s;
     _highlightStart := v; _prevTS := _prevTS s;
     canvas_width := canvas_width s; canvas_height := canvas_height s;
     _fontHeight := _fontHeight s; _lineHeight := _lineHeight s;
     _raf := _raf s |}.
Definition set_prevTS (v : option num) (s : Reeler) : Reeler :=
  {| items := items s; font := font s; colors := colors s; bg := bg s;
     speed := speed s; fontWeight := fontWeight s;
     fadeOutAlpha := fadeOutAlpha s; zoomScale := zoomScale s;
     lineSpacing := lineSpacing s; highlightDelay := highlightDelay s;
     highlightAnimDuration := highlightAnimDuration s;
     fadeGradientColor := fadeGradientColor s;
     fadeGradientAlpha := fadeGradientAlpha s;
     fadeGradientPower := fadeGradientPower s; _mode := _mode s;
     _offset := _offset s; _targetIdx := _targetIdx s;
     _spinStart := _spinStart s; _spinT := _spinT s; _accel := _accel s;
     _spinDist := _spinDist s; _pauseStart := _pauseStart s;
     _highlightStart := _highlightStart s; _prevTS := v;
     canvas_width := canvas_width s; canvas_height := canvas_height s;
     _fontHeight := _fontHeight s; _lineHeight := _lineHeight s;
     _raf := _raf s |}.
Definition set_raf (v : bool) (s : Reeler) : Reeler :=
  {| items := items s; font := font s; colors := colors s; bg := bg s;
     speed := speed s; fontWeight := fontWeight s;
     fadeOutAlpha := fadeOutAlpha s; zoomScale := zoomScale s;
     lineSpacing := lineSpacing s; highlightDelay := highlightDelay s;
     highlightAnimDuration := highlightAnimDuration s;
     fadeGradientColor := fadeGradientColor s;
     fadeGradientAlpha := fadeGradientAlpha s;
     fadeGradientPower := fadeGradientPower s; _mode := _mode s;
     _offset := _offset s; _targetIdx := _targetIdx s;
     _spinStart := _spinStart s; _spinT := _spinT s; _accel := _accel s;
     _spinDist := _spinDist s; _pauseStart := _pauseStart s;
     _highlightStart := _highlightStart s; _prevTS := _prevTS s;
     canvas_width := canvas_width s; canvas_height := canvas_height s;
     _fontHeight := _fontHeight s; _lineHeight := _lineHeight s; _raf := v |}.

Local Open Scope js_scope.

(** The font shorthand [weight + this.font]. *)
Definition font_string (s : Reeler) : string :=
  let weight := match fontWeight s with
                | Some EmptyString | None => EmptyString
                | Some w => w ++ " "
                end%string in
  (weight ++ font s)%string.

(** [_resize()] *)
Definition _resize (b : Browser) (s : Reeler) : Reeler :=
  let m := measureText (window b) (font_string s) in
  let fontHeight := fst m + snd m in
  {| items := items s; font := font s; colors := colors s; bg := bg s;
     speed := speed s; fontWeight := fontWeight s;
     fadeOutAlpha := fadeOutAlpha s; zoomScale := zoomScale s;
     lineSpacing := lineSpacing s; highlightDelay := highlightDelay s;
     highlightAnimDuration := highlightAnimDuration s;
     fadeGradientColor := fadeGradientColor s;
     fadeGradientAlpha := fadeGradientAlpha s;
     fadeGradientPower := fadeGradientPower s; _mode := _mode s;
     _offset := _offset s; _targetIdx := _targetIdx s;
     _spinStart := _spinStart s; _spinT := _spinT s; _accel := _accel s;
     _spinDist := _spinDist s; _pauseStart := _pauseStart s;
     _highlightStart := _highlightStart s; _prevTS := _prevTS s;
     canvas_width := innerWidth (window b);
     canvas_height := innerHeight (window b);
     _fontHeight := fontHeight;
     _lineHeight := fontHeight * lineSpacing s;
     _raf := _raf s |}.

(** [startLoop(speedPxPerSec)] *)
Definition startLoop (speedPxPerSec : option num) (s : Reeler)
  : Reeler * list effect :=
  let s := match speedPxPerSec with
           | Some v => if truthy v then set_speed v s else s
           | None => s
           end in
  let s := set_mode loop s in
  let s := set_prevTS None s in
  if _raf s then (s, []) else (set_raf true s, [RequestAnimationFrame]).

(** [stopLoop()] *)
Definition stopLoop (s : Reeler) : Reeler := set_mode idle s.

(** [spin(targetIndex = null, { rotations = 6 } = {})] *)
Definition spin (b : Browser) (targetIndex : option num) (o : SpinOpts)
  (s : Reeler) : Reeler :=
  let rotations := nullish (rotations o) (Fin 6) in
  let n := of_nat (List.length (items s)) in
  let s := match targetIndex with
           | None => set_targetIdx (Math_floor (Math_random b * n)) s
           | Some targetIndex => set_targetIdx (((targetIndex mod n) + n) mod n) s
           end in
  let cycle := n * _lineHeight s in
  let s := set_spinDist (rotations * cycle + _targetIdx s * _lineHeight s) s in
  let v0 := speed s in
  let s := set_accel ((v0 * v0) / (Fin 2 * _spinDist s)) s in
  let s := set_spinT (v0 / _accel s) s in
  let s := set_spinStart None s in
  set_mode spin_mode s.

(** [spinTo(label, opts = {})] *)
Definition spinTo (b : Browser) (label : string) (o : SpinOpts) (s : Reeler)
  : bool * Reeler :=
  match indexOf (items s) label with
  | None => (false, s)
  | Some idx => (true, spin b (Some (of_nat idx)) o s)
  end.

(** [onStop(idx)]: the body is empty. *)
Definition onStop (idx : num) (s : Reeler) : Reeler * list effect := (s, []).

(** One iteration of the row loop of [_draw], for loop counter [i]. *)
Definition draw_row (s : Reeler) (baseY centerY zoomP : num) (i : nat)
  : list draw_cmd :=
  let n := List.length (items s) in
  let W := canvas_width s in
  let H := canvas_height s in
  let idx := Nat.modulo i n in
  let y := baseY + of_nat i * _lineHeight s - of_nat n * _lineHeight s in
  if orb (y <? neg (_lineHeight s)) (y >? H + _lineHeight s) then []
  else
    let '(alpha, scale) :=
      if Mode_eqb (_mode s) highlight then
        let inCenter := Math_abs (y - centerY) <? _lineHeight s * Fin (1#2) in
        if inCenter
        then (Fin 1, Fin 1 + (zoomScale s - Fin 1) * _easeOutCubic zoomP)
        else (fadeOutAlpha s, Fin 1)
      else (Fin 1, Fin 1) in
    [FillText {| row_i := i; row_idx := idx;
                 row_x := W / Fin 2; row_y := y;
                 row_scale := scale;
                 row_fillStyle := nth_error (colors s)
                                    (Nat.modulo idx (List.length (colors s)));
                 row_alpha := alpha;
                 row_text := nth idx (items s) EmptyString |}].

(** The zoom progress of [_draw]. *)
Definition zoom_progress (b : Browser) (s : Reeler) (ts : num) : num :=
  let now := if truthy ts then ts else performance_now b in
  if Mode_eqb (_mode s) highlight
  then Math_min (Fin 1)
         ((now - ToNumber (_highlightStart s)) / highlightAnimDuration s)
  else Fin 0.

(** The two vignette gradients of [_draw]. *)
Definition vignette (s : Reeler) : list draw_cmd :=
  let W := canvas_width s in
  let H := canvas_height s in
  if fadeGradientAlpha s >? Fin 0 then
    let c := fadeGradientColor s in
    let a := fadeGradientAlpha s in
    [FillRect (LinearGradient (Fin 0) (Fin 0) (Fin 0) (H / Fin 2)
                 [(Fin 0, _rgba c a); (Fin 1, _rgba c (Fin 0))])
       (Fin 0) (Fin 0) W (H / Fin 2);
     FillRect (LinearGradient (Fin 0) (H / Fin 2) (Fin 0) H
                 [(Fin 0, _rgba c (Fin 0)); (Fin 1, _rgba c a)])
       (Fin 0) (H / Fin 2) W (H / Fin 2)]
  else [].

(** [_draw(ts, offsetMod)] *)
Definition _draw (b : Browser) (s : Reeler) (ts offsetMod : num)
  : list draw_cmd :=
  let W := canvas_width s in
  let H := canvas_height s in
  let centerY := H / Fin 2 in
  let baseY := centerY - offsetMod in
  let zoomP := zoom_progress b s ts in
  FillRect (Solid (Some (bg s))) (Fin 0) (Fin 0) W H
    :: vignette s
    ++ SetFont (font_string s)
    :: flat_map (draw_row s baseY centerY zoomP)
         (seq 0 (List.length (items s) * 3)).

(** The state update of [_tick], before the frame is drawn. *)
Definition advance (s : Reeler) (ts : num) : Reeler :=
  let s := match _prevTS s with
           | None => set_prevTS (Some ts) s
           | Some _ => s
           end in
  let dt := (ts - ToNumber (_prevTS s)) / Fin 1000 in
  match _mode s with
  | loop => set_offset (_offset s + speed s * dt) s
  | spin_mode =>
      let s := match _spinStart s with
               | None => set_spinStart (Some ts) s
               | Some _ => s
               end in
      let t := (ts - ToNumber (_spinStart s)) / Fin 1000 in
      if t <=? _spinT s
      then set_offset (speed s * t - Fin (1#2) * _accel s * t * t) s
      else set_pauseStart (Some ts) (set_mode pause (set_offset (_spinDist s) s))
  | pause =>
      if (ts - ToNumber (_pauseStart s)) >=? highlightDelay s
      then set_highlightStart (Some ts) (set_mode highlight s)
      else s
  | highlight => s
  | idle => s
  end.

(** The spin branch counts elapsed time from [_spinStart], which the first
    spin tick sets to its own timestamp: the anchor and the elapsed
    seconds that [advance] uses for a tick at [ts]. *)
Definition spin_anchor (s : Reeler) (ts : num) : num :=
  match _spinStart s with Some t0 => t0 | None => ts end.

Definition spin_elapsed (s : Reeler) (ts : num) : num :=
  (ts - spin_anchor s ts) / Fin 1000.

(** [_tick(ts)] *)
Definition _tick (b : Browser) (s : Reeler) (ts : num)
  : Reeler * list effect :=
  let s := advance s ts in
  let cycle := of_nat (List.length (items s)) * _lineHeight s in
  let offsetMod := ((_offset s mod cycle) + cycle) mod cycle in
  let frame := Draw (_draw b s ts offsetMod) in
  let s := set_prevTS (Some ts) s in
  if negb (Mode_eqb (_mode s) idle)
  then (set_raf true s, [frame; RequestAnimationFrame])
  else (s, [frame]).

(** [new Reeler(canvasSel, items, opts = {})].  The canvas lookup and the
    registration of the resize listener are outside the model. *)
Definition constructor (b : Browser) (items0 : list string) (opts : Options)
  : Reeler * list effect :=
  let bg0 := or_str (opt_bg opts) "#05193C" in
  let s :=
    {| items := items0;
       font := or_str (opt_font opts) default_font;
       colors := or_arr (opt_colors opts) ["#41ACF0"; "#D793FF"];
       bg := bg0;
       speed := or_num (opt_speed opts) (Fin 1500);
       fontWeight := opt_fontWeight opts;
       fadeOutAlpha := nullish (opt_fadeOutAlpha opts) (Fin (2#10));
       zoomScale := or_num (opt_zoomScale opts) (Fin (18#10));
       lineSpacing := or_num (opt_lineSpacing opts) (Fin (125#100));
       highlightDelay := or_num (opt_highlightDelay opts) (Fin 400);
       highlightAnimDuration :=
         or_num (opt_highlightAnimDuration opts) (Fin 1200);
       fadeGradientColor := or_str (opt_fadeGradientColor opts) bg0;
       fadeGradientAlpha := or_num (opt_fadeGradientAlpha opts) (Fin (6#10));
       fadeGradientPower := or_num (opt_fadeGradientPower opts) (Fin 1);
       _mode := loop; _offset := Fin 0; _targetIdx := Fin 0;
       _spinStart := None; _spinT := Fin 0; _accel := Fin 0;
       _spinDist := Fin 0; _pauseStart := None; _highlightStart := None;
       _prevTS := None;
       canvas_width := NaN; canvas_height := NaN;
       _fontHeight := NaN; _lineHeight := NaN;
       _raf := false |} in
  startLoop None (_resize b s).

End R10.

(** [!o] for a nullable number: null, undefined, 0 and NaN are falsy. *)
Definition falsy (o : option num) : bool :=
  match o with
  | None => true
  | Some x => negb (truthy x)
  end.

(* ================================================================== *)
(** * Revision 3.8R9 ([reeler.js], second listing)

    The instance has the fields of revision 3.8R10 ([_loopRAF] is the
    [_raf] of the later revision, [_prevTS] keeps its name).  The methods
    that differ from 3.8R10 are [spin], [_tick] and [_draw]; revision 3.7
    has the same three methods, without the font weight. *)
(* ================================================================== *)

Module R9.

Import R10.
Local Open Scope js_scope.

(** [spin(targetIndex = null, { rotations = 6 } = {})] *)
Definition spin (b : Browser) (targetIndex : option num) (o : SpinOpts)
  (s : Reeler) : Reeler :=
  let rotations := nullish (rotations o) (Fin 6) in
  let n := of_nat (List.length (items s)) in
  let s := match targetIndex with
           | None => set_targetIdx (Math_floor (Math_random b * n)) s
           | Some targetIndex => set_targetIdx (targetIndex mod n) s
           end in
  let s := set_spinDist ((rotations * n + _targetIdx s) * _lineHeight s) s in
  let v0 := speed s in
  let s := set_accel ((v0 * v0) / (Fin 2 * _spinDist s)) s in
  let s := set_spinT (v0 / _accel s) s in
  let s := set_spinStart None s in
  set_mode spin_mode s.

(** One iteration of the row loop of [_draw]: the zoom goes to the row
    that is centred and whose index is the target. *)
Definition draw_row (s : Reeler) (baseY centerY zoomP : num) (i : nat)
  : list draw_cmd :=
  let n := List.length (items s) in
  let W := canvas_width s in
  let H := canvas_height s in
  let idx := Nat.modulo i n in
  let y := baseY + of_nat i * _lineHeight s - of_nat n * _lineHeight s in
  if orb (y <? neg (_lineHeight s)) (y >? H + _lineHeight s) then []
  else
    let '(alpha, scale) :=
      if Mode_eqb (_mode s) highlight then
        let inCenter := Math_abs (y - centerY) <? _lineHeight s * Fin (1#2) in
        if andb inCenter (of_nat idx === _targetIdx s)
        then (Fin 1, Fin 1 + (zoomScale s - Fin 1) * _easeOutCubic zoomP)
        else (fadeOutAlpha s, Fin 1)
      else (Fin 1, Fin 1) in
    [FillText {| row_i := i; row_idx := idx;
                 row_x := W / Fin 2; row_y := y;
                 row_scale := scale;
                 row_fillStyle := nth_error (colors s)
                                    (Nat.modulo idx (List.length (colors s)));
                 row_alpha := alpha;
                 row_text := nth idx (items s) EmptyString |}].

(** [_draw(ts)] *)
Definition _draw (b : Browser) (s : Reeler) (ts : num) : list draw_cmd :=
  let W := canvas_width s in
  let H := canvas_height s in
  let centerY := H / Fin 2 in
  let offsetMod :=
    _offset s mod (_lineHeight s * of_nat (List.length (items s))) in
  let baseY := centerY - offsetMod in
  let zoomP := zoom_progress b s ts in
  FillRect (Solid (Some (bg s))) (Fin 0) (Fin 0) W H
    :: vignette s
    ++ SetFont (font_string s)
    :: flat_map (draw_row s baseY centerY zoomP)
         (seq 0 (List.length (items s) * 3)).

(** The state update of [_tick], before the frame is drawn. *)
Definition advance (s : Reeler) (ts : num) : Reeler :=
  let s := if falsy (_prevTS s) then set_prevTS (Some ts) s else s in
  let dt := (ts - ToNumber (_prevTS s)) / Fin 1000 in
  let cycle := _lineHeight s * of_nat (List.length (items s)) in
  match _mode s with
  | loop =>
      let s := set_offset (_offset s + speed s * dt) s in
      set_offset (_offset s mod cycle) s
  | spin_mode =>
      let s := if falsy (_spinStart s) then set_spinStart (Some ts) s else s in
      let t := (ts - ToNumber (_spinStart s)) / Fin 1000 in
      if t <=? _spinT s
      then set_offset (speed s * t - Fin (1#2) * _accel s * t * t) s
      else set_pauseStart (Some ts) (set_mode pause (set_offset (_spinDist s) s))
  | pause =>
      if (ts - ToNumber (_pauseStart s)) >=? highlightDelay s
      then set_highlightStart (Some ts) (set_mode highlight s)
      else s
  | highlight => s
  | idle => s
  end.

(** [_tick(ts)] *)
Definition _tick (b : Browser) (s : Reeler) (ts : num)
  : Reeler * list effect :=
  let s := advance s ts in
  let frame := Draw (_draw b s ts) in
  let s := set_prevTS (Some ts) s in
  if negb (Mode_eqb (_mode s) idle)
  then (set_raf true s, [frame; RequestAnimationFrame])
  else (s, [frame]).

End R9.

(* ================================================================== *)
(** * Revision 3.3 (first unnamed listing) *)
(* ================================================================== *)

Module V33.

(** The instance [this].  The spin parameters are undefined until the
    first [spin]; an undefined number is carried as NaN, which is what it
    converts to in arithmetic and comparisons. *)
Record Reeler : Type := {
  items : list string;
  font : string;
  colors : list string;
  bg : string;
  speed : num;
  fadeOutAlpha : num;
  zoomScale : num;
  lineSpacing : num;
  _mode : Mode;
  _startTime : option num;
  _offset : num;
  _targetIdx : num;
  _loopRAF : bool;
  _spinTotalDist : num;
  _v0 : num;
  _a : num;
  _spinDurSec : num;
  _spinStart : option num;
  _highlightStart : option num;
  canvas_width : num;
  canvas_height : num;
  _fontHeight : num;
  _lineHeight : num
}.

(** Field assignments [this.f = v]. *)
Definition set_speed (v : num) (s : Reeler) : Reeler :=
  {| items := items s; font := font s; colors := colors s; bg := bg s;
     speed := v; fadeOutAlpha := fadeOutAlpha s; zoomScale := zoomScale s;
     lineSpacing := lineSpacing s; _mode := _mode s;
     _startTime := _startTime s; _offset := _offset s;
     _targetIdx := _targetIdx s; _loopRAF := _loopRAF s;
     _spinTotalDist := _spinTotalDist s; _v0 := _v0 s; _a := _a s;
     _spinDurSec := _spinDurSec s; _spinStart := _spinStart s;
     _highlightStart := _highlightStart s; canvas_width := canvas_width s;
     canvas_height := canvas_height s; _fontHeight := _fontHeight s;
     _lineHeight := _lineHeight s |}.
Definition set_mode (v : Mode) (s : Reeler) : Reeler :=
  {| items := items s; font := font s; colors := colors s; bg := bg s;
     speed := speed s; fadeOutAlpha := fadeOutAlpha s;
     zoomScale := zoomScale s; lineSpacing := lineSpacing s; _mode := v;
     _startTime := _startTime s; _offset := _offset s;
     _targetIdx := _targetIdx s; _loopRAF := _loopRAF s;
     _spinTotalDist := _spinTotalDist s; _v0 := _v0 s; _a := _a s;
     _spinDurSec := _spinDurSec s; _spinStart := _spinStart s;
     _highlightStart := _highlightStart s; canvas_width := canvas_width s;
     canvas_height := canvas_height s; _fontHeight := _fontHeight s;
     _lineHeight := _lineHeight s |}.
Definition set_startTime (v : option num) (s : Reeler) : Reeler :=
  {| items := items s; font := font s; colors := colors s; bg := bg s;
     speed := speed s; fadeOutAlpha := fadeOutAlpha s;
     zoomScale := zoomScale s; lineSpacing := lineSpacing s;
     _mode := _mode s; _startTime := v; _offset := _offset s;
     _targetIdx := _targetIdx s; _loopRAF := _loopRAF s;
     _spinTotalDist := _spinTotalDist s; _v0 := _v0 s; _a := _a s;
     _spinDurSec := _spinDurSec s; _spinStart := _spinStart s;
     _highlightStart := _highlightStart s; canvas_width := canvas_width s;
     canvas_height := canvas_height s; _fontHeight := _fontHeight s;
     _lineHeight := _lineHeight s |}.
Definition set_offset (v : num) (s : Reeler) : Reeler :=
  {| items := items s; font := font s; colors := colors s; bg := bg s;
     speed := speed s; fadeOutAlpha := fadeOutAlpha s;
     zoomScale := zoomScale s; lineSpacing := lineSpacing s;
     _mode := _mode s; _startTime := _startTime s; _offset := v;
     _targetIdx := _targetIdx s; _loopRAF := _loopRAF s;
     _spinTotalDist := _spinTotalDist s; _v0 := _v0 s; _a := _a s;
     _spinDurSec := _spinDurSec s; _spinStart := _spinStart s;
     _highlightStart := _highlightStart s; canvas_width := canvas_width s;
     canvas_height := canvas_height s; _fontHeight := _fontHeight s;
     _lineHeight := _lineHeight s |}.
Definition set_targetIdx (v : num) (s : Reeler) : Reeler :=
  {| items := items s; font := font s; colors := colors s; bg := bg s;
     speed := speed s; fadeOutAlpha := fadeOutAlpha s;
     zoomScale := zoomScale s; lineSpacing := lineSpacing s;
     _mode := _mode s; _startTime := _startTime s; _offset := _offset s;
     _targetIdx := v; _loopRAF := _loopRAF s;
     _spinTotalDist := _spinTotalDist s; _v0 := _v0 s; _a := _a s;
     _spinDurSec := _spinDurSec s; _spinStart := _spinStart s;
     _highlightStart := _highlightStart s; canvas_width := canvas_width s;
     canvas_height := canvas_height s; _fontHeight := _fontHeight s;
     _lineHeight := _lineHeight s |}.
Definition set_loopRAF (v : bool) (s : Reeler) : Reeler :=
  {| items := items s; font := font s; colors := colors s; bg := bg s;
     speed := speed s; fadeOutAlpha := fadeOutAlpha s;
     zoomScale := zoomScale s; lineSpacing := lineSpacing s;
     _mode := _mode s; _startTime := _startTime s; _offset := _offset s;
     _targetIdx := _targetIdx s; _loopRAF := v;
     _spinTotalDist := _spinTotalDist s; _v0 := _v0 s; _a := _a s;
     _spinDurSec := _spinDurSec s; _spinStart := _spinStart s;
     _highlightStart := _highlightStart s; canvas_width := canvas_width s;
     canvas_height := canvas_height s; _fontHeight := _fontHeight s;
     _lineHeight := _lineHeight s |}.
Definition set_spinTotalDist (v : num) (s : Reeler) : Reeler :=
  {| items := items s; font := font s; colors := colors s; bg := bg s;
     speed := speed s; fadeOutAlpha := fadeOutAlpha s;
     zoomScale := zoomScale s; lineSpacing := lineSpacing s;
     _mode := _mode s; _startTime := _startTime s; _offset := _offset s;
     _targetIdx := _targetIdx s; _loopRAF := _loopRAF s; _spinTotalDist := v;
     _v0 := _v0 s; _a := _a s; _spinDurSec := _spinDurSec s;
     _spinStart := _spinStart s; _highlightStart := _highlightStart s;
     canvas_width := canvas_width s; canvas_height := canvas_height s;
     _fontHeight := _fontHeight s; _lineHeight := _lineHeight s |}.
Definition set_v0 (v : num) (s : Reeler) : Reeler :=
  {| items := items s; font := font s; colors := colors s; bg := bg s;
     speed := speed s; fadeOutAlpha := fadeOutAlpha s;
     zoomScale := zoomScale s; lineSpacing := lineSpacing s;
     _mode := _mode s; _startTime := _startTime s; _offset := _offset s;
     _targetIdx := _targetIdx s; _loopRAF := _loopRAF s;
     _spinTotalDist := _spinTotalDist s; _v0 := v; _a := _a s;
     _spinDurSec := _spinDurSec s; _spinStart := _spinStart s;
     _highlightStart := _highlightStart s; canvas_width := canvas_width s;
     canvas_height := canvas_height s; _fontHeight := _fontHeight s;
     _lineHeight := _lineHeight s |}.
Definition set_a (v : num) (s : Reeler) : Reeler :=
  {| items := items s; font := font s; colors := colors s; bg := bg s;
     speed := speed s; fadeOutAlpha := fadeOutAlpha s;
     zoomScale := zoomScale s; lineSpacing := lineSpacing s;
     _mode := _mode s; _startTime := _startTime s; _offset := _offset s;
     _targetIdx := _targetIdx s; _loopRAF := _loopRAF s;
     _spinTotalDist := _spinTotalDist s; _v0 := _v0 s; _a := v;
     _spinDurSec := _spinDurSec s; _spinStart := _spinStart s;
     _highlightStart := _highlightStart s; canvas_width := canvas_width s;
     canvas_height := canvas_height s; _fontHeight := _fontHeight s;
     _lineHeight := _lineHeight s |}.
Definition set_spinDurSec (v : num) (s : Reeler) : Reeler :=
  {| items := items s; font := font s; colors := colors s; bg := bg s;
     speed := speed s; fadeOutAlpha := fadeOutAlpha s;
     zoomScale := zoomScale s; lineSpacing := lineSpacing s;
     _mode := _mode s; _startTime := _startTime s; _offset := _offset s;
     _targetIdx := _targetIdx s; _loopRAF := _loopRAF s;
     _spinTotalDist := _spinTotalDist s; _v0 := _v0 s; _a := _a s;
     _spinDurSec := v; _spinStart := _spinStart s;
     _highlightStart := _highlightStart s; canvas_width := canvas_width s;
     canvas_height := canvas_height s; _fontHeight := _fontHeight s;
     _lineHeight := _lineHeight s |}.
Definition set_spinStart (v : option num) (s : Reeler) : Reeler :=
  {| items := items s; font := font s; colors := colors s; bg := bg s;
     speed := speed s; fadeOutAlpha := fadeOutAlpha s;
     zoomScale := zoomScale s; lineSpacing := lineSpacing s;
     _mode := _mode s; _startTime := _startTime s; _offset := _offset s;
     _targetIdx := _targetIdx s; _loopRAF := _loopRAF s;
     _spinTotalDist := _spinTotalDist s; _v0 := _v0 s; _a := _a s;
     _spinDurSec := _spinDurSec s; _spinStart := v;
     _highlightStart := _highlightStart s; canvas_width := canvas_width s;
     canvas_height := canvas_height s; _fontHeight := _fontHeight s;
     _lineHeight := _lineHeight s |}.
Definition set_highlightStart (v : option num) (s : Reeler) : Reeler :=
  {| items := items s; font := font s; colors := colors s; bg := bg s;
     speed := speed s; fadeOutAlpha := fadeOutAlpha s;
     zoomScale := zoomScale s; lineSpacing := lineSpacing s;
     _mode := _mode s; _startTime := _startTime s; _offset := _offset s;
     _targetIdx := _targetIdx s; _loopRAF := _loopRAF s;
     _spinTotalDist := _spinTotalDist s; _v0 := _v0 s; _a := _a s;
     _spinDurSec := _spinDurSec s; _spinStart := _spinStart s;
     _highlightStart := v; canvas_width := canvas_width s;
     canvas_height := canvas_height s; _fontHeight := _fontHeight s;
     _lineHeight := _lineHeight s |}.

Local Open Scope js_scope.

(** [_resize()] *)
Definition _resize (b : Browser) (s : Reeler) : Reeler :=
  let m := measureText (window b) (font s) in
  let fontHeight := fst m + snd m in
  {| items := items s; font := font s; colors := colors s; bg := bg s;
     speed := speed s; fadeOutAlpha := fadeOutAlpha s;
     zoomScale := zoomScale s; lineSpacing := lineSpacing s;
     _mode := _mode s; _startTime := _startTime s; _offset := _offset s;
     _targetIdx := _targetIdx s; _loopRAF := _loopRAF s;
     _spinTotalDist := _spinTotalDist s; _v0 := _v0 s; _a := _a s;
     _spinDurSec := _spinDurSec s; _spinStart := _spinStart s;
     _highlightStart := _highlightStart s;
     canvas_width := innerWidth (window b);
     canvas_height := innerHeight (window b);
     _fontHeight := fontHeight;
     _lineHeight := fontHeight * lineSpacing s |}.

(** [startLoop(speedPxPerSec)] *)
Definition startLoop (speedPxPerSec : option num) (s : Reeler)
  : Reeler * list effect :=
  let s := match speedPxPerSec with
           | Some v => if truthy v then set_speed v s else s
           | None => s
           end in
  let s := set_mode loop s in
  let s := set_startTime None s in
  if negb (_loopRAF s)
  then (set_loopRAF true s, [RequestAnimationFrame])
  else (s, []).

(** [stopLoop()] *)
Definition stopLoop (s : Reeler) : Reeler := set_mode idle s.

(** [spin(targetIndex = null, { rotations = 6 } = {})] *)
Definition spin (b : Browser) (targetIndex : option num) (o : SpinOpts)
  (s : Reeler) : Reeler :=
  let rotations := nullish (rotations o) (Fin 6) in
  let n := of_nat (List.length (items s)) in
  let s := match targetIndex with
           | None => set_targetIdx (Math_floor (Math_random b * n)) s
           | Some targetIndex => set_targetIdx (targetIndex mod n) s
           end in
  let cycle := _lineHeight s * n in
  let targetOffset := _targetIdx s * _lineHeight s in
  let s := set_spinTotalDist (rotations * cycle + targetOffset) s in
  let s := set_v0 (speed s) s in
  let s := set_a ((_v0 s * _v0 s) / (Fin 2 * _spinTotalDist s)) s in
  let s := set_spinDurSec (_v0 s / _a s) s in
  let s := set_mode spin_mode s in
  set_spinStart None s.

(** [onStop(idx)]: the body is empty. *)
Definition onStop (idx : num) (s : Reeler) : Reeler * list effect := (s, []).

(** The call [this.onStop?.(idx)]: the invocation is recorded, then the
    body runs. *)
Definition call_onStop (idx : num) (s : Reeler) : Reeler * list effect :=
  let '(s, effs) := onStop idx s in (s, OnStop idx :: effs).

(** One iteration of the row loop of [_draw]. *)
Definition draw_row (s : Reeler) (baseY centerY : num) (i : nat)
  : list draw_cmd :=
  let n := List.length (items s) in
  let W := canvas_width s in
  let H := canvas_height s in
  let idx := Nat.modulo i n in
  let y := baseY + of_nat i * _lineHeight s - of_nat n * _lineHeight s in
  if orb (y <? neg (_lineHeight s)) (y >? H + _lineHeight s) then []
  else
    let '(alpha, scale) :=
      if Mode_eqb (_mode s) highlight then
        let inCenter := Math_abs (y - centerY) <? _lineHeight s * Fin (1#2) in
        if andb inCenter (of_nat idx === _targetIdx s)
        then (Fin 1, zoomScale s)
        else (fadeOutAlpha s, Fin 1)
      else (Fin 1, Fin 1) in
    [FillText {| row_i := i; row_idx := idx;
                 row_x := W / Fin 2; row_y := y;
                 row_scale := scale;
                 row_fillStyle := nth_error (colors s)
                                    (Nat.modulo idx (List.length (colors s)));
                 row_alpha := alpha;
                 row_text := nth idx (items s) EmptyString |}].

(** [_draw()] *)
Definition _draw (s : Reeler) : list draw_cmd :=
  let W := canvas_width s in
  let H := canvas_height s in
  let centerY := H / Fin 2 in
  let baseY :=
    centerY
    - (_offset s mod (_lineHeight s * of_nat (List.length (items s)))) in
  FillRect (Solid (Some (bg s))) (Fin 0) (Fin 0) W H
    :: SetFont (font s)
    :: flat_map (draw_row s baseY centerY)
         (seq 0 (List.length (items s) * 3)).

(** The state update of [_tick], with the hook calls it makes. *)
Definition advance (s : Reeler) (ts : num) : Reeler * list effect :=
  let s := if falsy (_startTime s) then set_startTime (Some ts) s else s in
  let dt := ts - ToNumber (_startTime s) in
  match _mode s with
  | loop =>
      let s := set_offset (_offset s + (speed s * dt) / Fin 1000) s in
      (set_offset
         (_offset s mod (_lineHeight s * of_nat (List.length (items s)))) s,
       [])
  | spin_mode =>
      let s := if falsy (_spinStart s) then set_spinStart (Some ts) s else s in
      let tSec := (ts - ToNumber (_spinStart s)) / Fin 1000 in
      if tSec <? _spinDurSec s
      then (set_offset (_v0 s * tSec - Fin (1#2) * _a s * tSec * tSec) s, [])
      else
        let s := set_offset (_spinTotalDist s) s in
        let s := set_mode highlight s in
        let s := set_highlightStart (Some ts) s in
        call_onStop (_targetIdx s) s
  | _ => (s, [])
  end.

(** [_tick(ts)] *)
Definition _tick (s : Reeler) (ts : num) : Reeler * list effect :=
  let '(s, calls) := advance s ts in
  let frame := Draw (_draw s) in
  let s := set_startTime (Some ts) s in
  if andb (negb (Mode_eqb (_mode s) idle)) (_loopRAF s)
  then (set_loopRAF true s, (calls ++ [frame; RequestAnimationFrame])%list)
  else (s, (calls ++ [frame])%list).

(** [new Reeler(canvasSel, items, opts = {})] *)
Definition constructor (b : Browser) (items0 : list string) (opts : Options)
  : Reeler * list effect :=
  let s :=
    {| items := items0;
       font := or_str (opt_font opts) default_font;
       colors := or_arr (opt_colors opts) ["#41ACF0"; "#D793FF"];
       bg := or_str (opt_bg opts) "#05193C";
       speed := or_num (opt_speed opts) (Fin 1500);
       fadeOutAlpha := nullish (opt_fadeOutAlpha opts) (Fin (2#10));
       zoomScale := or_num (opt_zoomScale opts) (Fin (16#10));
       lineSpacing := or_num (opt_lineSpacing opts) (Fin (125#100));
       _mode := loop; _startTime := None; _offset := Fin 0;
       _targetIdx := Fin 0; _loopRAF := false;
       _spinTotalDist := NaN; _v0 := NaN; _a := NaN; _spinDurSec := NaN;
       _spinStart := None; _highlightStart := None;
       canvas_width := NaN; canvas_height := NaN;
       _fontHeight := NaN; _lineHeight := NaN |} in
  startLoop None (_resize b s).

End V33.

(* ================================================================== *)
(** * Observations on runs and frames *)
(* ================================================================== *)

(** The arguments of the [onStop] invocations among some effects. *)
Fixpoint onStop_calls (effs : list effect) : list num :=
  match effs with
  | [] => []
  | OnStop idx :: rest => idx :: onStop_calls rest
  | _ :: rest => onStop_calls rest
  end.

(** The text rows of a frame, in drawing order. *)
Fixpoint rows_of (cmds : list draw_cmd) : list Row :=
  match cmds with
  | [] => []
  | FillText r :: rest => r :: rows_of rest
  | _ :: rest => rows_of rest
  end.

(** The gradient fills of a frame. *)
Definition is_gradient_fill (c : draw_cmd) : bool :=
  match c with
  | FillRect (LinearGradient _ _ _ _ _) _ _ _ _ => true
  | _ => false
  end.

Definition gradient_fills (cmds : list draw_cmd) : list draw_cmd :=
  filter is_gradient_fill cmds.

(** The two tests of the row loop of [_draw], on a drawn row: within half
    a line height of the vertical centre [H / 2], and at the target index. *)
Definition centred (H lineHeight : num) (r : Row) : bool :=
  (Math_abs (row_y r - H / Fin 2) <? lineHeight * Fin (1#2))%js.

Definition on_target (targetIdx : num) (r : Row) : bool :=
  (of_nat (row_idx r) === targetIdx)%js.

(** The rows of a frame drawn at a scale other than 1, and the rows drawn
    at an opacity other than [a]. *)
Definition zoomed_rows (rows : list Row) : list Row :=
  filter (fun r => negb (row_scale r === Fin 1)%js) rows.

Definition rows_not_at_alpha (a : num) (rows : list Row) : list Row :=
  filter (fun r => negb (row_alpha r === a)%js) rows.

(** The frames drawn among some effects. *)
Fixpoint frames_of (effs : list effect) : list (list draw_cmd) :=
  match effs with
  | [] => []
  | Draw cmds :: rest => cmds :: frames_of rest
  | _ :: rest => frames_of rest
  end.

(** The frame scheduler delivering the timestamps [tss] one after the
    other to [_tick]; the effects of all the ticks are collected. *)
Section Runs.

Variables (State : Type) (tick : State -> num -> State * list effect).

Fixpoint run (s : State) (tss : list num) : State * list effect :=
  match tss with
  | [] => (s, [])
  | ts :: rest =>
      let '(s1, e1) := tick s ts in
      let '(s2, e2) := run s1 rest in
      (s2, (e1 ++ e2)%list)
  end.

End Runs.

Arguments run {State} tick s tss.

(* ================================================================== *)
(** * The frame of a tick and sessions of calls (revision 3.8R10) *)
(* ================================================================== *)

Module Frame.

Local Open Scope js_scope.

(** [cycle] and [offsetMod] as [_tick] computes them before drawing. *)
Definition cycle (s : R10.Reeler) : num :=
  of_nat (List.length (R10.items s)) * R10._lineHeight s.

Definition offsetMod (s : R10.Reeler) : num :=
  ((R10._offset s mod cycle s) + cycle s) mod cycle s.

(** The frame that [_tick(ts)] draws. *)
Definition of_tick (b : Browser) (s : R10.Reeler) (ts : num) : list draw_cmd :=
  let s1 := R10.advance s ts in
  R10._draw b s1 ts (offsetMod s1).

End Frame.

(** A call of a public method, of [_resize] (the resize listener) or of
    [_tick] (the frame callback), each with the browser as it is then. *)
Inductive call : Type :=
| StartLoop (speedPxPerSec : option num)
| StopLoop
| Spin (targetIndex : option num) (o : SpinOpts)
| SpinTo (label : string) (o : SpinOpts)
| Resize
| Tick (ts : num).

Definition perform (s : R10.Reeler) (bc : Browser * call)
  : R10.Reeler * list effect :=
  let '(b, c) := bc in
  match c with
  | StartLoop v => R10.startLoop v s
  | StopLoop => (R10.stopLoop s, [])
  | Spin t o => (R10.spin b t o s, [])
  | SpinTo l o => (snd (R10.spinTo b l o s), [])
  | Resize => (R10._resize b s, [])
  | Tick ts => R10._tick b s ts
  end.

Fixpoint session (s : R10.Reeler) (calls : list (Browser * call))
  : R10.Reeler * list effect :=
  match calls with
  | [] => (s, [])
  | bc :: rest =>
      let '(s1, e1) := perform s bc in
      let '(s2, e2) := session s1 rest in
      (s2, (e1 ++ e2)%list)
  end.

Definition is_tick (bc : Browser * call) : bool :=
  match snd bc with Tick _ => true | _ => false end.

Definition frame_requests (effs : list effect) : nat :=
  List.length
    (filter (fun e => match e with RequestAnimationFrame => true | _ => false end)
       effs).

(* ================================================================== *)
(** * A concrete reel

    Five items on a 1600 x 900 surface; the font measures 100 + 20 pixels,
    so that the line height is 150 with the default spacing of 1.25. *)
(* ================================================================== *)

Module Demo.

Definition win : Window :=
  {| innerWidth := Fin 1600; innerHeight := Fin 900;
     measureText := fun _ => (Fin 100, Fin 20) |}.

Definition browser : Browser :=
  {| window := win; Math_random := Fin (1#2); performance_now := Fin 0 |}.

Definition letters : list string := ["A"; "B"; "C"; "D"; "E"].

(** [new Reeler(canvas, ["A","B","C","D","E"])] *)
Definition reel : R10.Reeler :=
  fst (R10.constructor browser letters no_options).

(** [new Reeler(canvas, ["A","B","C","D"])] *)
Definition quartet : list string := ["A"; "B"; "C"; "D"].

Definition reel4 : R10.Reeler :=
  fst (R10.constructor browser quartet no_options).

(** The five-item reel after [spin(2)] and the ticks at 1000 and 7500
    milliseconds (paused), and after one more tick at 7900 (highlighted). *)
Definition paused : R10.Reeler :=
  fst (run (R10._tick browser) (R10.spin browser (Some (Fin 2)) no_spin_opts reel)
         [Fin 1000; Fin 7500]).

Definition highlighted : R10.Reeler :=
  fst (R10._tick browser paused (Fin 7900)).

(** [{ fadeGradientAlpha: 0 }] *)
Definition no_vignette : Options :=
  {| opt_font := None; opt_fontWeight := None; opt_colors := None;
     opt_bg := None; opt_speed := None; opt_fadeOutAlpha := None;
     opt_zoomScale := None; opt_lineSpacing := None;
     opt_highlightDelay := None; opt_highlightAnimDuration := None;
     opt_fadeGradientColor := None; opt_fadeGradientAlpha := Some (Fin 0);
     opt_fadeGradientPower := None |}.

End Demo.

(* ================================================================== *)
(** * The frame scheduler

    [requestAnimationFrame(cb)] queues [cb] for the next frame, and every
    callback that the engine queues is [(ts) => this._tick(ts)].  A page
    is the instance together with the number of callbacks queued.  A
    frame at [ts] runs the queued callbacks with that timestamp; what
    they request is queued for the frame after it.  With nothing queued a
    frame runs nothing. *)
(* ================================================================== *)

Module Scheduler.

Record Page : Type := { instance : R10.Reeler; queued : nat }.

(** The page after [new Reeler(canvas, items, opts)]. *)
Definition load (b : Browser) (items0 : list string) (opts : Options) : Page :=
  let '(s, e) := R10.constructor b items0 opts in
  {| instance := s; queued := frame_requests e |}.

(** A call made by the page's script. *)
Definition invoke (p : Page) (bc : Browser * call) : Page :=
  let '(s, e) := perform (instance p) bc in
  {| instance := s; queued := (queued p + frame_requests e)%nat |}.

(** Running [k] queued callbacks at [ts]: the instance afterwards and the
    number of callbacks requested meanwhile. *)
Fixpoint callbacks (b : Browser) (k : nat) (s : R10.Reeler) (ts : num)
  : R10.Reeler * nat :=
  match k with
  | O => (s, O)
  | S k' =>
      let '(s1, e1) := R10._tick b s ts in
      let '(s2, r2) := callbacks b k' s1 ts in
      (s2, (frame_requests e1 + r2)%nat)
  end.

(** One frame of the browser, at [ts]. *)
Definition frame (b : Browser) (p : Page) (ts : num) : Page :=
  let '(s, r) := callbacks b (queued p) (instance p) ts in
  {| instance := s; queued := r |}.

(** The frames at the timestamps [tss], in order. *)
Fixpoint frames (b : Browser) (p : Page) (tss : list num) : Page :=
  match tss with
  | [] => p
  | ts :: rest => frames b (frame b p ts) rest
  end.

End Scheduler.

(* ================================================================== *)
(** * The motion of the reel in binary64 (revision 3.8R10)

    [spin] and the state update of [_tick] once more, on the doubles the
    engine computes with: every operation rounds as IEEE 754 binary64
    does.  Only the fields that the motion reads or writes are kept; the
    canvas, the colours and the frame requests are those of [R10]. *)
(* ================================================================== *)

Module B64.

Import PrimFloat SpecFloat FloatOps.
Local Open Scope float_scope.

(** [x % y]: the remainder of the truncated division, which is exact. *)
Definition rem (x y : float) : float :=
  match Prim2SF x, Prim2SF y with
  | S754_nan, _ | _, S754_nan => nan
  | S754_infinity _, _ => nan
  | _, S754_zero _ => nan
  | S754_zero _, _ => x
  | S754_finite _ _ _, S754_infinity _ => x
  | S754_finite sx mx ex, S754_finite _ my ey =>
      let e := Z.min ex ey in
      let X := (Zpos mx * 2 ^ (ex - e))%Z in
      let Y := (Zpos my * 2 ^ (ey - e))%Z in
      let R := (X mod Y)%Z in
      SF2Prim (binary_normalize prec emax (if sx then (- R)%Z else R) e sx)
  end.

(** [Math.floor(x)] *)
Definition Math_floor (x : float) : float :=
  match Prim2SF x with
  | S754_finite s m e =>
      if (0 <=? e)%Z then x
      else SF2Prim (binary_normalize prec emax
                      ((if s then Zneg m else Zpos m) / 2 ^ (- e))%Z 0%Z s)
  | _ => x
  end.

(** [items.length] as a number. *)
Definition of_nat (n : nat) : float :=
  SF2Prim (binary_normalize prec emax (Z.of_nat n) 0%Z false).

(** [x] in a boolean position: 0, -0 and NaN are falsy. *)
Definition truthy (x : float) : bool := negb (x =? 0) && (x =? x).

(** [o || d] *)
Definition or_num (o : option float) (d : float) : float :=
  match o with
  | Some x => if truthy x then x else d
  | None => d
  end.

(** A nullable number in an arithmetic position: [null] counts as 0. *)
Definition ToNumber (o : option float) : float :=
  match o with Some x => x | None => 0 end.

Record Reeler : Type := {
  items : list string;
  speed : float;
  lineSpacing : float;
  highlightDelay : float;
  _mode : Mode;
  _offset : float;
  _targetIdx : float;
  _spinStart : option float;
  _spinT : float;
  _accel : float;
  _spinDist : float;
  _pauseStart : option float;
  _highlightStart : option float;
  _prevTS : option float;
  _fontHeight : float;
  _lineHeight : float
}.

(** Field assignments [this.f = v]. *)
Definition set_mode (v : Mode) (s : Reeler) : Reeler :=
  {| items := items s; speed := speed s; lineSpacing := lineSpacing s;
     highlightDelay := highlightDelay s; _mode := v; _offset := _offset s;
     _targetIdx := _targetIdx s; _spinStart := _spinStart s;
     _spinT := _spinT s; _accel := _accel s; _spinDist := _spinDist s;
     _pauseStart := _pauseStart s; _highlightStart := _highlightStart s;
     _prevTS := _prevTS s; _fontHeight := _fontHeight s;
     _lineHeight := _lineHeight s |}.
Definition set_offset (v : float) (s : Reeler) : Reeler :=
  {| items := items s; speed := speed s; lineSpacing := lineSpacing s;
     highlightDelay := highlightDelay s; _mode := _mode s; _offset := v;
     _targetIdx := _targetIdx s; _spinStart := _spinStart s;
     _spinT := _spinT s; _accel := _accel s; _spinDist := _spinDist s;
     _pauseStart := _pauseStart s; _highlightStart := _highlightStart s;
     _prevTS := _prevTS s; _fontHeight := _fontHeight s;
     _lineHeight := _lineHeight s |}.
Definition set_targetIdx (v : float) (s : Reeler) : Reeler :=
  {| items := items s; speed := speed s; lineSpacing := lineSpacing s;
     highlightDelay := highlightDelay s; _mode := _mode s;
     _offset := _offset s; _targetIdx := v; _spinStart := _spinStart s;
     _spinT := _spinT s; _accel := _accel s; _spinDist := _spinDist s;
     _pauseStart := _pauseStart s; _highlightStart := _highlightStart s;
     _prevTS := _prevTS s; _fontHeight := _fontHeight s;
     _lineHeight := _lineHeight s |}.
Definition set_spinStart (v : option float) (s : Reeler) : Reeler :=
  {| items := items s; speed := speed s; lineSpacing := lineSpacing s;
     highlightDelay := highlightDelay s; _mode := _mode s;
     _offset := _offset s; _targetIdx := _targetIdx s; _spinStart := v;
     _spinT := _spinT s; _accel := _accel s; _spinDist := _spinDist s;
     _pauseStart := _pauseStart s; _highlightStart := _highlightStart s;
     _prevTS := _prevTS s; _fontHeight := _fontHeight s;
     _lineHeight := _lineHeight s |}.
Definition set_spinT (v : float) (s : Reeler) : Reeler :=
  {| items := items s; speed := speed s; lineSpacing := lineSpacing s;
     highlightDelay := highlightDelay s; _mode := _mode s;
     _offset := _offset s; _targetIdx := _targetIdx s;
     _spinStart := _spinStart s; _spinT := v; _accel := _accel s;
     _spinDist := _spinDist s; _pauseStart := _pauseStart s;
     _highlightStart := _highlightStart s; _prevTS := _prevTS s;
     _fontHeight := _fontHeight s; _lineHeight := _lineHeight s |}.
Definition set_accel (v : float) (s : Reeler) : Reeler :=
  {| items := items s; speed := speed s; lineSpacing := lineSpacing s;
     highlightDelay := highlightDelay s; _mode := _mode s;
     _offset := _offset s; _targetIdx := _targetIdx s;
     _spinStart := _spinStart s; _spinT := _spinT s; _accel := v;
     _spinDist := _spinDist s; _pauseStart := _pauseStart s;
     _highlightStart := _highlightStart s; _prevTS := _prevTS s;
     _fontHeight := _fontHeight s; _lineHeight := _lineHeight s |}.
Definition set_spinDist (v : float) (s : Reeler) : Reeler :=
  {| items := items s; speed := speed s; lineSpacing := lineSpacing s;
     highlightDelay := highlightDelay s; _mode := _mode s;
     _offset := _offset s; _targetIdx := _targetIdx s;
     _spinStart := _spinStart s; _spinT := _spinT s; _accel := _accel s;
     _spinDist := v; _pauseStart := _pauseStart s;
     _highlightStart := _highlightStart s; _prevTS := _prevTS s;
     _fontHeight := _fontHeight s; _lineHeight := _lineHeight s |}.
Definition set_pauseStart (v : option float) (s : Reeler) : Reeler :=
  {| items := items s; speed := speed s; lineSpacing := lineSpacing s;
     highlightDelay := highlightDelay s; _mode := _mode s;
     _offset := _offset s; _targetIdx := _targetIdx s;
     _spinStart := _spinStart s; _spinT := _spinT s; _accel := _accel s;
     _spinDist := _spinDist s; _pauseStart := v;
     _highlightStart := _highlightStart s; _prevTS := _prevTS s;
     _fontHeight := _fontHeight s; _lineHeight := _lineHeight s |}.
Definition set_highlightStart (v : option float) (s : Reeler) : Reeler :=
  {| items := items s; speed := speed s; lineSpacing := lineSpacing s;
     highlightDelay := highlightDelay s; _mode := _mode s;
     _offset := _offset s; _targetIdx := _targetIdx s;
     _spinStart := _spinStart s; _spinT := _spinT s; _accel := _accel s;
     _spinDist := _spinDist s; _pauseStart := _pauseStart s;
     _highlightStart := v; _prevTS := _prevTS s;
     _fontHeight := _fontHeight s; _lineHeight := _lineHeight s |}.
Definition set_prevTS (v : option float) (s : Reeler) : Reeler :=
  {| items := items s; speed := speed s; lineSpacing := lineSpacing s;
     highlightDelay := highlightDelay s; _mode := _mode s;
     _offset := _offset s; _targetIdx := _targetIdx s;
     _spinStart := _spinStart s; _spinT := _spinT s; _accel := _accel s;
     _spinDist := _spinDist s; _pauseStart := _pauseStart s;
     _highlightStart := _highlightStart s; _prevTS := v;
     _fontHeight := _fontHeight s; _lineHeight := _lineHeight s |}.

(** [new Reeler(canvasSel, items, opts)] with the options [speed],
    [lineSpacing] and [highlightDelay]; [ascent] and [descent] are what
    [measureText] reports to [_resize]. *)
Definition constructor (ascent descent : float) (items0 : list string)
  (opt_speed opt_lineSpacing opt_highlightDelay : option float) : Reeler :=
  let fontHeight := ascent + descent in
  let lineSpacing0 := or_num opt_lineSpacing 1.25 in
  {| items := items0;
     speed := or_num opt_speed 1500;
     lineSpacing := lineSpacing0;
     highlightDelay := or_num opt_highlightDelay 400;
     _mode := loop; _offset := 0; _targetIdx := 0;
     _spinStart := None; _spinT := 0; _accel := 0; _spinDist := 0;
     _pauseStart := None; _highlightStart := None; _prevTS := None;
     _fontHeight := fontHeight;
     _lineHeight := fontHeight * lineSpacing0 |}.

(** [spin(targetIndex = null, { rotations = 6 } = {})]; [random] is what
    [Math.random()] returns. *)
Definition spin (random : float) (targetIndex : option float)
  (rotations : option float) (s : Reeler) : Reeler :=
  let rotations := nullish rotations 6 in
  let n := of_nat (List.length (items s)) in
  let s := match targetIndex with
           | None => set_targetIdx (Math_floor (random * n)) s
           | Some targetIndex => set_targetIdx (rem (rem targetIndex n + n) n) s
           end in
  let cycle := n * _lineHeight s in
  let s := set_spinDist (rotations * cycle + _targetIdx s * _lineHeight s) s in
  let v0 := speed s in
  let s := set_accel ((v0 * v0) / (2 * _spinDist s)) s in
  let s := set_spinT (v0 / _accel s) s in
  let s := set_spinStart None s in
  set_mode spin_mode s.

(** The offset that the spin branch of [_tick] stores [t] seconds into
    the spin. *)
Definition spin_offset (s : Reeler) (t : float) : float :=
  speed s * t - 0.5 * _accel s * t * t.

(** The state update of [_tick], before the frame is drawn. *)
Definition advance (s : Reeler) (ts : float) : Reeler :=
  let s := match _prevTS s with
           | None => set_prevTS (Some ts) s
           | Some _ => s
           end in
  let dt := (ts - ToNumber (_prevTS s)) / 1000 in
  match _mode s with
  | loop => set_offset (_offset s + speed s * dt) s
  | spin_mode =>
      let s := match _spinStart s with
               | None => set_spinStart (Some ts) s
               | Some _ => s
               end in
      let t := (ts - ToNumber (_spinStart s)) / 1000 in
      if t <=? _spinT s
      then set_offset (spin_offset s t) s
      else set_pauseStart (Some ts) (set_mode pause (set_offset (_spinDist s) s))
  | pause =>
      if highlightDelay s <=? ts - ToNumber (_pauseStart s)
      then set_highlightStart (Some ts) (set_mode highlight s)
      else s
  | highlight => s
  | idle => s
  end.

(** [_tick(ts)], without the frame it draws and requests. *)
Definition _tick (s : Reeler) (ts : float) : Reeler :=
  set_prevTS (Some ts) (advance s ts).

(** The states after each of the ticks [tss], in order. *)
Fixpoint trace (s : Reeler) (tss : list float) : list Reeler :=
  match tss with
  | [] => []
  | ts :: rest => let s1 := _tick s ts in s1 :: trace s1 rest
  end.


(** The five-item reel: the font measures 100 + 20 pixels, so that the
    line height is 150 with the default spacing of 1.25. *)
Definition reel : Reeler :=
  constructor 100 20 ["A"; "B"; "C"; "D"; "E"]%string None None None.

End B64.

(* ================================================================== *)
(** * Facts about the number model *)
(* ================================================================== *)

Section NumFacts.

Local Open Scope Q_scope.

Lemma sgn_Eq q : sgn q = Eq <-> q == 0.
Proof. unfold sgn. symmetry. apply Qeq_alt. Qed.
Lemma sgn_Gt q : sgn q = Gt <-> 0 < q.
Proof. unfold sgn. rewrite Qgt_alt. tauto. Qed.
Lemma sgn_Lt q : sgn q = Lt <-> q < 0.
Proof. unfold sgn. rewrite Qlt_alt. tauto. Qed.

Lemma sgn_pos q : 0 < q -> sgn q = Gt.
Proof. apply sgn_Gt. Qed.

Global Instance sgn_Proper : Proper (Qeq ==> eq) sgn.
Proof. intros x y H. unfold sgn. now rewrite H. Qed.

Lemma Qtrunc_comp x y : x == y -> Qtrunc x = Qtrunc y.
Proof.
  unfold Qeq, Qtrunc. destruct x as [a b], y as [c d]. simpl. intros H.
  rewrite <- (Z.quot_mul_cancel_r a (Zpos b) (Zpos d)) by lia.
  rewrite H.
  rewrite (Z.mul_comm (Zpos b)).
  apply Z.quot_mul_cancel_r; lia.
Qed.

Global Instance Qtrunc_Proper : Proper (Qeq ==> eq) Qtrunc.
Proof. intros x y. apply Qtrunc_comp. Qed.

Global Instance same_Equivalence : Equivalence same.
Proof.
  split.
  - intros [q|s|]; simpl; auto. reflexivity.
  - intros [q|s|] [r|t|]; simpl; auto. intros H; now symmetry.
  - intros [q|s|] [r|t|] [u|v|]; simpl; try tauto; try congruence.
    intros H1 H2. now rewrite H1.
Qed.

Global Instance Fin_Proper : Proper (Qeq ==> same) Fin.
Proof. intros x y H. exact H. Qed.

Global Instance neg_Proper : Proper (same ==> same) neg.
Proof.
  intros [q|s|] [r|t|]; simpl; try tauto.
  - intros H. now rewrite H.
  - congruence.
Qed.

Global Instance add_Proper : Proper (same ==> same ==> same) add.
Proof.
  intros [a|s|] [b|t|] H1 [c|u|] [d|v|] H2; simpl in *; try tauto; subst; auto.
  - now rewrite H1, H2.
  - destruct (Bool.eqb t v); simpl; auto.
Qed.

Global Instance sub_Proper : Proper (same ==> same ==> same) sub.
Proof. intros x y H1 u v H2. unfold sub. now rewrite H1, H2. Qed.

Lemma scale_inf_comp s q r : q == r -> scale_inf s q ≈ scale_inf s r.
Proof. intros H. unfold scale_inf. rewrite H. reflexivity. Qed.

Global Instance mul_Proper : Proper (same ==> same ==> same) mul.
Proof.
  intros [a|s|] [b|t|] H1 [c|u|] [d|v|] H2; simpl in *; try tauto; subst; auto.
  - now rewrite H1, H2.
  - now apply scale_inf_comp.
  - now apply scale_inf_comp.
Qed.

Global Instance div_Proper : Proper (same ==> same ==> same) div.
Proof.
  intros [a|s|] [b|t|] H1 [c|u|] [d|v|] H2; simpl in *; try tauto; subst; auto.
  - rewrite <- H1, <- H2.
    destruct (sgn c); [destruct (sgn a); simpl; auto | |]; simpl;
      now rewrite H1, H2.
  - reflexivity.
  - rewrite H2. reflexivity.
Qed.

Global Instance rem_Proper : Proper (same ==> same ==> same) rem.
Proof.
  intros [a|s|] [b|t|] H1 [c|u|] [d|v|] H2; simpl in *; try tauto; subst; auto.
  rewrite <- H2.
  destruct (sgn c); simpl; auto.
  all: rewrite (Qtrunc_comp (a / c) (b / d)) by (now rewrite H1, H2);
    now rewrite H1, H2.
Qed.

Global Instance leb_Proper : Proper (same ==> same ==> eq) leb.
Proof.
  intros [a|s|] [b|t|] H1 [c|u|] [d|v|] H2; simpl in *; try tauto; subst; auto.
  apply eq_true_iff_eq. rewrite !Qle_bool_iff. now rewrite H1, H2.
Qed.

Global Instance ltb_Proper : Proper (same ==> same ==> eq) ltb.
Proof.
  intros [a|s|] [b|t|] H1 [c|u|] [d|v|] H2; simpl in *; try tauto; subst; auto.
  f_equal. apply eq_true_iff_eq. rewrite !Qle_bool_iff. now rewrite H1, H2.
Qed.

End NumFacts.

Section IntegerRemainder.

Local Open Scope Q_scope.

Lemma Qtrunc_div_Z (a b : Z) : (b <> 0)%Z ->
  Qtrunc (inject_Z a / inject_Z b) = Z.quot a b.
Proof.
  intros Hb. destruct b as [|p|p]; [lia | |].
  - rewrite (Qtrunc_comp (inject_Z a / inject_Z (Zpos p)) (a # p)).
    + reflexivity.
    + symmetry. apply Qmake_Qdiv.
  - rewrite (Qtrunc_comp (inject_Z a / inject_Z (Zneg p)) ((- a) # p)).
    + unfold Qtrunc. simpl Qnum. simpl Qden.
      change (Zneg p) with (- Zpos p)%Z.
      rewrite Z.quot_opp_l, Z.quot_opp_r by lia. reflexivity.
    + rewrite (Qmake_Qdiv (- a) p).
      change (Zneg p) with (- Zpos p)%Z.
      rewrite !inject_Z_opp. field.
      intros H. apply (Qeq_bool_neq (inject_Z (Zpos p)) 0); auto.
Qed.

Lemma rem_of_Z (a b : Z) : (b <> 0)%Z ->
  rem (of_Z a) (of_Z b) ≈ of_Z (Z.rem a b).
Proof.
  intros Hb. unfold rem, of_Z.
  assert (Hs : sgn (inject_Z b) <> Eq).
  { rewrite sgn_Eq. intros H. apply Hb.
    apply (inject_Z_injective b 0). exact H. }
  assert (E : inject_Z a - inject_Z b * inject_Z (Qtrunc (inject_Z a / inject_Z b))
              == inject_Z (Z.rem a b)).
  { rewrite Qtrunc_div_Z by assumption.
    rewrite <- inject_Z_mult. unfold Qminus. rewrite <- inject_Z_opp, <- inject_Z_plus.
    apply inject_Z_injective.
    pose proof (Z.quot_rem' a b). lia. }
  destruct (sgn (inject_Z b)); [congruence | exact E | exact E].
Qed.

Lemma add_of_Z (a b : Z) : add (of_Z a) (of_Z b) ≈ of_Z (a + b).
Proof. unfold of_Z, add, same. rewrite inject_Z_plus. reflexivity. Qed.

Lemma mul_of_Z (a b : Z) : mul (of_Z a) (of_Z b) ≈ of_Z (a * b).
Proof. unfold of_Z, mul, same. rewrite inject_Z_mult. reflexivity. Qed.

Lemma of_nat_of_Z (n : nat) : of_nat n = of_Z (Z.of_nat n).
Proof. reflexivity. Qed.

(** The double remainder of [spin] is the mathematical modulo. *)
Lemma true_modulo (z n : Z) : (0 < n)%Z ->
  rem (add (rem (of_Z z) (of_Z n)) (of_Z n)) (of_Z n) ≈ of_Z (z mod n).
Proof.
  intros Hn.
  rewrite rem_of_Z by lia.
  rewrite add_of_Z.
  rewrite rem_of_Z by lia.
  assert (E : Z.rem (Z.rem z n + n) n = (z mod n)%Z).
  { pose proof (Z.rem_bound_abs z n ltac:(lia)) as Hb.
    rewrite Z.rem_mod_nonneg by lia.
    replace (Z.rem z n + n)%Z with (Z.rem z n + 1 * n)%Z by lia.
    rewrite Z_mod_plus_full.
    pose proof (Z.quot_rem' z n) as Hq.
    replace (z mod n)%Z with ((Z.rem z n + Z.quot z n * n) mod n)%Z
      by (f_equal; lia).
    now rewrite Z_mod_plus_full. }
  rewrite E. reflexivity.
Qed.

End IntegerRemainder.

(* ================================================================== *)
(** * The target index of [spin] *)
(* ================================================================== *)

Section SpinTarget.

Import R10.
Local Open Scope Z_scope.

Variables (b : Browser) (o : SpinOpts) (s : Reeler).

(** The fields [spin] leaves alone, and the ones it computes. *)
Lemma spin_targetIdx_given (t : num) :
  _targetIdx (spin b (Some t) o s)
  = let n := of_nat (List.length (items s)) in (((t mod n) + n) mod n)%js.
Proof. reflexivity. Qed.

Lemma spin_items (t : option num) : items (spin b t o s) = items s.
Proof. destruct t; reflexivity. Qed.

(** The double remainder resolves an integer index to its modulo. *)
Lemma spin_targetIdx_mod (z : Z) :
  items s <> [] ->
  _targetIdx (spin b (Some (of_Z z)) o s)
    ≈ of_Z (z mod Z.of_nat (List.length (items s))).
Proof.
  intros Hne.
  rewrite spin_targetIdx_given. cbv zeta. rewrite of_nat_of_Z.
  apply true_modulo.
  destruct (items s); [congruence | simpl List.length; lia].
Qed.

(** C6: for every integer target index and every non-empty item list,
    [spin] resolves the index by [((t % n) + n) % n], which is the
    mathematical modulo: the resolved index is [t mod n], a value of
    [[0, n)]. *)
Theorem C6_spin_normalizes_index (z : Z) :
  items s <> [] ->
  let n := Z.of_nat (List.length (items s)) in
  _targetIdx (spin b (Some (of_Z z)) o s)
    = (((of_Z z mod of_Z n) + of_Z n) mod of_Z n)%js
  /\ _targetIdx (spin b (Some (of_Z z)) o s) ≈ of_Z (z mod n)
  /\ 0 <= z mod n < n.
Proof.
  intros Hne n.
  split; [reflexivity | split].
  - now apply spin_targetIdx_mod.
  - apply Z.mod_pos_bound.
    unfold n. destruct (items s); [congruence | simpl List.length; lia].
Qed.

End SpinTarget.

(** With five items, index -1 resolves to 4. *)
Lemma C6_spin_normalizes_index_witness :
  R10.items Demo.reel <> []
  /\ R10._targetIdx
       (R10.spin Demo.browser (Some (of_Z (-1))) no_spin_opts Demo.reel)
     ≈ of_Z 4.
Proof.
  assert (Hne : R10.items Demo.reel <> []) by discriminate.
  split; [exact Hne |].
  exact (proj1 (proj2 (C6_spin_normalizes_index
                         Demo.browser no_spin_opts Demo.reel (-1) Hne))).
Defined.

(* ================================================================== *)
(** * [spinTo] *)
(* ================================================================== *)

Section SpinTo.

Import R10.

Lemma indexOf_None (l : list string) (x : string) :
  indexOf l x = None <-> ~ In x l.
Proof.
  induction l as [|y l IH]; simpl.
  - tauto.
  - destruct (String.eqb_spec y x) as [->|Hne].
    + split; [discriminate | tauto].
    + destruct (indexOf l x) eqn:E.
      * split; [discriminate |]. intros H. exfalso. apply H. right.
        destruct (in_dec string_dec x l) as [Hin|Hin]; [exact Hin |].
        apply IH in Hin. discriminate.
      * split; [| reflexivity]. intros _ [H|H]; [congruence |].
        now apply IH in H.
Qed.

(** [indexOf] answers the first position that holds the label. *)
Lemma indexOf_first (l : list string) (x : string) (i : nat) :
  indexOf l x = Some i ->
  nth_error l i = Some x /\ forall j, (j < i)%nat -> nth_error l j <> Some x.
Proof.
  revert i. induction l as [|y l IH]; simpl; intros i H; [discriminate |].
  destruct (String.eqb_spec y x) as [->|Hne].
  - injection H as <-. split; [reflexivity | intros j Hj; lia].
  - destruct (indexOf l x) as [k|] eqn:E; [| discriminate].
    injection H as <-. destruct (IH k eq_refl) as [Hk Hmin].
    split; [exact Hk |].
    intros [|j] Hj; simpl; [congruence | apply Hmin; lia].
Qed.

Variables (b : Browser) (o : SpinOpts) (s : Reeler).

(** C4: a label that is not an item makes [spinTo] answer [false] and
    leave the instance as it was; a label that is an item makes it answer
    [true] and leave the instance that [spin] of the first matching index
    produces. *)
Theorem C4_spinTo (label : string) :
  (~ In label (items s) -> spinTo b label o s = (false, s))
  /\ (In label (items s) ->
      exists idx,
        indexOf (items s) label = Some idx
        /\ nth_error (items s) idx = Some label
        /\ (forall j, (j < idx)%nat -> nth_error (items s) j <> Some label)
        /\ spinTo b label o s = (true, spin b (Some (of_nat idx)) o s)).
Proof.
  unfold spinTo. split.
  - intros Hnot. apply indexOf_None in Hnot. now rewrite Hnot.
  - intros Hin. destruct (indexOf (items s) label) as [idx|] eqn:E.
    + exists idx. destruct (indexOf_first _ _ _ E) as [Hnth Hmin]. auto.
    + apply indexOf_None in E. contradiction.
Qed.

End SpinTo.

(** On the five-item reel: "C" is found at index 2, "Z" is not found. *)
Lemma C4_spinTo_witness :
  R10.spinTo Demo.browser "Z" no_spin_opts Demo.reel = (false, Demo.reel)
  /\ R10.spinTo Demo.browser "C" no_spin_opts Demo.reel
     = (true, R10.spin Demo.browser (Some (of_nat 2)) no_spin_opts Demo.reel).
Proof.
  split.
  - apply (proj1 (C4_spinTo Demo.browser no_spin_opts Demo.reel "Z")).
    vm_compute. intuition discriminate.
  - destruct (proj2 (C4_spinTo Demo.browser no_spin_opts Demo.reel "C"))
      as (idx & Hidx & _ & _ & H).
    + vm_compute. tauto.
    + vm_compute in Hidx. injection Hidx as <-. exact H.
Defined.

(* ================================================================== *)
(** * One tick of revision 3.8R10, field by field *)
(* ================================================================== *)


(** Reduction of field reads over field assignments, and nothing else. *)
Ltac reel_simpl :=
  cbn [R10.items R10.font R10.colors R10.bg R10.speed R10.fontWeight
       R10.fadeOutAlpha R10.zoomScale R10.lineSpacing R10.highlightDelay
       R10.highlightAnimDuration R10.fadeGradientColor R10.fadeGradientAlpha
       R10.fadeGradientPower R10._mode R10._offset R10._targetIdx
       R10._spinStart R10._spinT R10._accel R10._spinDist R10._pauseStart
       R10._highlightStart R10._prevTS R10.canvas_width R10.canvas_height
       R10._fontHeight R10._lineHeight R10._raf
       R10.set_speed R10.set_mode R10.set_offset R10.set_targetIdx
       R10.set_spinStart R10.set_spinT R10.set_accel R10.set_spinDist
       R10.set_pauseStart R10.set_highlightStart R10.set_prevTS R10.set_raf
       ToNumber fst snd Mode_eqb negb] in *.

Section TickFields.

Import R10.
Local Open Scope js_scope.

Variables (b : Browser) (s : Reeler) (ts : num).

(** After [advance], [_tick] only stores the timestamp and the handle. *)
Lemma tick_state :
  fst (_tick b s ts)
  = let s1 := set_prevTS (Some ts) (advance s ts) in
    if negb (Mode_eqb (_mode s1) idle) then set_raf true s1 else s1.
Proof. unfold _tick. cbv zeta. now destruct (negb _). Qed.

Lemma tick_offset : _offset (fst (_tick b s ts)) = _offset (advance s ts).
Proof. rewrite tick_state. cbv zeta. now destruct (negb _). Qed.

Lemma tick_mode : _mode (fst (_tick b s ts)) = _mode (advance s ts).
Proof. rewrite tick_state. cbv zeta. now destruct (negb _). Qed.

Lemma tick_spinStart :
  _spinStart (fst (_tick b s ts)) = _spinStart (advance s ts).
Proof. rewrite tick_state. cbv zeta. now destruct (negb _). Qed.

Lemma tick_prevTS : _prevTS (fst (_tick b s ts)) = Some ts.
Proof. rewrite tick_state. cbv zeta. now destruct (negb _). Qed.

(** The spin parameters, the speed and the layout are read, never written. *)
Lemma advance_params :
  speed (advance s ts) = speed s
  /\ _accel (advance s ts) = _accel s
  /\ _spinT (advance s ts) = _spinT s
  /\ _spinDist (advance s ts) = _spinDist s
  /\ _targetIdx (advance s ts) = _targetIdx s
  /\ _lineHeight (advance s ts) = _lineHeight s
  /\ items (advance s ts) = items s.
Proof.
  unfold advance.
  destruct (_prevTS s), (_mode s); cbn;
    repeat match goal with
           | |- context [match ?x with _ => _ end] => destruct x; cbn
           end; repeat split; reflexivity.
Qed.

Lemma tick_params :
  speed (fst (_tick b s ts)) = speed s
  /\ _accel (fst (_tick b s ts)) = _accel s
  /\ _spinT (fst (_tick b s ts)) = _spinT s
  /\ _spinDist (fst (_tick b s ts)) = _spinDist s
  /\ _targetIdx (fst (_tick b s ts)) = _targetIdx s
  /\ _lineHeight (fst (_tick b s ts)) = _lineHeight s
  /\ items (fst (_tick b s ts)) = items s.
Proof.
  destruct advance_params as (H1 & H2 & H3 & H4 & H5 & H6 & H7).
  rewrite <- H1, <- H2, <- H3, <- H4, <- H5, <- H6, <- H7.
  rewrite tick_state. cbv zeta. destruct (negb _); repeat split; reflexivity.
Qed.

Lemma advance_spin_running :
  _mode s = spin_mode ->
  (spin_elapsed s ts <=? _spinT s) = true ->
  _offset (advance s ts)
  = speed s * spin_elapsed s ts
    - Fin (1#2) * _accel s * spin_elapsed s ts * spin_elapsed s ts
  /\ _mode (advance s ts) = spin_mode
  /\ _spinStart (advance s ts) = Some (spin_anchor s ts).
Proof.
  unfold spin_elapsed, spin_anchor, advance. intros Hm.
  destruct (_prevTS s) eqn:Hp, (_spinStart s) eqn:Hs;
    repeat (progress (reel_simpl; rewrite ?Hm, ?Hs));
    intros ->; reel_simpl; rewrite ?Hm; auto.
Qed.

Lemma advance_spin_arrived :
  _mode s = spin_mode ->
  (spin_elapsed s ts <=? _spinT s) = false ->
  _offset (advance s ts) = _spinDist s
  /\ _mode (advance s ts) = pause
  /\ _pauseStart (advance s ts) = Some ts.
Proof.
  unfold spin_elapsed, spin_anchor, advance. intros Hm.
  destruct (_prevTS s) eqn:Hp, (_spinStart s) eqn:Hs;
    repeat (progress (reel_simpl; rewrite ?Hm, ?Hs));
    intros ->; reel_simpl; auto.
Qed.

End TickFields.

(* ================================================================== *)
(** * The deceleration of [spin] *)
(* ================================================================== *)

Section NumFinite.

Local Open Scope Q_scope.

Lemma same_Fin_inv (x : num) (q : Q) :
  x ≈ Fin q -> exists p, x = Fin p /\ p == q.
Proof. destruct x as [p|t|]; simpl; intros H; [eauto | tauto | tauto]. Qed.

Lemma div_pos (a c : Q) : 0 < c -> div (Fin a) (Fin c) = Fin (a / c).
Proof. intros H. unfold div. now rewrite (sgn_pos c H). Qed.

Lemma leb_Fin (a c : Q) : leb (Fin a) (Fin c) = true <-> a <= c.
Proof. apply Qle_bool_iff. Qed.

Lemma leb_Fin_false (a c : Q) : leb (Fin a) (Fin c) = false <-> c < a.
Proof.
  simpl. rewrite <- Bool.not_true_iff_false, Qle_bool_iff.
  split; [apply Qnot_le_lt | apply Qlt_not_le].
Qed.

(** The distance covered after [t] seconds of constant deceleration. *)
Lemma stop_distance (v0 D : Q) :
  0 < v0 -> 0 < D ->
  let a := v0 * v0 / (2 * D) in
  let T := v0 / a in
  0 < a /\ T == 2 * D / v0 /\ v0 * T - (1#2) * a * T * T == D.
Proof.
  intros Hv HD a T.
  assert (Ha : 0 < a).
  { unfold a. apply Qlt_shift_div_l; [lra | nra]. }
  assert (HT : T == 2 * D / v0).
  { unfold T, a. field. split; lra. }
  split; [exact Ha | split; [exact HT |]].
  rewrite HT. unfold a. field. split; lra.
Qed.


End NumFinite.

Section SpinTick.

Import R10.
Local Open Scope Q_scope.

(** A spin tick before the stop, on finite parameters. *)
Lemma tick_spin_running (b : Browser) (s : Reeler) (ts : num) (e v a T : Q) :
  _mode s = spin_mode ->
  spin_elapsed s ts ≈ Fin e ->
  speed s ≈ Fin v -> _accel s ≈ Fin a -> _spinT s ≈ Fin T ->
  e <= T ->
  _offset (fst (_tick b s ts)) ≈ Fin (v * e - (1#2) * a * e * e)
  /\ _mode (fst (_tick b s ts)) = spin_mode
  /\ _spinStart (fst (_tick b s ts)) = Some (spin_anchor s ts).
Proof.
  intros Hm He Hv Ha HT HeT.
  assert (Hle : leb (spin_elapsed s ts) (_spinT s) = true).
  { rewrite He, HT. now apply leb_Fin. }
  destruct (advance_spin_running s ts Hm Hle) as (Ho & Hmode & Hstart).
  rewrite tick_offset, tick_mode, tick_spinStart.
  split; [| split; assumption].
  rewrite Ho, He, Hv, Ha. reflexivity.
Qed.

(** A spin tick after the stop. *)
Lemma tick_spin_arrived (b : Browser) (s : Reeler) (ts : num) (e T : Q) :
  _mode s = spin_mode ->
  spin_elapsed s ts ≈ Fin e -> _spinT s ≈ Fin T ->
  T < e ->
  _offset (fst (_tick b s ts)) = _spinDist s
  /\ _mode (fst (_tick b s ts)) = pause.
Proof.
  intros Hm He HT HeT.
  assert (Hle : leb (spin_elapsed s ts) (_spinT s) = false).
  { rewrite He, HT. now apply leb_Fin_false. }
  destruct (advance_spin_arrived s ts Hm Hle) as (Ho & Hmode & _).
  rewrite tick_offset, tick_mode. now split.
Qed.

Lemma elapsed_Fin (t1 t0 : Q) :
  ((Fin t1 - Fin t0) / Fin 1000)%js = Fin ((t1 - t0) / 1000).
Proof. reflexivity. Qed.

End SpinTick.

Section Spin.

Import R10.
Local Open Scope Q_scope.

Variables (b : Browser) (s : Reeler) (o : SpinOpts).
Variables (z : Z) (r v0 lh : Q).

Hypothesis Hspeed : speed s = Fin v0.
Hypothesis Hline : _lineHeight s = Fin lh.
Hypothesis Hrot : nullish (rotations o) (Fin 6) = Fin r.
Hypothesis Hitems : items s <> [].

Let n : Z := Z.of_nat (List.length (items s)).
Let D : Q := r * (inject_Z n * lh) + inject_Z (z mod n) * lh.
Let a : Q := v0 * v0 / (2 * D).
Let T : Q := v0 / a.
Let s1 : Reeler := spin b (Some (of_Z z)) o s.

Hypothesis Hv0 : 0 < v0.
Hypothesis HD : 0 < D.

Lemma spin_spinDist : _spinDist s1 ≈ Fin D.
Proof.
  assert (E : _spinDist s1
              = (nullish (rotations o) (Fin 6)
                 * (of_nat (List.length (items s)) * _lineHeight s)
                 + _targetIdx s1 * _lineHeight s)%js) by reflexivity.
  rewrite E, Hrot, Hline.
  pose proof (spin_targetIdx_mod b o s z Hitems) as Hk.
  fold s1 in Hk. rewrite Hk. reflexivity.
Qed.

Lemma spin_accel : _accel s1 ≈ Fin a.
Proof.
  assert (E : _accel s1 = ((speed s * speed s) / (Fin 2 * _spinDist s1))%js)
    by reflexivity.
  rewrite E, Hspeed, spin_spinDist.
  cbn [mul]. rewrite div_pos by lra. reflexivity.
Qed.

Lemma spin_spinT : _spinT s1 ≈ Fin T.
Proof.
  assert (E : _spinT s1 = (speed s / _accel s1)%js) by reflexivity.
  rewrite E, Hspeed, spin_accel.
  rewrite div_pos; [reflexivity |].
  apply (stop_distance v0 D Hv0 HD).
Qed.

Lemma spin_entered :
  _mode s1 = spin_mode /\ _spinStart s1 = None /\ speed s1 = Fin v0
  /\ _offset s1 = _offset s.
Proof. repeat split; try reflexivity. exact Hspeed. Qed.

(** The state after the first spin tick, delivered at [ts0]. *)
Let s2 (ts0 : Q) : Reeler := fst (_tick b s1 (Fin ts0)).

Lemma spin_anchored (ts0 : Q) :
  _mode (s2 ts0) = spin_mode
  /\ _spinStart (s2 ts0) = Some (Fin ts0)
  /\ _offset (s2 ts0) ≈ Fin 0
  /\ speed (s2 ts0) = Fin v0
  /\ _accel (s2 ts0) ≈ Fin a
  /\ _spinT (s2 ts0) ≈ Fin T
  /\ _spinDist (s2 ts0) ≈ Fin D.
Proof.
  destruct spin_entered as (Hm & Hs & Hv & _).
  destruct (stop_distance v0 D Hv0 HD) as (Ha & HT & _).
  assert (He : spin_elapsed s1 (Fin ts0) ≈ Fin 0).
  { unfold spin_elapsed, spin_anchor. rewrite Hs, elapsed_Fin.
    apply Fin_Proper. field. }
  destruct (tick_spin_running b s1 (Fin ts0) 0 v0 a T Hm He) as (Ho & Hm2 & Hs2).
  - now rewrite Hv.
  - exact spin_accel.
  - exact spin_spinT.
  - unfold T. apply Qle_shift_div_l; [exact Ha | lra].
  - unfold spin_anchor in Hs2. rewrite Hs in Hs2.
    destruct (tick_params b s1 (Fin ts0)) as (P1 & P2 & P3 & P4 & _).
    unfold s2. rewrite P1, P2, P3, P4.
    repeat split; auto using spin_accel, spin_spinT, spin_spinDist.
    rewrite Ho. apply Fin_Proper. ring.
Qed.


End Spin.

Section SpinClaims.

Import PrimFloat.
Import R10.
Local Open Scope Q_scope.
Local Set Warnings "-inexact-float".



End SpinClaims.



Section Rounding.

Import PrimFloat.
Local Open Scope float_scope.
Local Set Warnings "-inexact-float".



End Rounding.

(* ================================================================== *)
(** * A spin over the distance zero *)
(* ================================================================== *)

Section ZeroDistance.

Import R10.
Local Open Scope Q_scope.

Lemma same_Inf_inv (x : num) (p : bool) : x ≈ Inf p -> x = Inf p.
Proof. destruct x; simpl; intros H; [tauto | now subst | tauto]. Qed.

Lemma same_NaN_inv (x : num) : x ≈ NaN -> x = NaN.
Proof. destruct x; simpl; tauto. Qed.

Lemma div_by_zero (p q : Q) : 0 < p -> q == 0 -> div (Fin p) (Fin q) = Infinity.
Proof.
  intros Hp Hq. unfold div.
  rewrite (proj2 (sgn_Eq q) Hq), (sgn_pos p Hp). reflexivity.
Qed.

Lemma Infinity_times_zero (q : Q) : q == 0 -> mul Infinity (Fin q) = NaN.
Proof.
  intros Hq. unfold Infinity, mul, scale_inf.
  now rewrite (proj2 (sgn_Eq q) Hq).
Qed.

(** C10: [spin] with [rotations = 0] and a target that resolves to index 0
    computes the distance 0, divides by it ([_accel] is Infinity, [_spinT]
    is 0), and the first spin tick stores NaN in [_offset]; the tick after
    it stores the distance 0 and leaves the spin.  The speed is a finite
    number other than 0 and the line height is positive, as the sum of a
    font's ascent and descent is: the zeros of the computation are then
    all +0. *)
Theorem C10_zero_distance_spin
  (b : Browser) (s : Reeler) (o : SpinOpts) (z : Z) (v0 lh ts0 ts1 : Q) :
  speed s = Fin v0 -> ~ v0 == 0 ->
  _lineHeight s = Fin lh -> 0 < lh ->
  items s <> [] ->
  nullish (rotations o) (Fin 6) = Fin 0 ->
  (z mod Z.of_nat (List.length (items s)) = 0)%Z ->
  ts0 < ts1 ->
  let s1 := spin b (Some (of_Z z)) o s in
  let s2 := fst (_tick b s1 (Fin ts0)) in
  let s3 := fst (_tick b s2 (Fin ts1)) in
  _targetIdx s1 ≈ Fin 0
  /\ _spinDist s1 ≈ Fin 0
  /\ _accel s1 = Infinity
  /\ _spinT s1 = Fin 0
  /\ _offset s2 = NaN /\ _mode s2 = spin_mode
  /\ _offset s3 ≈ Fin 0 /\ _mode s3 = pause.
Proof.
  intros Hv Hv0 Hl Hlh Hi Hr Hz Hts s1 s2 s3.
  assert (Hk : _targetIdx s1 ≈ Fin 0).
  { unfold s1. rewrite (spin_targetIdx_mod b o s z Hi), Hz. reflexivity. }
  assert (HD : _spinDist s1 ≈ Fin 0).
  { assert (E : _spinDist s1
                = (nullish (rotations o) (Fin 6)
                   * (of_nat (List.length (items s)) * _lineHeight s)
                   + _targetIdx s1 * _lineHeight s)%js) by reflexivity.
    rewrite E, Hr, Hl, Hk. apply Fin_Proper. ring. }
  assert (Ha : _accel s1 = Infinity).
  { assert (E : _accel s1 = ((speed s * speed s) / (Fin 2 * _spinDist s1))%js)
      by reflexivity.
    apply same_Inf_inv. rewrite E, Hv, HD. cbn [mul].
    rewrite div_by_zero; [reflexivity | nra | ring]. }
  assert (HT : _spinT s1 = Fin 0).
  { assert (E : _spinT s1 = (speed s / _accel s1)%js) by reflexivity.
    rewrite E, Hv, Ha. reflexivity. }
  assert (Hm : _mode s1 = spin_mode) by reflexivity.
  assert (Hs : _spinStart s1 = None) by reflexivity.
  assert (Hsp : speed s1 = Fin v0) by exact Hv.
  (* first tick: elapsed time 0 *)
  assert (He : spin_elapsed s1 (Fin ts0) = Fin ((ts0 - ts0) / 1000)).
  { unfold spin_elapsed, spin_anchor. now rewrite Hs. }
  assert (Hle : leb (spin_elapsed s1 (Fin ts0)) (_spinT s1) = true).
  { rewrite He, HT. apply leb_Fin.
    assert (E0 : (ts0 - ts0) / 1000 == 0) by field. rewrite E0. apply Qle_refl. }
  destruct (advance_spin_running s1 (Fin ts0) Hm Hle) as (Ho2 & Hm2 & Hs2).
  assert (Hoff2 : _offset s2 = NaN).
  { unfold s2. rewrite tick_offset, Ho2, He, Ha, Hsp.
    change (Fin (1#2) * Infinity)%js with Infinity.
    rewrite Infinity_times_zero by field. reflexivity. }
  assert (Hmode2 : _mode s2 = spin_mode).
  { unfold s2. now rewrite tick_mode. }
  assert (Hstart2 : _spinStart s2 = Some (Fin ts0)).
  { unfold s2. rewrite tick_spinStart, Hs2. unfold spin_anchor. now rewrite Hs. }
  destruct (tick_params b s1 (Fin ts0)) as (_ & _ & P3 & P4 & _).
  fold s2 in P3, P4.
  (* second tick: elapsed time above 0 *)
  assert (He3 : spin_elapsed s2 (Fin ts1) = Fin ((ts1 - ts0) / 1000)).
  { unfold spin_elapsed, spin_anchor. now rewrite Hstart2. }
  assert (Hgt : leb (spin_elapsed s2 (Fin ts1)) (_spinT s2) = false).
  { rewrite He3, P3, HT. apply leb_Fin_false.
    apply Qlt_shift_div_l; lra. }
  destruct (advance_spin_arrived s2 (Fin ts1) Hmode2 Hgt) as (Ho3 & Hm3 & _).
  repeat split; auto.
  - unfold s3. now rewrite tick_offset, Ho3, P4.
  - unfold s3. now rewrite tick_mode.
Qed.

End ZeroDistance.

(** [spin(0, {rotations: 0})] on the five-item reel, ticks at 1000 and
    1016 milliseconds. *)
Lemma C10_zero_distance_spin_witness :
  let s1 := R10.spin Demo.browser (Some (of_Z 0))
              {| rotations := Some (Fin 0) |} Demo.reel in
  let s2 := fst (R10._tick Demo.browser s1 (Fin 1000)) in
  let s3 := fst (R10._tick Demo.browser s2 (Fin 1016)) in
  R10._accel s1 = Infinity /\ R10._spinT s1 = Fin 0
  /\ R10._offset s2 = NaN /\ R10._offset s3 ≈ Fin 0.
Proof.
  intros s1 s2 s3.
  destruct (C10_zero_distance_spin Demo.browser Demo.reel
              {| rotations := Some (Fin 0) |} 0 1500
              ((100 + 20) * (125 # 100)) 1000 1016)
    as (_ & _ & H1 & H2 & H3 & _ & H4 & _);
    try reflexivity; try discriminate; auto.
Defined.

(* ================================================================== *)
(** * Configuration that the constructor and [spin] accept *)
(* ================================================================== *)

Section Configuration.

Import R10.
Local Open Scope Q_scope.

Lemma add_NaN_r (x : num) : add x NaN = NaN.
Proof. now destruct x. Qed.

Lemma div_NaN_r (x : num) : div x NaN = NaN.
Proof. now destruct x. Qed.

Lemma leb_NaN_r (x : num) : leb x NaN = false.
Proof. destruct x as [q|[|]|]; reflexivity. Qed.

Lemma or_num_truthy (o : option num) (d : num) :
  truthy d = true -> truthy (or_num o d) = true.
Proof.
  intros Hd. destruct o as [x|]; simpl; [| exact Hd].
  destruct (truthy x) eqn:E; [exact E | exact Hd].
Qed.

Lemma constructor_speed (b : Browser) (l : list string) (opts : Options) :
  speed (fst (constructor b l opts)) = or_num (opt_speed opts) (Fin 1500).
Proof. reflexivity. Qed.

Lemma constructor_items (b : Browser) (l : list string) (opts : Options) :
  items (fst (constructor b l opts)) = l.
Proof. reflexivity. Qed.

(** With no item, [spin] with an index computes NaN throughout and the
    next tick stores it in the offset, whatever the index, the options
    and the timestamp. *)
Lemma empty_reel_spin_index (b : Browser) (s : Reeler) (o : SpinOpts)
  (t ts : num) :
  items s = [] ->
  let s1 := spin b (Some t) o s in
  _targetIdx s1 = NaN /\ _spinDist s1 = NaN /\ _spinT s1 = NaN
  /\ _offset (fst (_tick b s1 ts)) = NaN
  /\ _mode (fst (_tick b s1 ts)) = pause.
Proof.
  intros Hi s1.
  assert (Hk : _targetIdx s1 = NaN).
  { unfold s1. rewrite spin_targetIdx_given, Hi.
    destruct t as [q|p|]; reflexivity. }
  assert (HD : _spinDist s1 = NaN).
  { assert (E : _spinDist s1
                = (nullish (rotations o) (Fin 6)
                   * (of_nat (List.length (items s)) * _lineHeight s)
                   + _targetIdx s1 * _lineHeight s)%js) by reflexivity.
    rewrite E, Hk. cbn [mul]. apply add_NaN_r. }
  assert (Ha : _accel s1 = NaN).
  { assert (E : _accel s1 = ((speed s * speed s) / (Fin 2 * _spinDist s1))%js)
      by reflexivity.
    rewrite E, HD. cbn [mul]. apply div_NaN_r. }
  assert (HT : _spinT s1 = NaN).
  { assert (E : _spinT s1 = (speed s / _accel s1)%js) by reflexivity.
    rewrite E, Ha. apply div_NaN_r. }
  assert (Hm : _mode s1 = spin_mode) by reflexivity.
  assert (Hgt : leb (spin_elapsed s1 ts) (_spinT s1) = false).
  { rewrite HT. apply leb_NaN_r. }
  destruct (advance_spin_arrived s1 ts Hm Hgt) as (Ho & Hm2 & _).
  rewrite tick_offset, tick_mode, Ho, HD. auto.
Qed.

(** With no item, [spin] without an index draws the target
    [Math.floor(Math.random() * 0)], which is 0: the distance is 0, the
    deceleration divides by it, and the next tick stores NaN in the
    offset. *)
Lemma empty_reel_spin_random (b : Browser) (s : Reeler) (o : SpinOpts)
  (u v lh r ts : Q) :
  items s = [] ->
  Math_random b = Fin u ->
  speed s = Fin v -> ~ v == 0 ->
  _lineHeight s = Fin lh ->
  nullish (rotations o) (Fin 6) = Fin r ->
  let s1 := spin b None o s in
  _targetIdx s1 ≈ Fin 0 /\ _spinDist s1 ≈ Fin 0
  /\ _accel s1 = Infinity /\ _spinT s1 = Fin 0
  /\ _offset (fst (_tick b s1 (Fin ts))) = NaN
  /\ _mode (fst (_tick b s1 (Fin ts))) = spin_mode.
Proof.
  intros Hi Hu Hv Hv0 Hl Hr s1.
  assert (Hk : _targetIdx s1 ≈ Fin 0).
  { assert (E : _targetIdx s1
                = Math_floor (Math_random b * of_nat (List.length (items s)))%js)
      by reflexivity.
    rewrite E, Hu, Hi. cbn [List.length of_nat mul Math_floor Z.of_nat].
    assert (E0 : u * inject_Z 0 == 0) by ring.
    apply Fin_Proper. rewrite (Qfloor_comp _ _ E0). reflexivity. }
  assert (HD : _spinDist s1 ≈ Fin 0).
  { assert (E : _spinDist s1
                = (nullish (rotations o) (Fin 6)
                   * (of_nat (List.length (items s)) * _lineHeight s)
                   + _targetIdx s1 * _lineHeight s)%js) by reflexivity.
    rewrite E, Hr, Hl, Hk, Hi. apply Fin_Proper.
    cbn [List.length Z.of_nat]. ring. }
  assert (Ha : _accel s1 = Infinity).
  { assert (E : _accel s1 = ((speed s * speed s) / (Fin 2 * _spinDist s1))%js)
      by reflexivity.
    apply same_Inf_inv. rewrite E, Hv, HD. cbn [mul].
    rewrite div_by_zero; [reflexivity | nra | ring]. }
  assert (HT : _spinT s1 = Fin 0).
  { assert (E : _spinT s1 = (speed s / _accel s1)%js) by reflexivity.
    rewrite E, Hv, Ha. reflexivity. }
  assert (Hm : _mode s1 = spin_mode) by reflexivity.
  assert (Hs : _spinStart s1 = None) by reflexivity.
  assert (Hsp : speed s1 = Fin v) by exact Hv.
  assert (He : spin_elapsed s1 (Fin ts) = Fin ((ts - ts) / 1000)).
  { unfold spin_elapsed, spin_anchor. now rewrite Hs. }
  assert (Hle : leb (spin_elapsed s1 (Fin ts)) (_spinT s1) = true).
  { rewrite He, HT. apply leb_Fin.
    assert (E0 : (ts - ts) / 1000 == 0) by field. rewrite E0. apply Qle_refl. }
  destruct (advance_spin_running s1 (Fin ts) Hm Hle) as (Ho2 & Hm2 & _).
  split; [exact Hk |]. split; [exact HD |].
  split; [exact Ha |]. split; [exact HT |].
  split.
  - rewrite tick_offset, Ho2, He, Ha, Hsp.
    change (Fin (1#2) * Infinity)%js with Infinity.
    rewrite Infinity_times_zero by field. reflexivity.
  - now rewrite tick_mode.
Qed.

(** With a negative speed the computed duration is negative, and the
    first spin tick already stores the distance. *)
Lemma backward_speed_spin
  (b : Browser) (s : Reeler) (o : SpinOpts) (z : Z) (r v lh ts0 : Q) :
  speed s = Fin v -> v < 0 ->
  _lineHeight s = Fin lh ->
  nullish (rotations o) (Fin 6) = Fin r ->
  items s <> [] ->
  let n := Z.of_nat (List.length (items s)) in
  let D := r * (inject_Z n * lh) + inject_Z (z mod n) * lh in
  0 < D ->
  let s1 := spin b (Some (of_Z z)) o s in
  let s2 := fst (_tick b s1 (Fin ts0)) in
  _offset s2 ≈ Fin D /\ _mode s2 = pause.
Proof.
  intros Hv Hneg Hl Hr Hi n D HD s1 s2.
  pose proof (spin_spinDist b s o z r lh Hl Hr Hi) as HDist.
  pose proof (spin_accel b s o z r v lh Hv Hl Hr Hi HD) as Ha.
  change (_spinDist s1 ≈ Fin D) in HDist.
  change (_accel s1 ≈ Fin (v * v / (2 * D))) in Ha.
  assert (Hapos : 0 < v * v / (2 * D)).
  { apply Qlt_shift_div_l; [lra | nra]. }
  assert (HT : _spinT s1 ≈ Fin (v / (v * v / (2 * D)))).
  { assert (E : _spinT s1 = (speed s / _accel s1)%js) by reflexivity.
    rewrite E, Hv, Ha. now rewrite div_pos. }
  assert (Hm : _mode s1 = spin_mode) by reflexivity.
  assert (Hs : _spinStart s1 = None) by reflexivity.
  assert (He : spin_elapsed s1 (Fin ts0) ≈ Fin 0).
  { unfold spin_elapsed, spin_anchor. rewrite Hs, elapsed_Fin.
    apply Fin_Proper. field. }
  destruct (tick_spin_arrived b s1 (Fin ts0) 0 (v / (v * v / (2 * D))) Hm He HT)
    as (Ho & Hm2).
  - apply Qlt_shift_div_r; [exact Hapos | lra].
  - fold s2 in Ho, Hm2. rewrite Ho. auto.
Qed.

(** C5, as the code has it: neither the constructor nor [spin] checks its
    configuration.  (1) The constructor keeps any item list, the empty one
    included, and stores a truthy speed: an option of 0, or no option,
    gives the default 1500, and a negative speed is kept as given.
    (2) On an instance with no item, [spin] with an index resolves the
    target to NaN and the next tick stores NaN in the offset.  (3) On an
    instance with no item, [spin] without an index resolves the target to
    0 and computes the distance 0; for a finite speed other than 0 and a
    finite line height and number of rotations, the next tick stores NaN
    in the offset.  (4) With a negative speed and a positive distance, the
    first spin tick stores the distance and the spin is over. *)
Theorem C5_no_validation :
  (forall b l opts,
      let s0 := fst (constructor b l opts) in
      items s0 = l
      /\ truthy (speed s0) = true
      /\ (opt_speed opts = Some (Fin 0) -> speed s0 = Fin 1500)
      /\ (opt_speed opts = None -> speed s0 = Fin 1500)
      /\ (forall v, opt_speed opts = Some (Fin v) -> v < 0 ->
                    speed s0 = Fin v))
  /\ (forall b s o t ts,
         items s = [] ->
         let s1 := spin b (Some t) o s in
         _targetIdx s1 = NaN
         /\ _offset (fst (_tick b s1 ts)) = NaN)
  /\ (forall b s o u v lh r ts,
         items s = [] ->
         Math_random b = Fin u ->
         speed s = Fin v -> ~ v == 0 ->
         _lineHeight s = Fin lh ->
         nullish (rotations o) (Fin 6) = Fin r ->
         let s1 := spin b None o s in
         _targetIdx s1 ≈ Fin 0
         /\ _spinDist s1 ≈ Fin 0
         /\ _offset (fst (_tick b s1 (Fin ts))) = NaN)
  /\ (forall b s o z r v lh ts0,
         speed s = Fin v -> v < 0 ->
         _lineHeight s = Fin lh ->
         nullish (rotations o) (Fin 6) = Fin r ->
         items s <> [] ->
         let n := Z.of_nat (List.length (items s)) in
         let D := r * (inject_Z n * lh) + inject_Z (z mod n) * lh in
         0 < D ->
         let s2 := fst (_tick b (spin b (Some (of_Z z)) o s) (Fin ts0)) in
         _offset s2 ≈ Fin D /\ _mode s2 = pause).
Proof.
  split; [| split; [| split]].
  - intros b l opts s0. unfold s0. rewrite constructor_speed, constructor_items.
    split; [reflexivity |].
    split; [now apply or_num_truthy |].
    split; [now intros -> |].
    split; [now intros -> |].
    intros v -> Hv. simpl.
    destruct (Qeq_bool v 0) eqn:E; [| reflexivity].
    apply Qeq_bool_eq in E. lra.
  - intros b s o t ts Hi s1.
    destruct (empty_reel_spin_index b s o t ts Hi) as (H1 & _ & _ & H2 & _).
    split; assumption.
  - intros b s o u v lh r ts Hi Hu Hv Hv0 Hl Hr s1.
    destruct (empty_reel_spin_random b s o u v lh r ts Hi Hu Hv Hv0 Hl Hr)
      as (H1 & H2 & _ & _ & H3 & _).
    repeat split; assumption.
  - intros. now apply backward_speed_spin with (r := r) (v := v) (lh := lh).
Qed.

End Configuration.

(** A reel with no item is constructed, spun and ticked: its offset is
    NaN, in a state that still schedules frames. *)
Lemma C5_counterexample :
  ~ (forall (b : Browser) (l : list string) (opts : Options)
            (t : option num) (o : SpinOpts) (ts : num),
        let s0 := fst (R10.constructor b l opts) in
        l = [] \/ (R10.speed s0 <=? Fin 0)%js = true ->
        is_finite
          (R10._offset (fst (R10._tick b (R10.spin b t o s0) ts))) = true).
Proof.
  intros H.
  specialize (H Demo.browser [] no_options (Some (Fin 0)) no_spin_opts
                (Fin 1000) (or_introl eq_refl)).
  vm_compute in H. discriminate.
Qed.

(** The parts at concrete configurations: the speed option 0 gives 1500;
    the reel constructed with no item is spun and ticked at 1000
    milliseconds, with the index 0 and without an index. *)
Lemma C5_no_validation_witness :
  let empty := fst (R10.constructor Demo.browser [] no_options) in
  R10.speed (fst (R10.constructor Demo.browser Demo.letters
       {| opt_font := None; opt_fontWeight := None; opt_colors := None;
          opt_bg := None; opt_speed := Some (Fin 0);
          opt_fadeOutAlpha := None; opt_zoomScale := None;
          opt_lineSpacing := None; opt_highlightDelay := None;
          opt_highlightAnimDuration := None; opt_fadeGradientColor := None;
          opt_fadeGradientAlpha := None; opt_fadeGradientPower := None |}))
  = Fin 1500
  /\ R10.items empty = []
  /\ R10._offset
       (fst (R10._tick Demo.browser
               (R10.spin Demo.browser (Some (Fin 0)) no_spin_opts empty)
               (Fin 1000)))
     = NaN
  /\ R10._targetIdx (R10.spin Demo.browser None no_spin_opts empty) ≈ Fin 0
  /\ R10._offset
       (fst (R10._tick Demo.browser
               (R10.spin Demo.browser None no_spin_opts empty)
               (Fin 1000)))
     = NaN.
Proof.
  intros empty.
  destruct C5_no_validation as (H1 & H2 & H3 & _).
  split; [| split; [| split]].
  - match goal with |- R10.speed (fst (R10.constructor _ _ ?opts)) = _ =>
      destruct (H1 Demo.browser Demo.letters opts) as (_ & _ & K & _)
    end.
    apply K. reflexivity.
  - exact (proj1 (H1 Demo.browser [] no_options)).
  - apply (H2 Demo.browser empty no_spin_opts (Fin 0) (Fin 1000)). reflexivity.
  - destruct (H3 Demo.browser empty no_spin_opts (1#2) 1500
                ((100 + 20) * (125 # 100)) 6 1000) as (K1 & _ & K3);
      try reflexivity; [vm_compute; discriminate |].
    split; assumption.
Defined.

(* ================================================================== *)
(** * [stopLoop] and [startLoop] *)
(* ================================================================== *)

Section StopStart.

Import R10.
Local Open Scope Q_scope.

Variable b : Browser.

(** A tick in idle mode stores its timestamp, draws, and requests nothing. *)
Lemma tick_idle (s : Reeler) (ts : num) :
  _mode s = idle ->
  exists frame,
    _tick b s ts = (set_prevTS (Some ts) s, [Draw frame]).
Proof.
  intros Hm. unfold _tick.
  assert (Ha : set_prevTS (Some ts) (advance s ts) = set_prevTS (Some ts) s).
  { unfold advance. destruct (_prevTS s); reel_simpl; rewrite Hm; reflexivity. }
  assert (Hmode : _mode (advance s ts) = idle).
  { unfold advance. destruct (_prevTS s); reel_simpl; rewrite Hm; exact Hm. }
  cbv zeta. reel_simpl. rewrite Hmode. reel_simpl. rewrite Ha.
  eexists. reflexivity.
Qed.

Lemma run_idle (tss : list num) : forall (s : Reeler),
  _mode s = idle ->
  fst (run (_tick b) s tss)
  = match tss with
    | [] => s
    | _ => set_prevTS (Some (last tss NaN)) s
    end
  /\ forall e, In e (snd (run (_tick b) s tss)) -> e <> RequestAnimationFrame.
Proof.
  induction tss as [|ts rest IH]; intros s Hm.
  - simpl. split; [reflexivity | tauto].
  - destruct (tick_idle s ts Hm) as (frame & Ht).
    assert (Hm1 : _mode (set_prevTS (Some ts) s) = idle) by exact Hm.
    destruct (IH _ Hm1) as (Hs & He).
    simpl run. rewrite Ht.
    destruct (run (_tick b) (set_prevTS (Some ts) s) rest) as [s2 e2] eqn:Er.
    simpl in Hs, He |- *. split.
    + rewrite Hs. destruct rest; reflexivity.
    + intros e [<-|Hin]; [discriminate | now apply He].
Qed.

(** The loop branch of a tick on finite values. *)
Lemma tick_loop (s : Reeler) (t x v : Q) :
  _mode s = loop -> _offset s = Fin x -> speed s = Fin v ->
  let s1 := fst (_tick b s (Fin t)) in
  _mode s1 = loop /\ speed s1 = Fin v /\ _prevTS s1 = Some (Fin t)
  /\ match _prevTS s with
     | None => _offset s1 ≈ Fin x
     | Some (Fin p) => _offset s1 ≈ Fin (x + v * ((t - p) / 1000))
     | Some _ => True
     end.
Proof.
  intros Hm Hx Hv s1. unfold s1.
  rewrite tick_mode, tick_offset, tick_prevTS.
  rewrite (proj1 (tick_params b s (Fin t))).
  unfold advance.
  destruct (_prevTS s) as [[p| |]|] eqn:Hp; reel_simpl;
    rewrite ?Hm, ?Hp; reel_simpl; rewrite ?Hx, ?Hv;
    repeat split; auto; try reflexivity.
  apply Fin_Proper. field.
Qed.

(** The frame handle is never cleared: once a frame was requested,
    [startLoop] requests no other. *)
Lemma handle_kept (s : Reeler) (ts : num) (v : option num) :
  _raf s = true ->
  _raf (stopLoop s) = true
  /\ _raf (fst (_tick b s ts)) = true
  /\ snd (startLoop v s) = [].
Proof.
  intros Hr. split; [exact Hr | split].
  - rewrite tick_state. cbv zeta. destruct (negb _); [reflexivity |].
    reel_simpl.
    unfold advance.
    destruct (_prevTS s), (_mode s); reel_simpl;
      repeat match goal with
             | |- context [match ?x with _ => _ end] => destruct x; reel_simpl
             end; exact Hr.
  - unfold startLoop.
    destruct v as [w|]; [destruct (truthy w) |]; reel_simpl; now rewrite Hr.
Qed.

(** [stopLoop] in any mode sets the mode to idle and touches nothing
    else; the ticks that follow request no frame and leave the offset and
    every other field as they were, except [_prevTS], which each tick sets
    to its timestamp; ticks run by hand after a following [startLoop()]
    advance the offset from the frozen value. *)
Lemma stopLoop_then_ticks
  (s : Reeler) (tss : list num) (x v t1 t2 : Q) :
  _offset s = Fin x -> speed s = Fin v ->
  let s1 := stopLoop s in
  let s2 := fst (run (_tick b) s1 tss) in
  let s3 := fst (startLoop None s2) in
  let s4 := fst (_tick b s3 (Fin t1)) in
  let s5 := fst (_tick b s4 (Fin t2)) in
  s1 = set_mode idle s
  /\ s2 = match tss with
          | [] => s1
          | _ => set_prevTS (Some (last tss NaN)) s1
          end
  /\ (forall e, In e (snd (run (_tick b) s1 tss)) -> e <> RequestAnimationFrame)
  /\ _mode s3 = loop /\ _offset s3 = Fin x
  /\ _offset s4 ≈ Fin x
  /\ _offset s5 ≈ Fin (x + v * ((t2 - t1) / 1000)).
Proof.
  intros Hx Hv s1 s2 s3 s4 s5.
  assert (Hm1 : _mode s1 = idle) by reflexivity.
  destruct (run_idle tss s1 Hm1) as (Hs2 & He).
  fold s2 in Hs2.
  assert (Hx2 : _offset s2 = Fin x /\ speed s2 = Fin v).
  { rewrite Hs2. destruct tss; split; assumption. }
  destruct Hx2 as (Hx2 & Hv2).
  assert (H3 : _mode s3 = loop /\ _offset s3 = Fin x /\ speed s3 = Fin v
               /\ _prevTS s3 = None).
  { unfold s3, startLoop. reel_simpl.
    destruct (_raf s2); reel_simpl; auto. }
  destruct H3 as (Hm3 & Hx3 & Hv3 & Hp3).
  destruct (tick_loop s3 t1 x v Hm3 Hx3 Hv3) as (Hm4 & Hv4 & Hp4 & Ho4).
  fold s4 in Hm4, Hv4, Hp4, Ho4. rewrite Hp3 in Ho4.
  destruct (same_Fin_inv _ _ Ho4) as (x4 & Hx4 & Hq4).
  destruct (tick_loop s4 t2 x4 v Hm4 Hx4 Hv4) as (_ & _ & _ & Ho5).
  fold s5 in Ho5. rewrite Hp4 in Ho5.
  repeat split; auto.
  rewrite Ho5. apply Fin_Proper. now rewrite Hq4.
Qed.

End StopStart.

Section LapsedFrames.

Import R10 Scheduler.
Local Open Scope Q_scope.

Variable b : Browser.

(** With nothing queued, frames run nothing. *)
Lemma frames_nothing_queued (tss : list num) : forall (s : Reeler),
  frames b {| instance := s; queued := 0 |} tss
  = {| instance := s; queued := 0 |}.
Proof. induction tss as [|ts rest IH]; intros s; [reflexivity | apply IH]. Qed.

(** The frame after [stopLoop()] runs the callback that was queued, and
    this one queues no other. *)
Lemma frame_after_stopLoop (p : Page) (ts : num) :
  queued p = 1%nat ->
  frame b (invoke p (b, StopLoop)) ts
  = {| instance := set_prevTS (Some ts) (stopLoop (instance p)); queued := 0 |}.
Proof.
  intros Hq. destruct p as [s q]. simpl in Hq. subst q.
  unfold invoke, frame. cbn [perform instance queued callbacks frame_requests
                             List.length filter Nat.add].
  destruct (tick_idle b (stopLoop s) ts eq_refl) as (fr & Ht).
  rewrite Ht. reflexivity.
Qed.

(** [startLoop] on an instance that holds a frame handle. *)
Lemma startLoop_with_handle (s : Reeler) (v : option num) :
  _raf s = true ->
  snd (startLoop v s) = []
  /\ _mode (fst (startLoop v s)) = loop
  /\ _prevTS (fst (startLoop v s)) = None
  /\ _offset (fst (startLoop v s)) = _offset s
  /\ _raf (fst (startLoop v s)) = true.
Proof.
  intros Hr. unfold startLoop.
  destruct v as [w|]; [destruct (truthy w) |]; reel_simpl; rewrite Hr;
    repeat split; reflexivity || exact Hr.
Qed.

End LapsedFrames.

Section StopStartClaim.

Import R10 Scheduler.
Local Open Scope Q_scope.

(** C8: the frame after [stopLoop()] runs the last queued callback, which
    leaves the offset where it was and queues nothing, while the frame
    handle [_raf] stays set.  On a page in that state, [startLoop] sets
    the mode to loop at the same offset but, finding the handle set,
    requests no frame: nothing is queued, and whatever frames follow, no
    tick runs and the page stays as it is.  On the five-item reel: frames
    at 1000 and 2000 bring the offset to 1500; after [stopLoop()], the
    frame at 2016 and [startLoop()], the frames at 2032, 3000 and 4000
    leave it at 1500, where ticks at these three timestamps would have
    brought it to 4452.  With no frame between [stopLoop()] and
    [startLoop()] the queued callback is still there, and the frames at
    2016 and 3016 bring the offset from 1500 to 3000. *)
Theorem C8_startLoop_after_idle_frame_never_resumes :
  (forall (b : Browser) (p : Page) (ts : num),
     queued p = 1%nat ->
     let p1 := frame b (invoke p (b, StopLoop)) ts in
     _mode (instance p1) = idle
     /\ _offset (instance p1) = _offset (instance p)
     /\ _raf (instance p1) = _raf (instance p)
     /\ queued p1 = 0%nat)
  /\ (forall (b : Browser) (p : Page) (v : option num) (tss : list num),
        _raf (instance p) = true -> queued p = 0%nat ->
        let p1 := invoke p (b, StartLoop v) in
        _mode (instance p1) = loop
        /\ _offset (instance p1) = _offset (instance p)
        /\ queued p1 = 0%nat
        /\ frames b p1 tss = p1)
  /\ (let b := Demo.browser in
      let p1 := frames b (load b Demo.letters no_options) [Fin 1000; Fin 2000] in
      let p2 := frames b (invoke p1 (b, StopLoop)) [Fin 2016] in
      let p3 := invoke p2 (b, StartLoop None) in
      let later := [Fin 2032; Fin 3000; Fin 4000] in
      _mode (instance p1) = loop /\ _offset (instance p1) ≈ Fin 1500
      /\ queued p1 = 1%nat
      /\ _mode (instance p2) = idle /\ _offset (instance p2) ≈ Fin 1500
      /\ _raf (instance p2) = true /\ queued p2 = 0%nat
      /\ _mode (instance p3) = loop /\ queued p3 = 0%nat
      /\ frames b p3 later = p3
      /\ _offset (instance (frames b p3 later)) ≈ Fin 1500
      /\ _offset (fst (run (_tick b) (instance p3) later)) ≈ Fin 4452
      /\ _offset (instance
                    (frames b (invoke (invoke p1 (b, StopLoop))
                                 (b, StartLoop None))
                       [Fin 2016; Fin 3016])) ≈ Fin 3000).
Proof.
  split; [| split].
  - intros b p ts Hq p1. unfold p1. rewrite (frame_after_stopLoop b p ts Hq).
    repeat split; reflexivity.
  - intros b p v tss Hr Hq p1.
    destruct p as [s q]. simpl in Hr, Hq. subst q.
    destruct (startLoop_with_handle s v Hr) as (He & Hm & _ & Ho & _).
    assert (Hp : p1 = {| instance := fst (startLoop v s); queued := 0 |}).
    { unfold p1, invoke. cbn [perform instance queued].
      destruct (startLoop v s) as [s1 e1]. simpl in He. subst e1. reflexivity. }
    rewrite Hp. cbn [instance queued].
    split; [exact Hm |]. split; [exact Ho |]. split; [reflexivity |].
    apply frames_nothing_queued.
  - vm_compute. repeat split; reflexivity.
Qed.

End StopStartClaim.

(** The five-item reel after two frames, [stopLoop()] and one more frame:
    [startLoop()] and three further frames leave the offset at 1500. *)
Lemma C8_startLoop_after_idle_frame_never_resumes_witness :
  let b := Demo.browser in
  let p1 := Scheduler.frames b (Scheduler.load b Demo.letters no_options)
              [Fin 1000; Fin 2000] in
  let p2 := Scheduler.frame b (Scheduler.invoke p1 (b, StopLoop)) (Fin 2016) in
  let p3 := Scheduler.invoke p2 (b, StartLoop None) in
  R10._offset (Scheduler.instance p2) ≈ Fin 1500
  /\ Scheduler.queued p2 = 0%nat
  /\ R10._mode (Scheduler.instance p3) = loop
  /\ Scheduler.frames b p3 [Fin 2032; Fin 3000; Fin 4000] = p3.
Proof.
  intros b p1 p2 p3.
  destruct C8_startLoop_after_idle_frame_never_resumes as (H1 & H2 & _).
  destruct (H1 b p1 (Fin 2016) ltac:(vm_compute; reflexivity))
    as (_ & Ho & Hr & Hq).
  fold p2 in Ho, Hr, Hq.
  assert (Hr2 : R10._raf (Scheduler.instance p2) = true).
  { rewrite Hr. vm_compute. reflexivity. }
  destruct (H2 b p2 None [Fin 2032; Fin 3000; Fin 4000] Hr2 Hq)
    as (Hm & _ & _ & Hf).
  fold p3 in Hm, Hf.
  split; [rewrite Ho; vm_compute; reflexivity |].
  split; [exact Hq |]. split; [exact Hm | exact Hf].
Defined.

(* ================================================================== *)
(** * The highlighted row *)
(* ================================================================== *)

Section Highlight.

Local Open Scope js_scope.

Lemma rows_of_app (l1 l2 : list draw_cmd) :
  rows_of (l1 ++ l2)%list = (rows_of l1 ++ rows_of l2)%list.
Proof.
  induction l1 as [|c l1 IH]; simpl; [reflexivity |].
  destruct c; simpl; now rewrite IH.
Qed.

Lemma rows_of_flat_map (f : nat -> list draw_cmd) (l : list nat) (r : Row) :
  In r (rows_of (flat_map f l)) -> exists i, In i l /\ In r (rows_of (f i)).
Proof.
  induction l as [|i l IH]; simpl; [tauto |].
  rewrite rows_of_app, in_app_iff. intros [H|H].
  - exists i. auto.
  - destruct (IH H) as (j & Hj & Hr). exists j. auto.
Qed.

Lemma rows_of_vignette (s : R10.Reeler) : rows_of (R10.vignette s) = [].
Proof. unfold R10.vignette. now destruct (_ >? _). Qed.

(** Revision 3.8R9: in highlight mode the zoom goes to the rows that are
    centred and on the target, and every other drawn row is faded. *)
Lemma R9_highlight_rows (b : Browser) (s : R10.Reeler) (ts : num) (r : Row) :
  R10._mode s = highlight ->
  In r (rows_of (R9._draw b s ts)) ->
  if andb (centred (R10.canvas_height s) (R10._lineHeight s) r)
          (on_target (R10._targetIdx s) r)
  then row_scale r
       = Fin 1 + (R10.zoomScale s - Fin 1)
                 * _easeOutCubic (R10.zoom_progress b s ts)
       /\ row_alpha r = Fin 1
  else row_scale r = Fin 1 /\ row_alpha r = R10.fadeOutAlpha s.
Proof.
  intros Hm Hin. unfold R9._draw in Hin. cbv zeta in Hin.
  simpl rows_of in Hin. rewrite rows_of_app, rows_of_vignette in Hin.
  simpl in Hin.
  apply rows_of_flat_map in Hin. destruct Hin as (i & _ & Hr).
  unfold R9.draw_row in Hr. cbv zeta in Hr.
  destruct (orb _ _); [contradiction |].
  rewrite Hm in Hr. cbn [Mode_eqb] in Hr.
  unfold centred, on_target.
  match type of Hr with
  | In r (rows_of (let '(_, _) := if ?c then _ else _ in _)) =>
      destruct c eqn:Ec
  end;
    cbn [rows_of In] in Hr; destruct Hr as [<-|[]];
    cbn [row_y row_idx row_scale row_alpha]; rewrite Ec; auto.
Qed.

(** Revision 3.8R10: the zoom goes to every centred row. *)
Lemma R10_highlight_rows (b : Browser) (s : R10.Reeler) (ts om : num)
  (r : Row) :
  R10._mode s = highlight ->
  In r (rows_of (R10._draw b s ts om)) ->
  if centred (R10.canvas_height s) (R10._lineHeight s) r
  then row_scale r
       = Fin 1 + (R10.zoomScale s - Fin 1)
                 * _easeOutCubic (R10.zoom_progress b s ts)
       /\ row_alpha r = Fin 1
  else row_scale r = Fin 1 /\ row_alpha r = R10.fadeOutAlpha s.
Proof.
  intros Hm Hin. unfold R10._draw in Hin. cbv zeta in Hin.
  simpl rows_of in Hin. rewrite rows_of_app, rows_of_vignette in Hin.
  simpl in Hin.
  apply rows_of_flat_map in Hin. destruct Hin as (i & _ & Hr).
  unfold R10.draw_row in Hr. cbv zeta in Hr.
  destruct (orb _ _); [contradiction |].
  rewrite Hm in Hr. cbn [Mode_eqb] in Hr.
  unfold centred.
  match type of Hr with
  | In r (rows_of (let '(_, _) := if ?c then _ else _ in _)) =>
      destruct c eqn:Ec
  end;
    cbn [rows_of In] in Hr; destruct Hr as [<-|[]];
    cbn [row_y row_idx row_scale row_alpha]; rewrite Ec; auto.
Qed.

(** At full progress the zoom is the configured scale. *)
Lemma full_zoom (zs : Q) (p : num) :
  p ≈ Fin 1 ->
  Fin 1 + (Fin zs - Fin 1) * _easeOutCubic p ≈ Fin zs.
Proof.
  intros Hp. destruct (same_Fin_inv _ _ Hp) as (q & -> & Hq).
  unfold _easeOutCubic. cbn [Math_pow sub add neg mul same].
  rewrite Hq. ring.
Qed.

End Highlight.

(** C1, on revision 3.8R10: [spin(0, {rotations: 0.5})] on a reel of four
    items stops with item 2 ("C") centred while the target index is 0.
    At full highlight progress the frame zooms that centred row to
    [zoomScale] at opacity 1, although its index is not the target; every
    other row is at [fadeOutAlpha]. *)
Theorem C1_R10_zooms_centred_non_target :
  let s1 := R10.spin Demo.browser (Some (Fin 0))
              {| rotations := Some (Fin (1#2)) |} Demo.reel4 in
  let s2 := fst (run (R10._tick Demo.browser) s1
                   [Fin 1000; Fin 1500; Fin 2000]) in
  let frames := frames_of (snd (R10._tick Demo.browser s2 (Fin 3200))) in
  R10._mode s2 = highlight
  /\ R10._targetIdx s2 ≈ Fin 0
  /\ R10.zoom_progress Demo.browser s2 (Fin 3200) ≈ Fin 1
  /\ map (fun f =>
            map (fun r => (row_idx r, row_text r,
                           on_target (R10._targetIdx s2) r,
                           (row_scale r === R10.zoomScale s2)%js,
                           (row_alpha r === Fin 1)%js))
              (zoomed_rows (rows_of f))) frames
     = [[(2%nat, "C", false, true, true)]].
Proof. vm_compute. repeat split; reflexivity. Qed.

(** The same run on revision 3.8R9: no row is zoomed, every row is drawn
    at [fadeOutAlpha]. *)
Lemma R9_fades_centred_non_target :
  let s1 := R9.spin Demo.browser (Some (Fin 0))
              {| rotations := Some (Fin (1#2)) |} Demo.reel4 in
  let s2 := fst (run (R9._tick Demo.browser) s1
                   [Fin 1000; Fin 1500; Fin 2000]) in
  let frames := frames_of (snd (R9._tick Demo.browser s2 (Fin 3200))) in
  R10._mode s2 = highlight
  /\ map (fun f => List.length (rows_of f)) frames = [9%nat]
  /\ map (fun f => zoomed_rows (rows_of f)) frames = [[]]
  /\ map (fun f => rows_not_at_alpha (R10.fadeOutAlpha s2) (rows_of f)) frames
     = [[]].
Proof. vm_compute. repeat split; reflexivity. Qed.

(* ================================================================== *)
(** * The [onStop] hook *)
(* ================================================================== *)

Section OnStop.

Lemma onStop_calls_app (e1 e2 : list effect) :
  onStop_calls (e1 ++ e2)%list = (onStop_calls e1 ++ onStop_calls e2)%list.
Proof.
  induction e1 as [|e e1 IH]; simpl; [reflexivity |].
  destruct e; simpl; now rewrite IH.
Qed.

(** Revision 3.8R10 has no call of the hook: no tick invokes it. *)
Lemma R10_tick_never_calls_onStop (b : Browser) (s : R10.Reeler) (ts : num) :
  onStop_calls (snd (R10._tick b s ts)) = [].
Proof. unfold R10._tick. cbv zeta. now destruct (negb _). Qed.

Lemma R10_run_never_calls_onStop (b : Browser) (tss : list num) :
  forall s : R10.Reeler, onStop_calls (snd (run (R10._tick b) s tss)) = [].
Proof.
  induction tss as [|ts rest IH]; intros s; simpl; [reflexivity |].
  pose proof (R10_tick_never_calls_onStop b s ts) as Ht.
  destruct (R10._tick b s ts) as [s1 e1].
  specialize (IH s1). destruct (run (R10._tick b) s1 rest) as [s2 e2].
  simpl in *. now rewrite onStop_calls_app, Ht, IH.
Qed.

(** Revision 3.3: what [_tick] adds to [advance] is a frame and a frame
    request. *)
Lemma V33_tick_advance (s : V33.Reeler) (ts : num) :
  V33._mode (fst (V33._tick s ts)) = V33._mode (fst (V33.advance s ts))
  /\ onStop_calls (snd (V33._tick s ts))
     = onStop_calls (snd (V33.advance s ts)).
Proof.
  unfold V33._tick. destruct (V33.advance s ts) as [s1 calls].
  cbv zeta. destruct (andb _ _); cbn [fst snd];
    rewrite onStop_calls_app; cbn [onStop_calls];
    rewrite app_nil_r; split; reflexivity.
Qed.

Lemma V33_advance_spin (s : V33.Reeler) (ts : num) :
  V33._mode s = spin_mode ->
  (V33._mode (fst (V33.advance s ts)) = spin_mode
   /\ snd (V33.advance s ts) = [])
  \/ (V33._mode (fst (V33.advance s ts)) = highlight
      /\ snd (V33.advance s ts) = [OnStop (V33._targetIdx s)]).
Proof.
  intros Hm. unfold V33.advance.
  destruct (falsy (V33._startTime s)); cbn [V33._mode V33.set_startTime];
    rewrite Hm.
  all: destruct (falsy (V33._spinStart _));
    match goal with
    | |- context [if ?c then _ else _] => destruct c
    end; [left | right | left | right]; split; first [exact Hm | reflexivity].
Qed.

Lemma V33_advance_other (s : V33.Reeler) (ts : num) :
  V33._mode s <> spin_mode -> snd (V33.advance s ts) = [].
Proof.
  intros Hm. unfold V33.advance.
  destruct (falsy (V33._startTime s)); cbn [V33._mode V33.set_startTime];
    destruct (V33._mode s); try congruence; reflexivity.
Qed.

(** Revision 3.3: the tick that ends a spin invokes the hook once, with
    the target index; no other tick invokes it. *)
Lemma V33_tick_calls_onStop_at_stop (s : V33.Reeler) (ts : num) :
  V33._mode s = spin_mode ->
  V33._mode (fst (V33._tick s ts)) <> spin_mode ->
  V33._mode (fst (V33._tick s ts)) = highlight
  /\ onStop_calls (snd (V33._tick s ts)) = [V33._targetIdx s].
Proof.
  intros Hm. destruct (V33_tick_advance s ts) as (-> & ->).
  destruct (V33_advance_spin s ts Hm) as [(H1 & H2)|(H1 & H2)];
    rewrite H1, H2; [congruence | auto].
Qed.

Lemma V33_tick_no_call_otherwise (s : V33.Reeler) (ts : num) :
  V33._mode (fst (V33._tick s ts)) = V33._mode s ->
  onStop_calls (snd (V33._tick s ts)) = [].
Proof.
  destruct (V33_tick_advance s ts) as (-> & ->).
  destruct (V33._mode s) eqn:Hm; intros Hsame.
  all: try (rewrite V33_advance_other by congruence; reflexivity).
  destruct (V33_advance_spin s ts Hm) as [(H1 & H2)|(H1 & H2)];
    rewrite H2; [reflexivity | congruence].
Qed.

Lemma V33_onStop_default (idx : num) (s : V33.Reeler) :
  V33.onStop idx s = (s, []).
Proof. reflexivity. Qed.

End OnStop.

(** C2, on revision 3.8R10: no run of ticks, from any state, invokes the
    hook; in particular [spin(2)] on the five-item reel, ticked at 1000
    and 7500 milliseconds, is completed (the mode is pause, the offset is
    the distance 4800, the target index is 2) without an invocation.  The
    default hook does nothing. *)
Theorem C2_R10_completed_spin_without_onStop :
  (forall (b : Browser) (s : R10.Reeler) (tss : list num),
      onStop_calls (snd (run (R10._tick b) s tss)) = [])
  /\ (let s1 := R10.spin Demo.browser (Some (Fin 2)) no_spin_opts Demo.reel in
      let r := run (R10._tick Demo.browser) s1 [Fin 1000; Fin 7500] in
      R10._mode s1 = spin_mode
      /\ R10._mode (fst r) = pause
      /\ R10._offset (fst r) ≈ Fin 4800
      /\ R10._targetIdx (fst r) ≈ Fin 2
      /\ onStop_calls (snd r) = [])
  /\ (forall (idx : num) (s : R10.Reeler), R10.onStop idx s = (s, [])).
Proof.
  split; [| split].
  - intros b s tss. apply R10_run_never_calls_onStop.
  - vm_compute. repeat split; reflexivity.
  - reflexivity.
Qed.

(* ================================================================== *)
(** * The vignette *)
(* ================================================================== *)

Section Vignette.

Import R10.

Lemma gradient_fills_rows (f : nat -> list draw_cmd) (l : list nat) :
  (forall i, gradient_fills (f i) = []) ->
  gradient_fills (flat_map f l) = [].
Proof.
  intros Hf. induction l as [|i l IH]; simpl; [reflexivity |].
  unfold gradient_fills in *. now rewrite filter_app, Hf, IH.
Qed.

Lemma gradient_fills_draw_row (s : Reeler) (baseY centerY zoomP : num)
  (i : nat) :
  gradient_fills (draw_row s baseY centerY zoomP i) = [].
Proof.
  unfold draw_row. cbv zeta. destruct (orb _ _); [reflexivity |].
  destruct (Mode_eqb _ _); [destruct (_ <? _)%js |]; reflexivity.
Qed.

(** The gradient fills of a frame are those of the vignette step. *)
Lemma gradient_fills_draw (b : Browser) (s : Reeler) (ts om : num) :
  gradient_fills (_draw b s ts om) = gradient_fills (vignette s).
Proof.
  unfold _draw. cbv zeta. unfold gradient_fills.
  cbn [filter is_gradient_fill]. rewrite filter_app.
  cbn [filter is_gradient_fill].
  fold (gradient_fills (flat_map
          (draw_row s (canvas_height s / Fin 2 - om)%js
             (canvas_height s / Fin 2)%js (zoom_progress b s ts))
          (seq 0 (List.length (items s) * 3)))).
  rewrite gradient_fills_rows by (intros; apply gradient_fills_draw_row).
  apply app_nil_r.
Qed.

(** The guard of [_draw]: a stored alpha of 0 skips both gradients. *)
Lemma vignette_skipped (b : Browser) (s : Reeler) (ts om : num) :
  fadeGradientAlpha s ≈ Fin 0 -> gradient_fills (_draw b s ts om) = [].
Proof.
  intros H. rewrite gradient_fills_draw. unfold vignette, gtb.
  rewrite H. reflexivity.
Qed.


(** C9, on revision 3.8R10: constructed with [fadeGradientAlpha: 0], the
    instance stores the default 0.6 instead of 0 (the option is read with
    [||]), and every frame holds the two gradient fills. *)
Theorem C9_zero_alpha_draws_vignette
  (b : Browser) (l : list string) (opts : Options) (ts om : num) :
  opt_fadeGradientAlpha opts = Some (Fin 0) ->
  let s := fst (constructor b l opts) in
  fadeGradientAlpha s = Fin (6#10)
  /\ List.length (gradient_fills (_draw b s ts om)) = 2%nat.
Proof.
  intros H s.
  assert (Ha : fadeGradientAlpha s = Fin (6#10)).
  { change (or_num (opt_fadeGradientAlpha opts) (Fin (6#10)) = Fin (6#10)).
    now rewrite H. }
  split; [exact Ha |].
  rewrite gradient_fills_draw. unfold vignette. rewrite Ha. reflexivity.
Qed.

End Vignette.

(** [new Reeler(canvas, items, { fadeGradientAlpha: 0 })] and its first
    frame. *)
Lemma C9_zero_alpha_draws_vignette_witness :
  let s := fst (R10.constructor Demo.browser Demo.letters Demo.no_vignette) in
  R10.fadeGradientAlpha s = Fin (6#10)
  /\ List.length
       (gradient_fills (R10._draw Demo.browser s (Fin 1000) (Fin 0))) = 2%nat.
Proof.
  exact (C9_zero_alpha_draws_vignette Demo.browser Demo.letters
           Demo.no_vignette (Fin 1000) (Fin 0) eq_refl).
Defined.

(* ================================================================== *)
(** * Wrapping an offset into one cycle *)
(* ================================================================== *)

Section Wrap.

Local Open Scope Q_scope.

(** Truncation leaves a fraction of the sign of the number. *)
Lemma Qtrunc_fraction (q : Q) :
  exists f : Q,
    q == inject_Z (Qtrunc q) + f
    /\ -1 < f /\ f < 1
    /\ (0 <= q -> 0 <= f) /\ (q <= 0 -> f <= 0).
Proof.
  destruct q as [n d]. unfold Qtrunc. cbn [Qnum Qden].
  pose proof (Z.quot_rem' n (Zpos d)) as Hqr.
  pose proof (Z.rem_bound_abs n (Zpos d) ltac:(lia)) as Hb.
  exists (Z.rem n (Zpos d) # d).
  split; [| split; [| split; [| split]]].
  - unfold Qeq, Qplus, inject_Z. cbn [Qnum Qden]. nia.
  - unfold Qlt. cbn [Qnum Qden]. lia.
  - unfold Qlt. cbn [Qnum Qden]. lia.
  - unfold Qle. cbn [Qnum Qden]. intros Hn.
    assert (0 <= n)%Z by lia.
    pose proof (Z.rem_nonneg n (Zpos d) ltac:(lia) ltac:(lia)). lia.
  - unfold Qle. cbn [Qnum Qden]. intros Hn.
    assert (n <= 0)%Z by lia.
    pose proof (Z.rem_nonpos n (Zpos d) ltac:(lia) ltac:(lia)). lia.
Qed.

Lemma rem_Fin_pos (a c : Q) :
  0 < c -> rem (Fin a) (Fin c) = Fin (a - c * inject_Z (Qtrunc (a / c))).
Proof. intros H. unfold rem. now rewrite (sgn_pos c H). Qed.

(** [((a % c) + c) % c] for a positive [c]: the representative of [a] in
    [[0, c)]. *)
Lemma wrap_Fin (a c : Q) :
  0 < c ->
  exists m : Q,
    rem (add (rem (Fin a) (Fin c)) (Fin c)) (Fin c) = Fin m
    /\ 0 <= m /\ m < c
    /\ exists k : Z, a == m + inject_Z k * c.
Proof.
  intros Hc.
  rewrite (rem_Fin_pos a c Hc). cbn [add].
  rewrite (rem_Fin_pos _ c Hc).
  set (t := Qtrunc (a / c)).
  set (m1 := a - c * inject_Z t).
  set (t' := Qtrunc ((m1 + c) / c)).
  destruct (Qtrunc_fraction (a / c)) as (f & Ef & Hf1 & Hf2 & _).
  fold t in Ef.
  assert (Ea : a == c * (inject_Z t + f)).
  { rewrite <- Ef. field. lra. }
  assert (Em1 : m1 == c * f) by (unfold m1; rewrite Ea; ring).
  assert (Hq : (m1 + c) / c == f + 1).
  { rewrite Em1. field. lra. }
  destruct (Qtrunc_fraction ((m1 + c) / c)) as (g & Eg & _ & Hg2 & Hg0 & _).
  fold t' in Eg.
  assert (Hg : 0 <= g) by (apply Hg0; rewrite Hq; lra).
  assert (Em2 : m1 + c - c * inject_Z t' == c * g).
  { assert (E : m1 + c == c * (inject_Z t' + g)).
    { rewrite <- Eg. field. lra. }
    rewrite E. ring. }
  exists (m1 + c - c * inject_Z t').
  split; [reflexivity | split; [| split]].
  - rewrite Em2. apply Qmult_le_0_compat; lra.
  - rewrite Em2. nra.
  - exists (t + t' - 1)%Z.
    unfold Z.sub. rewrite !inject_Z_plus, inject_Z_opp.
    unfold m1. change (inject_Z 1) with 1. ring.
Qed.

(** Two values of [[0, c)] that differ by a multiple of [c] are equal. *)
Lemma representative_unique (m m' c : Q) (k : Z) :
  0 < c -> 0 <= m -> m < c -> 0 <= m' -> m' < c ->
  m == m' + inject_Z k * c -> m == m'.
Proof.
  intros Hc H1 H2 H3 H4 E.
  assert (Hk : k = 0%Z).
  { destruct (Z.lt_trichotomy k 0) as [Hk|[Hk|Hk]]; [| exact Hk |].
    - assert (inject_Z k <= -1).
      { change (-1) with (inject_Z (-1)). rewrite <- Zle_Qle. lia. }
      nra.
    - assert (1 <= inject_Z k).
      { change 1 with (inject_Z 1). rewrite <- Zle_Qle. lia. }
      nra. }
  subst k. rewrite E. change (inject_Z 0) with 0. ring.
Qed.

End Wrap.

(* ================================================================== *)
(** * The frame of a tick *)
(* ================================================================== *)

Section TickFrame.

Import R10.
Local Open Scope Q_scope.

(** Every tick, in idle mode too, draws one frame; it requests the next
    frame unless the mode is idle after the update. *)
Lemma tick_effects (b : Browser) (s : Reeler) (ts : num) :
  snd (_tick b s ts)
  = Draw (Frame.of_tick b s ts)
      :: (if Mode_eqb (_mode (advance s ts)) idle
          then [] else [RequestAnimationFrame]).
Proof.
  unfold _tick, Frame.of_tick, Frame.offsetMod, Frame.cycle. cbv zeta.
  reel_simpl. now destruct (Mode_eqb _ _).
Qed.

Lemma items_nonempty_length (l : list string) :
  l <> [] -> 0 < inject_Z (Z.of_nat (List.length l)).
Proof.
  intros H. destruct l; [congruence |].
  change 0 with (inject_Z 0). rewrite <- Zlt_Qlt. simpl List.length. lia.
Qed.

(** The offset that [_tick] hands to [_draw] lies in [[0, cycle)] and
    differs from the stored offset by a whole number of cycles, for
    negative offsets too. *)
Theorem offsetMod_in_cycle (s : Reeler) (a lh : Q) :
  _offset s = Fin a -> _lineHeight s = Fin lh -> 0 < lh -> items s <> [] ->
  let c := inject_Z (Z.of_nat (List.length (items s))) * lh in
  exists m : Q,
    Frame.offsetMod s = Fin m
    /\ 0 <= m /\ m < c
    /\ exists k : Z, a == m + inject_Z k * c.
Proof.
  intros Ha Hl Hlh Hi c.
  pose proof (items_nonempty_length (items s) Hi) as Hn.
  assert (Hc : 0 < c) by (unfold c; nra).
  unfold Frame.offsetMod, Frame.cycle. rewrite Ha, Hl.
  change (of_nat (List.length (items s)) * Fin lh)%js with (Fin c).
  apply wrap_Fin. exact Hc.
Qed.

End TickFrame.

(** An offset of -100 on the five-item reel wraps to 650. *)
Lemma offsetMod_in_cycle_witness :
  exists m : Q,
    Frame.offsetMod (R10.set_offset (Fin (-100)) Demo.reel) = Fin m
    /\ m == 650.
Proof.
  destruct (offsetMod_in_cycle (R10.set_offset (Fin (-100)) Demo.reel)
              (-100) ((100 + 20) * (125 # 100)) eq_refl eq_refl)
    as (m & Hm & _ & _ & _).
  - reflexivity.
  - discriminate.
  - exists m. split; [exact Hm |].
    vm_compute in Hm. injection Hm as <-. reflexivity.
Defined.

(* ================================================================== *)
(** * The rows of a frame (revision 3.8R10) *)
(* ================================================================== *)

Section Rows.

Import R10.
Local Open Scope Q_scope.

Variables (b : Browser) (s : Reeler) (ts om : num).

(** A drawn row comes from one iteration of the row loop. *)
Lemma drawn_row_iteration (r : Row) :
  In r (rows_of (_draw b s ts om)) ->
  exists i : nat,
    (i < List.length (items s) * 3)%nat
    /\ draw_row s (canvas_height s / Fin 2 - om)%js (canvas_height s / Fin 2)%js
         (zoom_progress b s ts) i = [FillText r].
Proof.
  intros Hin. unfold _draw in Hin. cbv zeta in Hin.
  simpl rows_of in Hin. rewrite rows_of_app, rows_of_vignette in Hin.
  simpl in Hin.
  apply rows_of_flat_map in Hin. destruct Hin as (i & Hi & Hr).
  apply in_seq in Hi. exists i. split; [lia |].
  unfold draw_row in *. cbv zeta in *.
  destruct (orb _ _); [contradiction |].
  destruct (if Mode_eqb (_mode s) highlight then _ else _) as [alpha scale].
  cbn [rows_of In] in Hr. destruct Hr as [<-|[]]. reflexivity.
Qed.

Lemma draw_row_fields (baseY centerY zoomP : num) (i : nat) (r : Row) :
  draw_row s baseY centerY zoomP i = [FillText r] ->
  row_i r = i
  /\ row_idx r = Nat.modulo i (List.length (items s))
  /\ row_x r = (canvas_width s / Fin 2)%js
  /\ row_y r = (baseY + of_nat i * _lineHeight s
                - of_nat (List.length (items s)) * _lineHeight s)%js
  /\ row_text r = nth (row_idx r) (items s) EmptyString
  /\ row_fillStyle r
     = nth_error (colors s) (Nat.modulo (row_idx r) (List.length (colors s)))
  /\ (row_y r <? neg (_lineHeight s))%js = false
  /\ (row_y r >? canvas_height s + _lineHeight s)%js = false.
Proof.
  unfold draw_row. cbv zeta.
  destruct (orb _ _) eqn:Ecull; [discriminate |].
  apply orb_false_elim in Ecull. destruct Ecull as (E1 & E2).
  destruct (if Mode_eqb (_mode s) highlight then _ else _) as [alpha scale].
  intros H. injection H as <-.
  cbn [row_i row_idx row_x row_y row_text row_fillStyle]. auto 10.
Qed.

(** Every drawn row shows the item of its cyclic index in the palette
    colour of that index, and lies within one line height of the surface;
    a frame has at most three rows per item. *)
Theorem drawn_rows (r : Row) :
  In r (rows_of (_draw b s ts om)) ->
  let n := List.length (items s) in
  (row_i r < n * 3)%nat
  /\ row_idx r = Nat.modulo (row_i r) n
  /\ (row_idx r < n)%nat
  /\ nth_error (items s) (row_idx r) = Some (row_text r)
  /\ row_fillStyle r
     = nth_error (colors s) (Nat.modulo (row_idx r) (List.length (colors s)))
  /\ (colors s <> [] -> exists c, row_fillStyle r = Some c /\ In c (colors s))
  /\ (row_y r <? neg (_lineHeight s))%js = false
  /\ (row_y r >? canvas_height s + _lineHeight s)%js = false.
Proof.
  intros Hin n.
  destruct (drawn_row_iteration r Hin) as (i & Hi & Hr).
  destruct (draw_row_fields _ _ _ _ _ Hr)
    as (Ei & Eidx & _ & _ & Etext & Efill & Ey1 & Ey2).
  fold n in Hi, Eidx.
  assert (Hn : (n <> 0)%nat) by lia.
  assert (Hidx : (row_idx r < n)%nat).
  { rewrite Eidx. apply Nat.mod_upper_bound. exact Hn. }
  rewrite Ei. repeat split; auto.
  - rewrite Etext. apply nth_error_nth'. exact Hidx.
  - intros Hc.
    assert (Hlen : (List.length (colors s) <> 0)%nat).
    { destruct (colors s); [congruence | discriminate]. }
    pose proof (Nat.mod_upper_bound (row_idx r) _ Hlen) as Hlt.
    destruct (nth_error (colors s)
                (Nat.modulo (row_idx r) (List.length (colors s)))) as [c|] eqn:E.
    + exists c. split; [exact Efill |]. eapply nth_error_In; eauto.
    + apply nth_error_None in E. lia.
Qed.

Lemma rows_of_draw_row_length (baseY centerY zoomP : num) (i : nat) :
  (List.length (rows_of (draw_row s baseY centerY zoomP i)) <= 1)%nat.
Proof.
  unfold draw_row. cbv zeta. destruct (orb _ _); [simpl; lia |].
  destruct (if Mode_eqb (_mode s) highlight then _ else _). simpl. lia.
Qed.

Lemma rows_of_flat_map_length (f : nat -> list draw_cmd) (l : list nat) :
  (forall i, (List.length (rows_of (f i)) <= 1)%nat) ->
  (List.length (rows_of (flat_map f l)) <= List.length l)%nat.
Proof.
  intros Hf. induction l as [|i l IH]; simpl; [lia |].
  rewrite rows_of_app, length_app. specialize (Hf i). lia.
Qed.

Theorem frame_row_count :
  (List.length (rows_of (_draw b s ts om)) <= List.length (items s) * 3)%nat.
Proof.
  unfold _draw. cbv zeta. simpl rows_of.
  rewrite rows_of_app, rows_of_vignette. simpl List.app. simpl rows_of.
  etransitivity.
  - apply rows_of_flat_map_length. intros i. apply rows_of_draw_row_length.
  - now rewrite length_seq.
Qed.

(** Outside highlight mode every row is drawn at scale 1 and opacity 1. *)
Theorem plain_rows (r : Row) :
  _mode s <> highlight ->
  In r (rows_of (_draw b s ts om)) ->
  row_scale r = Fin 1 /\ row_alpha r = Fin 1.
Proof.
  intros Hm Hin.
  destruct (drawn_row_iteration r Hin) as (i & _ & Hr).
  unfold draw_row in Hr. cbv zeta in Hr.
  destruct (orb _ _); [discriminate |].
  destruct (Mode_eqb (_mode s) highlight) eqn:E.
  - destruct (_mode s); simpl in E; congruence.
  - injection Hr as <-. auto.
Qed.

End Rows.

(** The first row of the frame of the five-item reel at rest. *)
Lemma drawn_rows_witness :
  exists r,
    In r (rows_of (R10._draw Demo.browser Demo.reel (Fin 1000) (Fin 0)))
    /\ nth_error Demo.letters (row_idx r) = Some (row_text r).
Proof.
  eexists. split.
  - vm_compute. left. reflexivity.
  - apply (drawn_rows Demo.browser Demo.reel (Fin 1000) (Fin 0)).
    vm_compute. left. reflexivity.
Defined.

Lemma plain_rows_witness :
  exists r,
    In r (rows_of (R10._draw Demo.browser Demo.reel (Fin 1000) (Fin 0)))
    /\ row_scale r = Fin 1 /\ row_alpha r = Fin 1.
Proof.
  eexists. split.
  - vm_compute. left. reflexivity.
  - apply (plain_rows Demo.browser Demo.reel (Fin 1000) (Fin 0)).
    + discriminate.
    + vm_compute. left. reflexivity.
Defined.

(* ================================================================== *)
(** * The centred row *)
(* ================================================================== *)

Section Centre.

Import R10.
Local Open Scope Q_scope.

Variables (b : Browser) (s : Reeler) (ts : num).
Variables (h lh m : Q).

Hypothesis Hheight : canvas_height s = Fin h.
Hypothesis Hline : _lineHeight s = Fin lh.

Let n : nat := List.length (items s).

(** The vertical position of the row of iteration [i]. *)
Let y_of (i : nat) : Q :=
  h / 2 + - m + inject_Z (Z.of_nat i) * lh + - (inject_Z (Z.of_nat n) * lh).

Lemma draw_row_y (zoomP : num) (i : nat) (r : Row) :
  draw_row s (canvas_height s / Fin 2 - Fin m)%js (canvas_height s / Fin 2)%js
    zoomP i = [FillText r] ->
  row_i r = i /\ row_y r = Fin (y_of i).
Proof.
  intros Hr. destruct (draw_row_fields s _ _ _ _ _ Hr) as (Ei & _ & _ & Ey & _).
  split; [exact Ei |]. rewrite Ey, Hheight, Hline. reflexivity.
Qed.

Lemma centred_iff (r : Row) (y : Q) :
  row_y r = Fin y ->
  centred (canvas_height s) (_lineHeight s) r = true
  <-> Qabs (y - h / 2) < lh * (1#2).
Proof.
  intros Hy. unfold centred. rewrite Hy, Hheight, Hline.
  change (Math_abs (Fin y - Fin h / Fin 2) <? Fin lh * Fin (1#2))%js
    with (negb (Qle_bool (lh * (1#2)) (Qabs (y - h / 2)))).
  rewrite negb_true_iff, <- not_true_iff_false, Qle_bool_iff.
  split; [apply Qnot_le_lt | apply Qlt_not_le].
Qed.

(** A frame has at most one centred row: two centred rows are the same
    row. *)
Theorem one_centred_row (r1 r2 : Row) :
  In r1 (rows_of (_draw b s ts (Fin m))) ->
  In r2 (rows_of (_draw b s ts (Fin m))) ->
  centred (canvas_height s) (_lineHeight s) r1 = true ->
  centred (canvas_height s) (_lineHeight s) r2 = true ->
  r1 = r2.
Proof.
  intros H1 H2 C1 C2.
  destruct (drawn_row_iteration b s ts (Fin m) r1 H1) as (i1 & _ & D1).
  destruct (drawn_row_iteration b s ts (Fin m) r2 H2) as (i2 & _ & D2).
  destruct (draw_row_y _ _ _ D1) as (_ & Y1).
  destruct (draw_row_y _ _ _ D2) as (_ & Y2).
  apply (centred_iff r1 _ Y1) in C1. apply (centred_iff r2 _ Y2) in C2.
  apply Qabs_Qlt_condition in C1. apply Qabs_Qlt_condition in C2.
  assert (E : i1 = i2).
  { unfold y_of in C1, C2.
    destruct (Nat.lt_trichotomy i1 i2) as [Hlt|[Heq|Hgt]]; [| exact Heq |];
      exfalso.
    - assert (inject_Z (Z.of_nat i1) + 1 <= inject_Z (Z.of_nat i2)).
      { change 1 with (inject_Z 1). rewrite <- inject_Z_plus, <- Zle_Qle. lia. }
      nra.
    - assert (inject_Z (Z.of_nat i2) + 1 <= inject_Z (Z.of_nat i1)).
      { change 1 with (inject_Z 1). rewrite <- inject_Z_plus, <- Zle_Qle. lia. }
      nra. }
  subst i2. rewrite D1 in D2. now injection D2.
Qed.

End Centre.

(** On the five-item reel at offset 0, the row of iteration 5 is centred,
    and it is the only one. *)
Lemma one_centred_row_witness :
  exists r,
    In r (rows_of (R10._draw Demo.browser Demo.reel (Fin 1000) (Fin 0)))
    /\ row_i r = 5%nat
    /\ forall r',
        In r' (rows_of (R10._draw Demo.browser Demo.reel (Fin 1000) (Fin 0))) ->
        centred (R10.canvas_height Demo.reel) (R10._lineHeight Demo.reel) r'
        = true ->
        r' = r.
Proof.
  eexists. split; [vm_compute; do 4 right; left; reflexivity |].
  split; [reflexivity |].
  intros r' Hin Hc.
  apply (one_centred_row Demo.browser Demo.reel (Fin 1000)
           900 ((100 + 20) * (125 # 100)) 0 eq_refl eq_refl r' _ Hin).
  - vm_compute. do 4 right. left. reflexivity.
  - exact Hc.
  - vm_compute. reflexivity.
Defined.

Section TargetRow.

Import R10.
Local Open Scope Q_scope.

Lemma rows_of_flat_map_intro (f : nat -> list draw_cmd) (l : list nat)
  (i : nat) (r : Row) :
  In i l -> In r (rows_of (f i)) -> In r (rows_of (flat_map f l)).
Proof.
  induction l as [|j l IH]; simpl; [tauto |].
  rewrite rows_of_app, in_app_iff. intros [->|Hi] Hr; auto.
Qed.

Lemma draw_row_in_frame (b : Browser) (s : Reeler) (ts om : num) (i : nat)
  (r : Row) :
  (i < List.length (items s) * 3)%nat ->
  draw_row s (canvas_height s / Fin 2 - om)%js (canvas_height s / Fin 2)%js
    (zoom_progress b s ts) i = [FillText r] ->
  In r (rows_of (_draw b s ts om)).
Proof.
  intros Hi Hr. unfold _draw. cbv zeta. simpl rows_of.
  rewrite rows_of_app, rows_of_vignette. simpl List.app. simpl rows_of.
  apply rows_of_flat_map_intro with (i := i).
  - apply in_seq. lia.
  - rewrite Hr. simpl. auto.
Qed.

(** In highlight mode, when the offset is a whole number of cycles plus
    [k] line heights and the target index is [k], the frame that [_tick]
    draws holds the row of item [k] on the centre line, zoomed, and every
    other row faded. *)
Theorem target_row_zoomed
  (b : Browser) (s : Reeler) (ts : num) (h lh a : Q) (R : Z) (k : nat) :
  _mode s = highlight ->
  canvas_height s = Fin h -> 0 <= h ->
  _lineHeight s = Fin lh -> 0 < lh ->
  (k < List.length (items s))%nat ->
  _offset s = Fin a ->
  a == inject_Z R * (inject_Z (Z.of_nat (List.length (items s))) * lh)
       + inject_Z (Z.of_nat k) * lh ->
  _targetIdx s ≈ of_nat k ->
  exists r : Row,
    In r (rows_of (_draw b s ts (Frame.offsetMod s)))
    /\ row_idx r = k
    /\ row_y r ≈ Fin (h / 2)
    /\ on_target (_targetIdx s) r = true
    /\ row_scale r
       = (Fin 1 + (zoomScale s - Fin 1)
                  * _easeOutCubic (zoom_progress b s ts))%js
    /\ row_alpha r = Fin 1
    /\ forall r', In r' (rows_of (_draw b s ts (Frame.offsetMod s))) ->
         r' <> r ->
         row_scale r' = Fin 1 /\ row_alpha r' = fadeOutAlpha s.
Proof.
  intros Hm Hh Hh0 Hl Hlh Hk Ha Ea Ht.
  set (n := List.length (items s)) in *.
  assert (Hi : items s <> []).
  { intros E. unfold n in Hk. rewrite E in Hk. simpl in Hk. lia. }
  destruct (offsetMod_in_cycle s a lh Ha Hl Hlh Hi) as (m & Em & Hm0 & Hm1 & j & Ej).
  fold n in Hm1, Ej.
  set (c := inject_Z (Z.of_nat n) * lh) in *.
  assert (Hn : 0 < inject_Z (Z.of_nat n)) by (apply items_nonempty_length; exact Hi).
  assert (Hkn : inject_Z (Z.of_nat k) + 1 <= inject_Z (Z.of_nat n)).
  { change 1 with (inject_Z 1). rewrite <- inject_Z_plus, <- Zle_Qle. lia. }
  assert (Hk0 : 0 <= inject_Z (Z.of_nat k)).
  { change 0 with (inject_Z 0). rewrite <- Zle_Qle. lia. }
  assert (Emk : m == inject_Z (Z.of_nat k) * lh).
  { apply (representative_unique m (inject_Z (Z.of_nat k) * lh) c (R - j)).
    - unfold c. nra.
    - exact Hm0.
    - exact Hm1.
    - nra.
    - unfold c. nra.
    - unfold Z.sub. rewrite inject_Z_plus, inject_Z_opp.
      rewrite Ea in Ej. lra. }
  rewrite Em.
  (* the row of iteration n + k *)
  set (zp := zoom_progress b s ts).
  set (y0 := h / 2 + - m + inject_Z (Z.of_nat (n + k)) * lh
             + - (inject_Z (Z.of_nat n) * lh)).
  assert (Ey0 : y0 == h / 2).
  { unfold y0. rewrite Nat2Z.inj_add, inject_Z_plus, Emk. ring. }
  assert (Ehalf : h / 2 == h * (1#2)) by field.
  assert (Hy : (canvas_height s / Fin 2 - Fin m
                + of_nat (n + k) * _lineHeight s
                - of_nat (List.length (items s)) * _lineHeight s)%js = Fin y0).
  { rewrite Hh, Hl. reflexivity. }
  assert (Hrow : exists r,
             draw_row s (canvas_height s / Fin 2 - Fin m)%js
               (canvas_height s / Fin 2)%js zp (n + k) = [FillText r]).
  { unfold draw_row. cbv zeta. rewrite Hy, Hl, Hh.
    assert (C1 : (Fin y0 <? neg (Fin lh))%js = false).
    { change (negb (Qle_bool (- lh) y0) = false).
      apply negb_false_iff, Qle_bool_iff. rewrite Ey0, Ehalf. lra. }
    assert (C2 : (Fin y0 >? Fin h + Fin lh)%js = false).
    { change (negb (Qle_bool y0 (h + lh)) = false).
      apply negb_false_iff, Qle_bool_iff. rewrite Ey0, Ehalf. lra. }
    rewrite C1, C2. cbn [orb].
    destruct (if Mode_eqb (_mode s) highlight then _ else _) as [alpha scale].
    eexists. reflexivity. }
  destruct Hrow as (r & Hr).
  assert (Hin : In r (rows_of (_draw b s ts (Fin m)))).
  { apply draw_row_in_frame with (i := (n + k)%nat); [fold n; lia | exact Hr]. }
  destruct (draw_row_fields s _ _ _ _ _ Hr) as (Ei & Eidx & _ & Ey & _).
  assert (Eidx' : row_idx r = k).
  { rewrite Eidx. fold n.
    replace (n + k)%nat with (k + 1 * n)%nat by lia.
    rewrite Nat.Div0.mod_add. apply Nat.mod_small. exact Hk. }
  assert (Yr : row_y r = Fin y0) by (rewrite Ey; exact Hy).
  assert (Cr : centred (canvas_height s) (_lineHeight s) r = true).
  { apply (centred_iff s h lh Hh Hl r y0 Yr).
    apply Qabs_Qlt_condition. rewrite Ey0. lra. }
  pose proof (R10_highlight_rows b s ts (Fin m) r Hm Hin) as Hz.
  rewrite Cr in Hz. destruct Hz as (Hscale & Halpha).
  assert (Hon : on_target (_targetIdx s) r = true).
  { unfold on_target. rewrite Eidx'.
    destruct (_targetIdx s) as [t| |]; simpl in Ht; try contradiction.
    simpl. apply Qeq_bool_iff. now symmetry. }
  exists r.
  split; [exact Hin |]. split; [exact Eidx' |].
  split; [rewrite Yr; apply Fin_Proper; exact Ey0 |].
  split; [exact Hon |]. split; [exact Hscale |]. split; [exact Halpha |].
  intros r' Hin' Hne.
  pose proof (R10_highlight_rows b s ts (Fin m) r' Hm Hin') as Hz'.
  destruct (centred (canvas_height s) (_lineHeight s) r') eqn:Cr'.
  - exfalso. apply Hne.
    exact (one_centred_row b s ts h lh m Hh Hl r' r Hin' Hin Cr' Cr).
  - exact Hz'.
Qed.

End TargetRow.

(* ================================================================== *)
(** * From pause to highlight *)
(* ================================================================== *)

Section Settle.

Import R10.
Local Open Scope Q_scope.

Variable b : Browser.

(** What no tick writes: the configuration and the layout. *)
Lemma advance_config (s : Reeler) (ts : num) :
  canvas_height (advance s ts) = canvas_height s
  /\ canvas_width (advance s ts) = canvas_width s
  /\ highlightDelay (advance s ts) = highlightDelay s
  /\ highlightAnimDuration (advance s ts) = highlightAnimDuration s
  /\ zoomScale (advance s ts) = zoomScale s
  /\ fadeOutAlpha (advance s ts) = fadeOutAlpha s
  /\ colors (advance s ts) = colors s.
Proof.
  unfold advance.
  destruct (_prevTS s), (_mode s); reel_simpl;
    repeat match goal with
           | |- context [match ?x with _ => _ end] => destruct x; reel_simpl
           end; repeat split; reflexivity.
Qed.

Lemma tick_config (s : Reeler) (ts : num) :
  canvas_height (fst (_tick b s ts)) = canvas_height s
  /\ canvas_width (fst (_tick b s ts)) = canvas_width s
  /\ highlightDelay (fst (_tick b s ts)) = highlightDelay s
  /\ highlightAnimDuration (fst (_tick b s ts)) = highlightAnimDuration s
  /\ zoomScale (fst (_tick b s ts)) = zoomScale s
  /\ fadeOutAlpha (fst (_tick b s ts)) = fadeOutAlpha s
  /\ colors (fst (_tick b s ts)) = colors s.
Proof.
  destruct (advance_config s ts) as (H1 & H2 & H3 & H4 & H5 & H6 & H7).
  rewrite <- H1, <- H2, <- H3, <- H4, <- H5, <- H6, <- H7.
  rewrite tick_state. cbv zeta. destruct (negb _); repeat split; reflexivity.
Qed.

Lemma advance_pause (s : Reeler) (t p dl : Q) :
  _mode s = pause -> _pauseStart s = Some (Fin p) -> highlightDelay s = Fin dl ->
  advance s (Fin t)
  = let s0 := match _prevTS s with
              | None => set_prevTS (Some (Fin t)) s
              | Some _ => s
              end in
    if Qle_bool dl (t - p)
    then set_highlightStart (Some (Fin t)) (set_mode highlight s0)
    else s0.
Proof.
  intros Hm Hp Hd. unfold advance.
  destruct (_prevTS s); reel_simpl; rewrite Hm, Hp, Hd; reflexivity.
Qed.

(** A tick in pause mode holds the offset; it enters highlight mode, and
    records its timestamp as the start of the zoom, once [highlightDelay]
    milliseconds have passed since the spin arrived, and not before. *)
Theorem pause_then_highlight (s : Reeler) (t p dl : Q) :
  _mode s = pause -> _pauseStart s = Some (Fin p) -> highlightDelay s = Fin dl ->
  let s1 := fst (_tick b s (Fin t)) in
  _offset s1 = _offset s
  /\ _targetIdx s1 = _targetIdx s
  /\ (dl <= t - p ->
      _mode s1 = highlight /\ _highlightStart s1 = Some (Fin t))
  /\ (t - p < dl ->
      _mode s1 = pause /\ _pauseStart s1 = Some (Fin p)
      /\ _highlightStart s1 = _highlightStart s).
Proof.
  intros Hm Hp Hd s1.
  assert (E : s1 = let s2 := set_prevTS (Some (Fin t)) (advance s (Fin t)) in
                   if negb (Mode_eqb (_mode s2) idle) then set_raf true s2 else s2)
    by apply tick_state.
  rewrite (advance_pause s t p dl Hm Hp Hd) in E. cbv zeta in E.
  destruct (Qle_bool dl (t - p)) eqn:Hle.
  - apply Qle_bool_iff in Hle.
    rewrite E. destruct (_prevTS s); reel_simpl;
      (split; [reflexivity | split; [reflexivity | split;
         [intros _; split; reflexivity | intros; lra]]]).
  - assert (Hlt : t - p < dl).
    { apply Qnot_le_lt. intros H. apply Qle_bool_iff in H. congruence. }
    rewrite E. destruct (_prevTS s); reel_simpl; rewrite Hm; reel_simpl;
      (split; [reflexivity | split; [reflexivity | split;
         [intros; lra | intros _; rewrite Hm, Hp; repeat split; reflexivity]]]).
Qed.

(** Highlight mode is a resting state: the ticks that follow change no
    field but [_prevTS] (and keep the frame handle), and each of them
    requests the next frame. *)
Lemma tick_highlight (s : Reeler) (ts : num) :
  _mode s = highlight ->
  _tick b s ts
  = (set_raf true (set_prevTS (Some ts) s),
     [Draw (Frame.of_tick b s ts); RequestAnimationFrame]).
Proof.
  intros Hm.
  assert (Ha : set_prevTS (Some ts) (advance s ts) = set_prevTS (Some ts) s).
  { unfold advance. destruct (_prevTS s); reel_simpl; rewrite Hm; reflexivity. }
  assert (Hmode : _mode (advance s ts) = highlight).
  { unfold advance. destruct (_prevTS s); reel_simpl; rewrite Hm; exact Hm. }
  rewrite (surjective_pairing (_tick b s ts)).
  rewrite tick_effects, tick_state, Hmode. cbv zeta. rewrite Ha.
  reel_simpl. rewrite Hm. reflexivity.
Qed.

Theorem highlight_rests (tss : list num) : forall (s : Reeler),
  _mode s = highlight ->
  fst (run (_tick b) s tss)
  = match tss with
    | [] => s
    | _ => set_raf true (set_prevTS (Some (last tss NaN)) s)
    end
  /\ frame_requests (snd (run (_tick b) s tss)) = List.length tss.
Proof.
  induction tss as [|ts rest IH]; intros s Hm.
  - simpl. split; reflexivity.
  - simpl run. rewrite (tick_highlight s ts Hm).
    assert (Hm1 : _mode (set_raf true (set_prevTS (Some ts) s)) = highlight)
      by exact Hm.
    destruct (IH _ Hm1) as (Hs & He).
    destruct (run (_tick b) (set_raf true (set_prevTS (Some ts) s)) rest)
      as [s2 e2] eqn:Er.
    simpl in Hs, He |- *. split.
    + rewrite Hs. destruct rest; reflexivity.
    + unfold frame_requests in *. simpl. now rewrite He.
Qed.

End Settle.

(* ================================================================== *)
(** * A whole spin: from [spin] to the highlighted target *)
(* ================================================================== *)

Section WholeSpin.

Import R10.
Local Open Scope Q_scope.

Lemma spin_config (b : Browser) (t : option num) (o : SpinOpts) (s : Reeler) :
  items (spin b t o s) = items s
  /\ _lineHeight (spin b t o s) = _lineHeight s
  /\ canvas_height (spin b t o s) = canvas_height s
  /\ highlightDelay (spin b t o s) = highlightDelay s
  /\ speed (spin b t o s) = speed s
  /\ _offset (spin b t o s) = _offset s.
Proof. destruct t; repeat split; reflexivity. Qed.

Lemma tick_pauseStart (b : Browser) (s : Reeler) (ts : num) :
  _pauseStart (fst (_tick b s ts)) = _pauseStart (advance s ts).
Proof. rewrite tick_state. cbv zeta. now destruct (negb _). Qed.

Lemma advance_highlight (s : Reeler) (ts p : num) :
  _mode s = highlight -> _prevTS s = Some p -> advance s ts = s.
Proof. intros Hm Hp. unfold advance. rewrite Hp, Hm. reflexivity. Qed.

(** A spin by a whole number of rotations to an integer index, on a reel
    with a positive line height: the tick after the computed duration
    arrives at the distance and pauses, the tick [highlightDelay]
    milliseconds later enters highlight mode, and the frame of the next
    tick shows the target item on the centre line, zoomed, with every
    other row faded. *)
Theorem spin_centres_target
  (b : Browser) (s : Reeler) (o : SpinOpts) (z R : Z)
  (v0 lh h dl ts0 ts1 ts2 : Q) (ts3 : num) :
  speed s = Fin v0 ->
  _lineHeight s = Fin lh -> 0 < lh ->
  canvas_height s = Fin h -> 0 <= h ->
  highlightDelay s = Fin dl ->
  nullish (rotations o) (Fin 6) = Fin (inject_Z R) ->
  items s <> [] ->
  let n := Z.of_nat (List.length (items s)) in
  let k := Z.to_nat (z mod n) in
  let D := inject_Z R * (inject_Z n * lh) + inject_Z (z mod n) * lh in
  let T := v0 / (v0 * v0 / (2 * D)) in
  0 < v0 -> 0 < D ->
  T < (ts1 - ts0) / 1000 ->
  dl <= ts2 - ts1 ->
  let s1 := spin b (Some (of_Z z)) o s in
  let s2 := fst (_tick b s1 (Fin ts0)) in
  let s3 := fst (_tick b s2 (Fin ts1)) in
  let s4 := fst (_tick b s3 (Fin ts2)) in
  _mode s3 = pause /\ _offset s3 ≈ Fin D
  /\ _mode s4 = highlight /\ _offset s4 ≈ Fin D
  /\ _highlightStart s4 = Some (Fin ts2)
  /\ exists r : Row,
       In r (rows_of (Frame.of_tick b s4 ts3))
       /\ row_idx r = k
       /\ nth_error (items s) k = Some (row_text r)
       /\ row_y r ≈ Fin (h / 2)
       /\ row_scale r
          = (Fin 1 + (zoomScale s - Fin 1)
                     * _easeOutCubic (zoom_progress b s4 ts3))%js
       /\ row_alpha r = Fin 1
       /\ forall r', In r' (rows_of (Frame.of_tick b s4 ts3)) ->
            r' <> r ->
            row_scale r' = Fin 1 /\ row_alpha r' = fadeOutAlpha s.
Proof.
  intros Hv Hl Hlh Hh Hh0 Hd Hr Hi n k D T Hv0 HD HT Hdl s1 s2 s3 s4.
  destruct (spin_config b (Some (of_Z z)) o s) as (Si & Sl & Sh & Sd & _ & _).
  fold s1 in Si, Sl, Sh, Sd.
  destruct (spin_anchored b s o z (inject_Z R) v0 lh Hv Hl Hr Hi Hv0 HD ts0)
    as (Hm2 & Hs2 & _ & _ & _ & HT2 & HD2).
  change (_mode s2 = spin_mode) in Hm2.
  change (_spinStart s2 = Some (Fin ts0)) in Hs2.
  change (_spinT s2 ≈ Fin T) in HT2.
  change (_spinDist s2 ≈ Fin D) in HD2.
  destruct (tick_params b s1 (Fin ts0)) as (_ & _ & _ & _ & Pk2 & Pl2 & Pi2).
  destruct (tick_config b s1 (Fin ts0)) as (Ph2 & _ & Pd2 & _ & Pz2 & Pf2 & _).
  fold s2 in Pk2, Pl2, Pi2, Ph2, Pd2, Pz2, Pf2.
  (* arrival *)
  assert (He : spin_elapsed s2 (Fin ts1) ≈ Fin ((ts1 - ts0) / 1000)).
  { unfold spin_elapsed, spin_anchor. rewrite Hs2, elapsed_Fin. reflexivity. }
  destruct (tick_spin_arrived b s2 (Fin ts1) _ T Hm2 He HT2 HT) as (Ho3 & Hm3).
  fold s3 in Ho3, Hm3.
  assert (Hp3 : _pauseStart s3 = Some (Fin ts1)).
  { unfold s3. rewrite tick_pauseStart.
    assert (Hgt : leb (spin_elapsed s2 (Fin ts1)) (_spinT s2) = false).
    { rewrite He, HT2. now apply leb_Fin_false. }
    apply (advance_spin_arrived s2 (Fin ts1) Hm2 Hgt). }
  destruct (tick_params b s2 (Fin ts1)) as (_ & _ & _ & _ & Pk3 & Pl3 & Pi3).
  destruct (tick_config b s2 (Fin ts1)) as (Ph3 & _ & Pd3 & _ & Pz3 & Pf3 & _).
  fold s3 in Pk3, Pl3, Pi3, Ph3, Pd3, Pz3, Pf3.
  assert (Ho3' : _offset s3 ≈ Fin D) by (rewrite Ho3; exact HD2).
  (* highlight *)
  assert (Hd3 : highlightDelay s3 = Fin dl) by (rewrite Pd3, Pd2, Sd; exact Hd).
  destruct (pause_then_highlight b s3 ts2 ts1 dl Hm3 Hp3 Hd3)
    as (Ho4 & Hk4 & Hhi & _).
  fold s4 in Ho4, Hk4, Hhi. destruct (Hhi Hdl) as (Hm4 & Hs4).
  destruct (tick_params b s3 (Fin ts2)) as (_ & _ & _ & _ & _ & Pl4 & Pi4).
  destruct (tick_config b s3 (Fin ts2)) as (Ph4 & _ & _ & _ & Pz4 & Pf4 & _).
  fold s4 in Pl4, Pi4, Ph4, Pz4, Pf4.
  assert (Ho4' : _offset s4 ≈ Fin D) by (rewrite Ho4; exact Ho3').
  split; [exact Hm3 |]. split; [exact Ho3' |].
  split; [exact Hm4 |]. split; [exact Ho4' |]. split; [exact Hs4 |].
  (* the frame *)
  assert (Ei4 : items s4 = items s) by (rewrite Pi4, Pi3, Pi2; exact Si).
  assert (El4 : _lineHeight s4 = Fin lh) by (rewrite Pl4, Pl3, Pl2, Sl; exact Hl).
  assert (Eh4 : canvas_height s4 = Fin h) by (rewrite Ph4, Ph3, Ph2, Sh; exact Hh).
  assert (Ez4 : zoomScale s4 = zoomScale s) by (rewrite Pz4, Pz3, Pz2; reflexivity).
  assert (Ef4 : fadeOutAlpha s4 = fadeOutAlpha s)
    by (rewrite Pf4, Pf3, Pf2; reflexivity).
  assert (Hn : (0 < n)%Z).
  { rewrite Zlt_Qlt. exact (items_nonempty_length (items s) Hi). }
  pose proof (Z.mod_pos_bound z n Hn) as Hkb.
  assert (Ek : Z.of_nat k = (z mod n)%Z) by (unfold k; lia).
  assert (Hk : (k < List.length (items s4))%nat).
  { rewrite Ei4. unfold k, n in *. lia. }
  assert (Et4 : _targetIdx s4 ≈ of_nat k).
  { rewrite Hk4, Pk3, Pk2. unfold of_nat. rewrite Ek.
    apply (spin_targetIdx_mod b o s z Hi). }
  destruct (same_Fin_inv _ _ Ho4') as (a & Ea & Eq).
  assert (Hprev : _prevTS s4 = Some (Fin ts2)) by apply tick_prevTS.
  clearbody s4 s3 s2 s1.
  assert (Efr : Frame.of_tick b s4 ts3 = _draw b s4 ts3 (Frame.offsetMod s4)).
  { unfold Frame.of_tick. cbv zeta.
    rewrite (advance_highlight s4 ts3 _ Hm4 Hprev). reflexivity. }
  destruct (target_row_zoomed b s4 ts3 h lh a R k Hm4 Eh4 Hh0 El4 Hlh Hk Ea)
    as (r & Hin & Hidx & Hy & _ & Hsc & Hal & Hoth).
  - rewrite Eq, Ei4, Ek. reflexivity.
  - exact Et4.
  - exists r. rewrite Efr, <- Ez4, <- Ef4.
    split; [exact Hin |]. split; [exact Hidx |].
    split.
    { destruct (drawn_rows b s4 ts3 (Frame.offsetMod s4) r Hin)
        as (_ & _ & _ & Htext & _).
      rewrite Ei4, Hidx in Htext. exact Htext. }
    split; [exact Hy |]. split; [exact Hsc |]. split; [exact Hal | exact Hoth].
Qed.

End WholeSpin.


(* ================================================================== *)
(** * The concrete reel, paused and highlighted *)
(* ================================================================== *)

Lemma reel_facts :
  R10.speed Demo.reel = Fin 1500
  /\ R10._lineHeight Demo.reel = Fin ((100 + 20) * (125 # 100))
  /\ R10.canvas_height Demo.reel = Fin 900
  /\ R10.highlightDelay Demo.reel = Fin 400
  /\ R10.items Demo.reel = Demo.letters
  /\ R10._offset Demo.reel = Fin 0
  /\ R10._mode Demo.reel = loop.
Proof. vm_compute. repeat split; reflexivity. Qed.

Lemma paused_facts :
  R10._mode Demo.paused = pause
  /\ R10._pauseStart Demo.paused = Some (Fin 7500)
  /\ R10.highlightDelay Demo.paused = Fin 400.
Proof. vm_compute. repeat split; reflexivity. Qed.

Lemma highlighted_facts :
  R10._mode Demo.highlighted = highlight
  /\ R10._highlightStart Demo.highlighted = Some (Fin 7900)
  /\ R10.highlightAnimDuration Demo.highlighted = Fin 1200
  /\ R10.zoomScale Demo.highlighted = Fin (18 # 10)
  /\ R10.canvas_height Demo.highlighted = Fin 900
  /\ R10._lineHeight Demo.highlighted = Fin ((100 + 20) * (125 # 100))
  /\ R10.items Demo.highlighted = Demo.letters
  /\ R10._targetIdx Demo.highlighted ≈ of_nat 2
  /\ exists a, R10._offset Demo.highlighted = Fin a /\ a == 4800.
Proof.
  vm_compute. repeat split; try reflexivity.
  eexists. split; reflexivity.
Qed.

(** [spin(2, {rotations: 6})] on the five-item reel, ticked at 1000, 7500,
    7900 and 9100 milliseconds: item "C" is on the centre line. *)
Lemma spin_centres_target_witness :
  let s1 := R10.spin Demo.browser (Some (of_Z 2))
              {| rotations := Some (Fin (inject_Z 6)) |} Demo.reel in
  let s2 := fst (R10._tick Demo.browser s1 (Fin 1000)) in
  let s3 := fst (R10._tick Demo.browser s2 (Fin 7500)) in
  let s4 := fst (R10._tick Demo.browser s3 (Fin 7900)) in
  R10._mode s4 = highlight
  /\ exists r,
       In r (rows_of (Frame.of_tick Demo.browser s4 (Fin 9100)))
       /\ row_idx r = Z.to_nat (2 mod 5)
       /\ nth_error Demo.letters (Z.to_nat (2 mod 5)) = Some (row_text r).
Proof.
  destruct reel_facts as (Hv & Hl & Hh & Hd & Hi & _).
  assert (Hne : R10.items Demo.reel <> []) by (rewrite Hi; discriminate).
  destruct (spin_centres_target Demo.browser Demo.reel
              {| rotations := Some (Fin (inject_Z 6)) |} 2 6 1500
              ((100 + 20) * (125 # 100)) 900 400 1000 7500 7900 (Fin 9100)
              Hv Hl ltac:(vm_compute; reflexivity) Hh
              ltac:(vm_compute; discriminate) Hd eq_refl Hne)
    as (_ & _ & Hm & _ & _ & r & Hin & Hidx & Htext & _).
  - vm_compute. reflexivity.
  - rewrite Hi. vm_compute. reflexivity.
  - rewrite Hi. vm_compute. reflexivity.
  - vm_compute. discriminate.
  - rewrite Hi in Hidx, Htext. cbv zeta.
    split; [exact Hm |]. exists r.
    split; [exact Hin |]. split; [exact Hidx | exact Htext].
Defined.

(** The paused reel, 300 and then 400 milliseconds after the arrival. *)
Lemma pause_then_highlight_witness :
  R10._mode (fst (R10._tick Demo.browser Demo.paused (Fin 7800))) = pause
  /\ R10._mode (fst (R10._tick Demo.browser Demo.paused (Fin 7900))) = highlight.
Proof.
  destruct paused_facts as (Hm & Hp & Hd).
  split.
  - apply (pause_then_highlight Demo.browser Demo.paused 7800 7500 400
             Hm Hp Hd).
    vm_compute. reflexivity.
  - apply (pause_then_highlight Demo.browser Demo.paused 7900 7500 400
             Hm Hp Hd).
    vm_compute. discriminate.
Defined.

(** The highlighted reel, ticked twice more. *)
Lemma highlight_rests_witness :
  fst (run (R10._tick Demo.browser) Demo.highlighted [Fin 9100; Fin 9116])
  = R10.set_raf true (R10.set_prevTS (Some (Fin 9116)) Demo.highlighted)
  /\ frame_requests
       (snd (run (R10._tick Demo.browser) Demo.highlighted [Fin 9100; Fin 9116]))
     = 2%nat.
Proof.
  exact (highlight_rests Demo.browser [Fin 9100; Fin 9116] Demo.highlighted
           (proj1 highlighted_facts)).
Defined.

(** The highlighted reel: offset 4800 is six cycles plus two line heights
    and the target index is 2. *)
Lemma target_row_zoomed_witness :
  exists r,
    In r (rows_of (R10._draw Demo.browser Demo.highlighted (Fin 9100)
                     (Frame.offsetMod Demo.highlighted)))
    /\ row_idx r = 2%nat /\ row_alpha r = Fin 1.
Proof.
  destruct highlighted_facts
    as (Hm & _ & _ & _ & Hh & Hl & Hi & Ht & a & Ha & Ea).
  destruct (target_row_zoomed Demo.browser Demo.highlighted (Fin 9100)
              900 ((100 + 20) * (125 # 100)) a 6 2 Hm Hh
              ltac:(vm_compute; discriminate) Hl
              ltac:(vm_compute; reflexivity))
    as (r & Hin & Hidx & _ & _ & _ & Hal & _).
  - rewrite Hi. vm_compute. lia.
  - exact Ha.
  - rewrite Ea, Hi. vm_compute. reflexivity.
  - exact Ht.
  - exists r. split; [exact Hin | split; [exact Hidx | exact Hal]].
Defined.

(* ================================================================== *)
(** * Loop mode *)
(* ================================================================== *)

Section LoopRun.

Import R10.
Local Open Scope Q_scope.

Variable b : Browser.

Lemma run_cons_fst (s : Reeler) (t : num) (rest : list num) :
  fst (run (_tick b) s (t :: rest))
  = fst (run (_tick b) (fst (_tick b s t)) rest).
Proof.
  simpl run. destruct (_tick b s t) as [s1 e1]. cbn [fst].
  destruct (run (_tick b) s1 rest) as [s2 e2]. reflexivity.
Qed.

Lemma last_cons (t : Q) (rest : list Q) : forall p, last (t :: rest) p = last rest t.
Proof.
  revert t. induction rest as [|u r IH]; intros t p; [reflexivity |].
  change (last (t :: u :: r) p) with (last (u :: r) p).
  rewrite (IH u p). symmetry. apply (IH u t).
Qed.

(** In loop mode the offset after a run of ticks depends on the first and
    the last timestamp only: it has grown by the speed times the seconds
    between them. *)
Lemma loop_run_from (tss : list Q) : forall (s : Reeler) (x v p : Q),
  _mode s = loop -> _offset s = Fin x -> speed s = Fin v ->
  _prevTS s = Some (Fin p) ->
  let s1 := fst (run (_tick b) s (map Fin tss)) in
  _mode s1 = loop
  /\ _offset s1 ≈ Fin (x + v * ((last tss p - p) / 1000)).
Proof.
  induction tss as [|t rest IH]; intros s x v p Hm Hx Hv Hp s1.
  - unfold s1. simpl. split; [exact Hm |]. rewrite Hx.
    apply Fin_Proper. field.
  - destruct (tick_loop b s t x v Hm Hx Hv) as (Hm1 & Hv1 & Hp1 & Ho1).
    rewrite Hp in Ho1.
    destruct (same_Fin_inv _ _ Ho1) as (x1 & Ex1 & Eq1).
    destruct (IH _ x1 v t Hm1 Ex1 Hv1 Hp1) as (Hm2 & Ho2).
    unfold s1. cbn [map]. rewrite run_cons_fst.
    split; [exact Hm2 |]. rewrite Ho2. apply Fin_Proper.
    rewrite Eq1, (last_cons t rest p). field.
Qed.

End LoopRun.

Section LoopClosedForm.

Import PrimFloat.
Import R10.
Local Open Scope Q_scope.
Local Set Warnings "-inexact-float".

(** In exact arithmetic, after [startLoop(speed?)] the offset after a run
    of ticks is the offset at the call plus the speed times the seconds
    between the first and the last tick, whatever ticks lie between; the
    first tick itself adds nothing.  In binary64 every tick adds its own
    rounded product, and the sum can miss that closed form in the last
    place: at 1500 px/s the ticks at 0, 16.7, 33.4 and 50.1 milliseconds
    give 75.15 where 0 + 1500 * ((50.1 - 0) / 1000) is
    75.14999999999999. *)
Theorem loop_run :
  (forall (b : Browser) (s : Reeler) (t0 : Q) (tss : list Q) (x v : Q)
          (speedPxPerSec : option num),
     _offset s = Fin x ->
     speed (fst (startLoop speedPxPerSec s)) = Fin v ->
     let s1 := fst (run (_tick b) (fst (startLoop speedPxPerSec s))
                      (map Fin (t0 :: tss))) in
     _mode s1 = loop
     /\ _offset s1 ≈ Fin (x + v * ((last tss t0 - t0) / 1000)))
  /\ (let s1 := B64._tick B64.reel 0 in
      let s4 := last (B64.trace s1 [16.7; 33.4; 50.1]) s1 in
      B64._mode B64.reel = loop /\ B64.speed B64.reel = 1500
      /\ B64._offset s1 = 0
      /\ B64._offset s4 = 75.15
      /\ 0 + 1500 * ((50.1 - 0) / 1000) = 75.14999999999999
      /\ (75.14999999999999 <? B64._offset s4) = true)%float.
Proof.
  split; [| vm_compute; repeat split].
  intros b s t0 tss x v speedPxPerSec Hx Hv s1.
  set (s0 := fst (startLoop speedPxPerSec s)) in *.
  assert (H0 : _mode s0 = loop /\ _offset s0 = Fin x /\ _prevTS s0 = None).
  { unfold s0, startLoop.
    destruct speedPxPerSec as [w|]; [destruct (truthy w) |]; reel_simpl;
      destruct (_raf s); reel_simpl; auto. }
  destruct H0 as (Hm0 & Hx0 & Hp0).
  destruct (tick_loop b s0 t0 x v Hm0 Hx0 Hv) as (Hm1 & Hv1 & Hp1 & Ho1).
  rewrite Hp0 in Ho1.
  destruct (same_Fin_inv _ _ Ho1) as (x1 & Ex1 & Eq1).
  destruct (loop_run_from b tss _ x1 v t0 Hm1 Ex1 Hv1 Hp1) as (Hm2 & Ho2).
  unfold s1. cbn [map]. rewrite run_cons_fst.
  split; [exact Hm2 |]. rewrite Ho2. apply Fin_Proper. now rewrite Eq1.
Qed.

End LoopClosedForm.

(** The five-item reel restarted at 2000 px/s and ticked at 0.5 s, 0.7 s
    and 1.5 s: one second at 2000 px/s. *)
Lemma loop_run_witness :
  R10._offset
    (fst (run (R10._tick Demo.browser)
            (fst (R10.startLoop (Some (Fin 2000)) Demo.reel))
            [Fin 500; Fin 700; Fin 1500]))
  ≈ Fin 2000.
Proof.
  destruct (proj1 loop_run Demo.browser Demo.reel 500 [700; 1500] 0 2000
              (Some (Fin 2000)) eq_refl eq_refl) as (_ & H).
  etransitivity; [exact H | vm_compute; reflexivity].
Defined.

(* ================================================================== *)
(** * More on [spin] *)
(* ================================================================== *)

Section SpinMore.

Import R10.
Local Open Scope Q_scope.

(** The last [spin] wins: a spin forgets the spin or the stop before it. *)
Theorem spin_overrides (b b' : Browser) (t t' : option num) (o o' : SpinOpts)
  (s : Reeler) :
  spin b t o (spin b' t' o' s) = spin b t o s
  /\ spin b t o (stopLoop s) = spin b t o s.
Proof. destruct t, t'; split; reflexivity. Qed.

(** A spin does not start from where the reel is: its first tick puts the
    offset at 0, whatever the offset was. *)
Theorem spin_discards_offset
  (b : Browser) (s : Reeler) (o : SpinOpts) (z : Z) (r v0 lh ts0 : Q)
  (x : num) :
  speed s = Fin v0 ->
  _lineHeight s = Fin lh ->
  nullish (rotations o) (Fin 6) = Fin r ->
  items s <> [] ->
  let n := Z.of_nat (List.length (items s)) in
  let D := r * (inject_Z n * lh) + inject_Z (z mod n) * lh in
  0 < v0 -> 0 < D ->
  _offset (fst (_tick b (spin b (Some (of_Z z)) o (set_offset x s))
                  (Fin ts0)))
  ≈ Fin 0.
Proof.
  intros Hv Hl Hr Hi n D Hv0 HD.
  exact (proj1 (proj2 (proj2
    (spin_anchored b (set_offset x s) o z r v0 lh Hv Hl Hr Hi Hv0 HD ts0)))).
Qed.

(** Without a target index, [spin] draws one: for a random number in
    [[0, 1)] the target is an integer index of the item list. *)
Theorem spin_random_target
  (b : Browser) (s : Reeler) (o : SpinOpts) (u : Q) :
  Math_random b = Fin u -> 0 <= u -> u < 1 -> items s <> [] ->
  exists k : Z,
    _targetIdx (spin b None o s) = of_Z k
    /\ (0 <= k < Z.of_nat (List.length (items s)))%Z.
Proof.
  intros Hu H0 H1 Hi.
  pose proof (items_nonempty_length (items s) Hi) as Hn.
  set (n := inject_Z (Z.of_nat (List.length (items s)))) in *.
  exists (Qfloor (u * n)). split.
  - change (_targetIdx (spin b None o s))
      with (Math_floor (Math_random b * of_nat (List.length (items s)))%js).
    rewrite Hu. reflexivity.
  - split.
    + change 0%Z with (Qfloor 0). apply Qfloor_resp_le. nra.
    + rewrite Zlt_Qlt. fold n.
      apply Qle_lt_trans with (u * n); [apply Qfloor_le | nra].
Qed.

End SpinMore.

Section OlderSpin.

Local Open Scope Q_scope.

(** Revisions 3.8R9 and 3.3 resolve the index with a single [%], whose
    result has the sign of the index: a negative index stays negative (or
    0) and is not an index of the item list. *)
Theorem older_spin_keeps_sign
  (b : Browser) (o : SpinOpts) (s9 : R10.Reeler) (s3 : V33.Reeler) (z : Z) :
  (R10.items s9 <> [] ->
   R10._targetIdx (R9.spin b (Some (of_Z z)) o s9)
     ≈ of_Z (Z.rem z (Z.of_nat (List.length (R10.items s9)))))
  /\ (V33.items s3 <> [] ->
      V33._targetIdx (V33.spin b (Some (of_Z z)) o s3)
        ≈ of_Z (Z.rem z (Z.of_nat (List.length (V33.items s3)))))
  /\ forall n : Z, (0 < n)%Z ->
       ((0 <= z -> Z.rem z n = z mod n)
        /\ (z < 0 -> - n < Z.rem z n <= 0))%Z.
Proof.
  split; [| split].
  - intros Hi.
    change (R10._targetIdx (R9.spin b (Some (of_Z z)) o s9))
      with (rem (of_Z z) (of_nat (List.length (R10.items s9)))).
    rewrite of_nat_of_Z. apply rem_of_Z.
    destruct (R10.items s9); [congruence | simpl List.length; lia].
  - intros Hi.
    change (V33._targetIdx (V33.spin b (Some (of_Z z)) o s3))
      with (rem (of_Z z) (of_nat (List.length (V33.items s3)))).
    rewrite of_nat_of_Z. apply rem_of_Z.
    destruct (V33.items s3); [congruence | simpl List.length; lia].
  - intros n Hn. split.
    + intros Hz. apply Z.rem_mod_nonneg; lia.
    + intros Hz.
      pose proof (Z.rem_nonpos z n ltac:(lia) ltac:(lia)).
      pose proof (Z.rem_bound_abs z n ltac:(lia)). lia.
Qed.

End OlderSpin.

Lemma spin_discards_offset_witness :
  R10._offset
    (fst (R10._tick Demo.browser
            (R10.spin Demo.browser (Some (of_Z 2)) no_spin_opts
               (R10.set_offset (Fin 333) Demo.reel))
            (Fin 1000)))
  ≈ Fin 0.
Proof.
  refine (spin_discards_offset Demo.browser Demo.reel no_spin_opts 2 6
            1500 ((100 + 20) * (125 # 100)) 1000 (Fin 333)
            eq_refl eq_refl eq_refl _ _ _).
  - discriminate.
  - reflexivity.
  - reflexivity.
Defined.

Lemma spin_random_target_witness :
  R10._targetIdx (R10.spin Demo.browser None no_spin_opts Demo.reel) = of_Z 2.
Proof.
  destruct (spin_random_target Demo.browser Demo.reel no_spin_opts (1#2)
              eq_refl) as (k & Hk & _).
  - discriminate.
  - reflexivity.
  - discriminate.
  - rewrite Hk. vm_compute in Hk. injection Hk as <-. reflexivity.
Defined.

(** Index -1 on five items: -1 in revisions 3.8R9 and 3.3. *)
Lemma older_spin_keeps_sign_witness :
  R10._targetIdx (R9.spin Demo.browser (Some (of_Z (-1))) no_spin_opts Demo.reel)
  ≈ of_Z (-1).
Proof.
  refine (proj1 (older_spin_keeps_sign Demo.browser no_spin_opts Demo.reel
                   (fst (V33.constructor Demo.browser Demo.letters no_options))
                   (-1)) _).
  discriminate.
Defined.

(* ================================================================== *)
(** * Loop mode in revision 3.8R9 *)
(* ================================================================== *)

Section OlderLoop.

Import R10.
Local Open Scope Q_scope.

Lemma rem_nonneg_range (y c : Q) :
  0 <= y -> 0 < c ->
  exists m, rem (Fin y) (Fin c) = Fin m /\ 0 <= m /\ m < c.
Proof.
  intros Hy Hc. rewrite (rem_Fin_pos y c Hc).
  destruct (Qtrunc_fraction (y / c)) as (f & Ef & _ & Hf1 & Hf0 & _).
  assert (H0 : 0 <= y / c) by (apply Qle_shift_div_l; lra).
  specialize (Hf0 H0).
  assert (E : y - c * inject_Z (Qtrunc (y / c)) == c * f).
  { assert (Ey : y == c * (inject_Z (Qtrunc (y / c)) + f)).
    { rewrite <- Ef. field. lra. }
    rewrite Ey at 1. ring. }
  eexists. split; [reflexivity |]. rewrite E. split; [| nra].
  apply Qmult_le_0_compat; lra.
Qed.

(** Revision 3.8R9 stores the loop offset wrapped: going forward from a
    non-negative offset, a loop tick leaves the offset in [[0, cycle)]. *)
Theorem R9_loop_offset_wrapped (s : Reeler) (x v lh p t : Q) :
  _mode s = loop ->
  _offset s = Fin x -> 0 <= x ->
  speed s = Fin v -> 0 <= v ->
  _lineHeight s = Fin lh -> 0 < lh ->
  items s <> [] ->
  _prevTS s = Some (Fin p) -> p <= t ->
  exists m : Q,
    _offset (R9.advance s (Fin t)) = Fin m
    /\ 0 <= m
    /\ m < lh * inject_Z (Z.of_nat (List.length (items s))).
Proof.
  intros Hm Hx Hx0 Hv Hv0 Hl Hlh Hi Hp Hpt.
  pose proof (items_nonempty_length (items s) Hi) as Hn.
  set (c := lh * inject_Z (Z.of_nat (List.length (items s)))).
  assert (Hc : 0 < c) by (unfold c; nra).
  unfold R9.advance. rewrite Hp. cbn [falsy truthy].
  destruct (Qeq_bool p 0) eqn:E0; cbn [negb]; reel_simpl;
    rewrite Hm; reel_simpl; rewrite ?Hp; reel_simpl; rewrite Hx, Hv, Hl.
  - change ((Fin x + Fin v * ((Fin t - Fin t) / Fin 1000))%js
            mod (Fin lh * of_nat (List.length (items s))))%js
      with (rem (Fin (x + v * ((t - t) / 1000))) (Fin c)).
    apply rem_nonneg_range; [| exact Hc].
    assert (Ez : (t - t) / 1000 == 0) by field. rewrite Ez. lra.
  - change ((Fin x + Fin v * ((Fin t - Fin p) / Fin 1000))%js
            mod (Fin lh * of_nat (List.length (items s))))%js
      with (rem (Fin (x + v * ((t - p) / 1000))) (Fin c)).
    apply rem_nonneg_range; [| exact Hc].
    assert (0 <= (t - p) / 1000) by (apply Qle_shift_div_l; lra).
    nra.
Qed.

End OlderLoop.

Lemma R9_loop_offset_wrapped_witness :
  exists m : Q,
    R10._offset
      (R9.advance
         (R10.set_prevTS (Some (Fin 1000)) (R10.set_offset (Fin 700) Demo.reel))
         (Fin 1100))
    = Fin m
    /\ m == 100.
Proof.
  destruct (R9_loop_offset_wrapped
              (R10.set_prevTS (Some (Fin 1000)) (R10.set_offset (Fin 700) Demo.reel))
              700 1500 ((100 + 20) * (125 # 100)) 1000 1100
              eq_refl eq_refl) as (m & Hm & _).
  - discriminate.
  - reflexivity.
  - discriminate.
  - reflexivity.
  - reflexivity.
  - discriminate.
  - reflexivity.
  - discriminate.
  - exists m. split; [exact Hm |].
    vm_compute in Hm. injection Hm as <-. reflexivity.
Defined.

(* ================================================================== *)
(** * The zoom curve *)
(* ================================================================== *)

Section Zoom.

Import R10.
Local Open Scope Q_scope.

Lemma easeOutCubic_Fin (p : Q) :
  _easeOutCubic (Fin p) = Fin (1 + - ((1 + - p) * ((1 + - p) * (1 + - p)))).
Proof. reflexivity. Qed.

Lemma cube_monotone (u w : Q) : 0 <= u -> u <= w -> u * (u * u) <= w * (w * w).
Proof.
  intros H0 H1.
  assert (E : w * (w * w) - u * (u * u) == (w - u) * (w * w + w * u + u * u))
    by ring.
  assert (0 <= (w - u) * (w * w + w * u + u * u)).
  { apply Qmult_le_0_compat; [lra | nra]. }
  lra.
Qed.

(** [_easeOutCubic] maps [[0, 1]] onto [[0, 1]], end to end, without ever
    decreasing. *)
Theorem easeOutCubic_monotone (p q : Q) :
  0 <= p -> p <= q -> q <= 1 ->
  exists x y : Q,
    _easeOutCubic (Fin p) = Fin x /\ _easeOutCubic (Fin q) = Fin y
    /\ 0 <= x /\ x <= y /\ y <= 1
    /\ (p == 0 -> x == 0) /\ (q == 1 -> y == 1).
Proof.
  intros H0 Hpq H1.
  exists (1 + - ((1 + - p) * ((1 + - p) * (1 + - p)))),
         (1 + - ((1 + - q) * ((1 + - q) * (1 + - q)))).
  split; [apply easeOutCubic_Fin | split; [apply easeOutCubic_Fin |]].
  pose proof (cube_monotone (1 + - q) (1 + - p) ltac:(lra) ltac:(lra)) as Hm.
  pose proof (cube_monotone 0 (1 + - q) ltac:(lra) ltac:(lra)) as Hq.
  pose proof (cube_monotone (1 + - p) 1 ltac:(lra) ltac:(lra)) as Hp.
  repeat split; try lra.
  - intros E. rewrite E. ring.
  - intros E. rewrite E. ring.
Qed.

(** The zoom progress of a frame: 0 outside highlight mode; in highlight
    mode the share of [highlightAnimDuration] that has passed since the
    mode was entered, and 1 from then on. *)
Theorem zoom_progress_range (b : Browser) (s : Reeler) (t hs d : Q) :
  ~ t == 0 ->
  _highlightStart s = Some (Fin hs) -> highlightAnimDuration s = Fin d ->
  0 < d -> hs <= t ->
  (_mode s <> highlight -> zoom_progress b s (Fin t) = Fin 0)
  /\ (_mode s = highlight ->
      exists zp : Q,
        zoom_progress b s (Fin t) = Fin zp
        /\ 0 <= zp /\ zp <= 1
        /\ (t - hs < d -> zp == (t - hs) / d)
        /\ (d <= t - hs -> zp == 1)).
Proof.
  intros Ht Hs Hd Hd0 Hle. unfold zoom_progress.
  assert (Htr : truthy (Fin t) = true).
  { simpl. apply negb_true_iff. destruct (Qeq_bool t 0) eqn:E; [| reflexivity].
    apply Qeq_bool_eq in E. contradiction. }
  rewrite Htr, Hs, Hd. split.
  - intros Hm. destruct (_mode s); try reflexivity. congruence.
  - intros ->. cbn [Mode_eqb ToNumber].
    change ((Fin t - Fin hs) / Fin d)%js with (div (Fin (t - hs)) (Fin d)).
    rewrite (div_pos _ _ Hd0).
    assert (Hr : 0 <= (t - hs) / d) by (apply Qle_shift_div_l; lra).
    unfold Math_min. cbn [leb].
    destruct (Qle_bool 1 ((t - hs) / d)) eqn:E.
    + apply Qle_bool_iff in E.
      assert (Ed : t - hs == (t - hs) / d * d) by (field; lra).
      assert (Hge : d <= t - hs) by nra.
      exists 1. repeat split; try lra; intros; try reflexivity; lra.
    + assert (Hlt : (t - hs) / d < 1).
      { apply Qnot_le_lt. intros H. apply Qle_bool_iff in H. congruence. }
      assert (Ed : t - hs == (t - hs) / d * d) by (field; lra).
      assert (Hlt' : t - hs < d) by nra.
      exists ((t - hs) / d). repeat split; try lra; intros; try reflexivity; lra.
Qed.

(** The scale of the zoomed row grows from 1 to [zoomScale] (for a
    [zoomScale] of at least 1) and stays there once the animation is over. *)
Theorem zoom_scale_range (b : Browser) (s : Reeler) (t hs d zs : Q) :
  _mode s = highlight ->
  ~ t == 0 ->
  _highlightStart s = Some (Fin hs) -> highlightAnimDuration s = Fin d ->
  0 < d -> hs <= t ->
  zoomScale s = Fin zs -> 1 <= zs ->
  exists sc : Q,
    (Fin 1 + (zoomScale s - Fin 1) * _easeOutCubic (zoom_progress b s (Fin t)))%js
    = Fin sc
    /\ 1 <= sc /\ sc <= zs
    /\ (d <= t - hs -> sc == zs).
Proof.
  intros Hm Ht Hs Hd Hd0 Hle Hz Hzs.
  destruct (proj2 (zoom_progress_range b s t hs d Ht Hs Hd Hd0 Hle) Hm)
    as (zp & Ezp & Z0 & Z1 & _ & Zend).
  destruct (easeOutCubic_monotone zp zp Z0 ltac:(lra) Z1)
    as (e & e' & Ee & Ee' & E0 & _ & E1 & _ & Eend).
  rewrite Ee in Ee'. injection Ee' as <-.
  rewrite Ezp, Ee, Hz.
  exists (1 + (zs + - (1)) * e). split; [reflexivity |].
  split; [nra |]. split; [nra |].
  intros Hfin. rewrite (Eend (Zend Hfin)). ring.
Qed.

End Zoom.

Lemma easeOutCubic_monotone_witness :
  exists x y : Q,
    _easeOutCubic (Fin (1#4)) = Fin x /\ _easeOutCubic (Fin (1#2)) = Fin y
    /\ x <= y.
Proof.
  destruct (easeOutCubic_monotone (1#4) (1#2)) as (x & y & Hx & Hy & _ & H & _).
  - discriminate.
  - discriminate.
  - discriminate.
  - exists x, y. auto.
Defined.

(** The highlighted reel, 600 ms into the 1200 ms zoom: progress 1/2. *)
Lemma zoom_progress_range_witness :
  exists zp : Q,
    R10.zoom_progress Demo.browser Demo.highlighted (Fin 8500) = Fin zp
    /\ zp == 1#2.
Proof.
  destruct highlighted_facts as (Hm & Hs & Hd & _).
  destruct (zoom_progress_range Demo.browser Demo.highlighted 8500 7900 1200
              ltac:(vm_compute; discriminate) Hs Hd
              ltac:(vm_compute; reflexivity) ltac:(vm_compute; discriminate))
    as (_ & H).
  destruct (H Hm) as (zp & Hzp & _ & _ & Hmid & _).
  exists zp. split; [exact Hzp |].
  rewrite Hmid; [vm_compute; reflexivity | vm_compute; reflexivity].
Defined.

(** The highlighted reel once the zoom is over: the scale is 1.8. *)
Lemma zoom_scale_range_witness :
  exists sc : Q,
    (Fin 1 + (R10.zoomScale Demo.highlighted - Fin 1)
             * _easeOutCubic
                 (R10.zoom_progress Demo.browser Demo.highlighted (Fin 9100)))%js
    = Fin sc
    /\ sc == 18#10.
Proof.
  destruct highlighted_facts as (Hm & Hs & Hd & Hz & _).
  destruct (zoom_scale_range Demo.browser Demo.highlighted 9100 7900 1200
              (18#10) Hm ltac:(vm_compute; discriminate) Hs Hd
              ltac:(vm_compute; reflexivity) ltac:(vm_compute; discriminate)
              Hz ltac:(vm_compute; discriminate))
    as (sc & Hsc & _ & _ & Hend).
  exists sc. split; [exact Hsc |]. apply Hend. vm_compute. discriminate.
Defined.

(* ================================================================== *)
(** * The colour parser *)
(* ================================================================== *)

Section Rgba.

Lemma hex_digit_bound (c : ascii) (d : N) :
  hex_digit c = Some d -> (d < 16)%N.
Proof.
  unfold hex_digit.
  destruct (andb (48 <=? N_of_ascii c)%N (N_of_ascii c <=? 57)%N) eqn:E1.
  - intros H. injection H as <-.
    apply andb_true_iff in E1. destruct E1 as (A & B).
    apply N.leb_le in A, B. lia.
  - destruct (andb (97 <=? N_of_ascii c)%N (N_of_ascii c <=? 102)%N) eqn:E2.
    + intros H. injection H as <-.
      apply andb_true_iff in E2. destruct E2 as (A & B).
      apply N.leb_le in A, B. lia.
    + destruct (andb (65 <=? N_of_ascii c)%N (N_of_ascii c <=? 70)%N) eqn:E3;
        [| discriminate].
      intros H. injection H as <-.
      apply andb_true_iff in E3. destruct E3 as (A & B).
      apply N.leb_le in A, B. lia.
Qed.

Lemma hex_pair_bound (c1 c2 : ascii) (v : N) :
  hex_pair c1 c2 = Some v -> (v < 256)%N.
Proof.
  unfold hex_pair.
  destruct (hex_digit c1) as [x|] eqn:E1; [| discriminate].
  destruct (hex_digit c2) as [y|] eqn:E2; [| discriminate].
  intros H.
  assert (Hv : v = (16 * x + y)%N) by congruence.
  apply hex_digit_bound in E1. apply hex_digit_bound in E2. lia.
Qed.

Lemma hex_digit_not_hash : hex_digit "#" = None.
Proof. reflexivity. Qed.

Local Open Scope N_scope.

Lemma strip_hash_cases (s : string) :
  s = String "#" (strip_hash s) \/ strip_hash s = s.
Proof.
  destruct s as [|c rest]; [right; reflexivity |].
  destruct c as [[] [] [] [] [] [] [] []];
    first [right; reflexivity | left; reflexivity].
Qed.

Lemma strip_hash_digit (c : ascii) (v : N) (rest : string) :
  hex_digit c = Some v -> strip_hash (String c rest) = String c rest.
Proof.
  intros H. destruct (strip_hash_cases (String c rest)) as [E|E]; [| exact E].
  injection E as -> _. discriminate H.
Qed.

Lemma hex_pair_inv (c1 c2 : ascii) (v : N) :
  hex_pair c1 c2 = Some v ->
  exists v1 v2, hex_digit c1 = Some v1 /\ hex_digit c2 = Some v2
                /\ v = 16 * v1 + v2.
Proof.
  unfold hex_pair.
  destruct (hex_digit c1) as [x|]; [| discriminate].
  destruct (hex_digit c2) as [y|]; [| discriminate].
  intros H. exists x, y. repeat split; congruence.
Qed.

(** The digits that [hex_digit] reads, in either case, with their values. *)
Lemma hex_digit_table (c : ascii) (v : N) :
  hex_digit c = Some v <->
  In (c, v)
     [("0", 0); ("1", 1); ("2", 2); ("3", 3); ("4", 4); ("5", 5); ("6", 6);
      ("7", 7); ("8", 8); ("9", 9);
      ("a", 10); ("b", 11); ("c", 12); ("d", 13); ("e", 14); ("f", 15);
      ("A", 10); ("B", 11); ("C", 12); ("D", 13); ("E", 14); ("F", 15)]%char.
Proof.
  split.
  - intros H.
    destruct c as [[] [] [] [] [] [] [] []]; vm_compute in H;
      first [discriminate H
            | injection H as <-; simpl; tauto].
  - intros H. simpl in H.
    repeat (destruct H as [H|H]; [injection H as <- <-; reflexivity |]).
    contradiction.
Qed.

(** [_rgba] reads a text made of six hexadecimal digits, in either case
    and with or without one leading [#], as three channels, each the value
    of two digits, with the alpha it was given; it reads no other text
    so, and returns every other text as it was. *)
Theorem rgba_parses_hex (hex : string) (a : num) :
  let text (hash : bool) (c1 c2 c3 c4 c5 c6 : ascii) : string :=
    let digits := String c1 (String c2 (String c3 (String c4 (String c5
                    (String c6 EmptyString))))) in
    if hash then String "#" digits else digits in
  (forall hash c1 c2 c3 c4 c5 c6 v1 v2 v3 v4 v5 v6,
      hex = text hash c1 c2 c3 c4 c5 c6 ->
      hex_digit c1 = Some v1 -> hex_digit c2 = Some v2 ->
      hex_digit c3 = Some v3 -> hex_digit c4 = Some v4 ->
      hex_digit c5 = Some v5 -> hex_digit c6 = Some v6 ->
      _rgba hex a = CssRgba (16 * v1 + v2) (16 * v3 + v4) (16 * v5 + v6) a)
  /\ (forall r g b a',
         _rgba hex a = CssRgba r g b a' ->
         a' = a /\ r < 256 /\ g < 256 /\ b < 256
         /\ exists hash c1 c2 c3 c4 c5 c6 v1 v2 v3 v4 v5 v6,
              hex = text hash c1 c2 c3 c4 c5 c6
              /\ hex_digit c1 = Some v1 /\ hex_digit c2 = Some v2
              /\ hex_digit c3 = Some v3 /\ hex_digit c4 = Some v4
              /\ hex_digit c5 = Some v5 /\ hex_digit c6 = Some v6
              /\ r = 16 * v1 + v2 /\ g = 16 * v3 + v4 /\ b = 16 * v5 + v6)
  /\ ((forall hash c1 c2 c3 c4 c5 c6,
          hex = text hash c1 c2 c3 c4 c5 c6 ->
          exists c, In c [c1; c2; c3; c4; c5; c6] /\ hex_digit c = None) ->
      _rgba hex a = CssText hex)
  /\ (forall c v,
         hex_digit c = Some v <->
         In (c, v)
            [("0", 0); ("1", 1); ("2", 2); ("3", 3); ("4", 4); ("5", 5);
             ("6", 6); ("7", 7); ("8", 8); ("9", 9);
             ("a", 10); ("b", 11); ("c", 12); ("d", 13); ("e", 14);
             ("f", 15); ("A", 10); ("B", 11); ("C", 12); ("D", 13);
             ("E", 14); ("F", 15)]%char).
Proof.
  intros text.
  assert (Hshape : forall r g b a',
             _rgba hex a = CssRgba r g b a' ->
             a' = a
             /\ exists hash c1 c2 c3 c4 c5 c6 v1 v2 v3 v4 v5 v6,
                  hex = text hash c1 c2 c3 c4 c5 c6
                  /\ hex_digit c1 = Some v1 /\ hex_digit c2 = Some v2
                  /\ hex_digit c3 = Some v3 /\ hex_digit c4 = Some v4
                  /\ hex_digit c5 = Some v5 /\ hex_digit c6 = Some v6
                  /\ r = 16 * v1 + v2 /\ g = 16 * v3 + v4 /\ b = 16 * v5 + v6).
  { intros r g b a'. unfold _rgba, hex_groups.
    destruct (strip_hash hex)
      as [|c1 [|c2 [|c3 [|c4 [|c5 [|c6 [|x rest]]]]]]] eqn:Es; try discriminate.
    destruct (hex_pair c1 c2) as [vr|] eqn:Er; [| discriminate].
    destruct (hex_pair c3 c4) as [vg|] eqn:Eg; [| discriminate].
    destruct (hex_pair c5 c6) as [vb|] eqn:Eb; [| discriminate].
    intros H. injection H as <- <- <- <-.
    destruct (hex_pair_inv _ _ _ Er) as (v1 & v2 & D1 & D2 & ->).
    destruct (hex_pair_inv _ _ _ Eg) as (v3 & v4 & D3 & D4 & ->).
    destruct (hex_pair_inv _ _ _ Eb) as (v5 & v6 & D5 & D6 & ->).
    split; [reflexivity |].
    destruct (strip_hash_cases hex) as [E|E].
    - exists true, c1, c2, c3, c4, c5, c6, v1, v2, v3, v4, v5, v6.
      rewrite Es in E. repeat split; assumption || reflexivity.
    - exists false, c1, c2, c3, c4, c5, c6, v1, v2, v3, v4, v5, v6.
      rewrite Es in E. repeat split; auto. }
  split; [| split; [| split]].
  - intros hash c1 c2 c3 c4 c5 c6 v1 v2 v3 v4 v5 v6 -> D1 D2 D3 D4 D5 D6.
    assert (Es : strip_hash (text hash c1 c2 c3 c4 c5 c6)
                 = text false c1 c2 c3 c4 c5 c6).
    { destruct hash; [reflexivity |]. apply (strip_hash_digit c1 v1), D1. }
    unfold _rgba, hex_groups. rewrite Es. unfold text, hex_pair.
    rewrite D1, D2, D3, D4, D5, D6. reflexivity.
  - intros r g b a' H.
    destruct (Hshape r g b a' H)
      as (Ha & hash & c1 & c2 & c3 & c4 & c5 & c6 & v1 & v2 & v3 & v4 & v5 & v6
          & E & D1 & D2 & D3 & D4 & D5 & D6 & -> & -> & ->).
    pose proof (hex_digit_bound _ _ D1). pose proof (hex_digit_bound _ _ D2).
    pose proof (hex_digit_bound _ _ D3). pose proof (hex_digit_bound _ _ D4).
    pose proof (hex_digit_bound _ _ D5). pose proof (hex_digit_bound _ _ D6).
    split; [exact Ha |].
    split; [lia |]. split; [lia |]. split; [lia |].
    exists hash, c1, c2, c3, c4, c5, c6, v1, v2, v3, v4, v5, v6.
    repeat split; assumption || reflexivity.
  - intros Hother.
    destruct (_rgba hex a) as [t|r g b a'] eqn:E.
    + unfold _rgba in E. destruct (hex_groups hex) as [[[r g] b]|];
        [discriminate | congruence].
    + exfalso.
      destruct (Hshape r g b a' eq_refl)
        as (_ & hash & c1 & c2 & c3 & c4 & c5 & c6 & v1 & v2 & v3 & v4 & v5 & v6
            & Ex & D1 & D2 & D3 & D4 & D5 & D6 & _).
      destruct (Hother hash c1 c2 c3 c4 c5 c6 Ex) as (c & Hin & Hc).
      simpl in Hin.
      destruct Hin as [<-|[<-|[<-|[<-|[<-|[<-|[]]]]]]]; congruence.
  - exact hex_digit_table.
Qed.

End Rgba.

(** The default background with and without the hash, in lower case, and
    a word that is no colour. *)
Lemma rgba_parses_hex_witness :
  _rgba "#05193C" (Fin (6#10)) = CssRgba 5 25 60 (Fin (6#10))
  /\ _rgba "05193c" (Fin (6#10)) = CssRgba 5 25 60 (Fin (6#10))
  /\ _rgba "navy" (Fin (6#10)) = CssText "navy".
Proof.
  split; [| split].
  - apply (proj1 (rgba_parses_hex "#05193C" (Fin (6#10)))
             true "0" "5" "1" "9" "3" "C" 0 5 1 9 3 12)%char%N; reflexivity.
  - apply (proj1 (rgba_parses_hex "05193c" (Fin (6#10)))
             false "0" "5" "1" "9" "3" "c" 0 5 1 9 3 12)%char%N; reflexivity.
  - apply (proj1 (proj2 (proj2 (rgba_parses_hex "navy" (Fin (6#10)))))).
    intros hash c1 c2 c3 c4 c5 c6 E. destruct hash; discriminate E.
Defined.

(* ================================================================== *)
(** * What the constructor stores *)
(* ================================================================== *)

Section Constructed.

Import R10.
Local Open Scope Q_scope.

Variables (b : Browser) (l : list string) (opts : Options).

Let s0 : Reeler := fst (constructor b l opts).


(** The line height of a new instance: the height of "Hg" in the
    configured font, times the line spacing. *)
Theorem constructor_lineHeight :
  let m := measureText (window b) (font_string s0) in
  _lineHeight s0 = ((fst m + snd m) * lineSpacing s0)%js
  /\ canvas_width s0 = innerWidth (window b)
  /\ canvas_height s0 = innerHeight (window b).
Proof. repeat split; reflexivity. Qed.

(** For a configured finite [fadeGradientAlpha], the vignette is left out
    of the frames exactly when the value is negative. *)
Theorem vignette_off_iff_negative (x : Q) (ts om : num) :
  opt_fadeGradientAlpha opts = Some (Fin x) ->
  (gradient_fills (_draw b s0 ts om) = [] <-> x < 0)
  /\ (List.length (gradient_fills (_draw b s0 ts om)) = 2%nat <-> 0 <= x).
Proof.
  intros H.
  assert (Ha : fadeGradientAlpha s0
               = if negb (Qeq_bool x 0) then Fin x else Fin (6#10)).
  { change (or_num (opt_fadeGradientAlpha opts) (Fin (6#10))
            = if negb (Qeq_bool x 0) then Fin x else Fin (6#10)).
    now rewrite H. }
  rewrite gradient_fills_draw. unfold vignette. rewrite Ha.
  destruct (Qeq_bool x 0) eqn:E0; cbn [negb].
  - apply Qeq_bool_eq in E0.
    change (Fin (6#10) >? Fin 0)%js with true. cbn [gradient_fills filter is_gradient_fill List.length].
    split; split; intros; try discriminate; try reflexivity; lra.
  - assert (Hx : ~ x == 0).
    { intros Hq. apply Qeq_bool_iff in Hq. congruence. }
    change (Fin x >? Fin 0)%js with (negb (Qle_bool x 0)).
    destruct (Qle_bool x 0) eqn:E; cbn [negb gradient_fills filter is_gradient_fill List.length].
    + apply Qle_bool_iff in E.
      split; split; intros; try discriminate; try reflexivity; lra.
    + assert (0 < x).
      { apply Qnot_le_lt. intros Hq. apply Qle_bool_iff in Hq. congruence. }
      split; split; intros; try discriminate; try reflexivity; lra.
Qed.

End Constructed.

Lemma vignette_off_iff_negative_witness :
  gradient_fills
    (R10._draw Demo.browser
       (fst (R10.constructor Demo.browser Demo.letters Demo.no_vignette))
       (Fin 1000) (Fin 0))
  <> [].
Proof.
  intros H.
  apply (proj1 (vignette_off_iff_negative Demo.browser Demo.letters
                  Demo.no_vignette 0 (Fin 1000) (Fin 0) eq_refl)) in H.
  discriminate.
Defined.

(* ================================================================== *)
(** * Sessions of calls *)
(* ================================================================== *)

Section Sessions.

Import R10.
Local Open Scope nat_scope.

Lemma frame_requests_app (e1 e2 : list effect) :
  frame_requests (e1 ++ e2)%list = frame_requests e1 + frame_requests e2.
Proof. unfold frame_requests. now rewrite filter_app, length_app. Qed.

Lemma resize_fields (b : Browser) (s : Reeler) :
  items (_resize b s) = items s
  /\ speed (_resize b s) = speed s
  /\ _raf (_resize b s) = _raf s
  /\ _mode (_resize b s) = _mode s
  /\ _offset (_resize b s) = _offset s.
Proof. repeat split; reflexivity. Qed.

(** One call keeps the item list, a truthy speed and the frame handle; it
    requests at most one frame, and none unless it is a tick. *)
Lemma perform_invariant (s : Reeler) (bc : Browser * call) :
  _raf s = true ->
  items (fst (perform s bc)) = items s
  /\ (truthy (speed s) = true -> truthy (speed (fst (perform s bc))) = true)
  /\ _raf (fst (perform s bc)) = true
  /\ frame_requests (snd (perform s bc)) <= (if is_tick bc then 1 else 0).
Proof.
  intros Hr. destruct bc as [b c]. destruct c as [v| |t o|lbl o| |ts];
    unfold perform, is_tick; cbn [fst snd].
  - (* startLoop *)
    destruct (handle_kept b s NaN v Hr) as (_ & _ & He).
    rewrite He. unfold startLoop.
    destruct v as [w|]; [destruct (truthy w) eqn:Ew |]; reel_simpl;
      rewrite Hr; reel_simpl; repeat split; auto.
  - repeat split; auto.
  - destruct t; repeat split; auto.
  - unfold spinTo. destruct (indexOf (items s) lbl); cbn [snd];
      repeat split; auto.
  - repeat split; auto.
  - destruct (tick_params b s ts) as (Hs & _ & _ & _ & _ & _ & Hi).
    destruct (handle_kept b s ts None Hr) as (_ & Hr' & _).
    rewrite Hi, Hs, tick_effects.
    repeat split; auto.
    unfold frame_requests. cbn [filter].
    destruct (Mode_eqb _ _); simpl; lia.
Qed.

(** Over any session of calls on an instance that holds a frame handle (as
    every constructed instance does): the item list never changes, the
    speed stays truthy, and the frames requested are at most the ticks
    delivered, so that there is never more than one frame pending; calls
    other than ticks request none, which is why a reel whose ticks ended
    in idle mode is not set in motion again by [startLoop] or [spin]. *)
Theorem session_frame_requests (calls : list (Browser * call)) :
  forall s : Reeler,
    _raf s = true ->
    items (fst (session s calls)) = items s
    /\ (truthy (speed s) = true ->
        truthy (speed (fst (session s calls))) = true)
    /\ _raf (fst (session s calls)) = true
    /\ frame_requests (snd (session s calls))
       <= List.length (filter is_tick calls).
Proof.
  induction calls as [|bc rest IH]; intros s Hr.
  - simpl. repeat split; auto.
  - destruct (perform_invariant s bc Hr) as (Hi & Hs & Hr1 & He).
    simpl session.
    destruct (perform s bc) as [s1 e1]. cbn [fst snd] in *.
    destruct (IH s1 Hr1) as (Hi2 & Hs2 & Hr2 & He2).
    destruct (session s1 rest) as [s2 e2]. cbn [fst snd] in *.
    rewrite frame_requests_app. cbn [filter].
    repeat split; auto.
    + congruence.
    + destruct (is_tick bc); simpl List.length; lia.
Qed.

End Sessions.

(** The five-item reel: stopped, ticked once (the frame chain ends),
    restarted and spun; no frame is requested. *)
Lemma session_frame_requests_witness :
  frame_requests
    (snd (session Demo.reel
            [(Demo.browser, StopLoop); (Demo.browser, Tick (Fin 1000));
             (Demo.browser, StartLoop None);
             (Demo.browser, Spin (Some (Fin 2)) no_spin_opts)]))
  = 0%nat
  /\ R10._mode
       (fst (session Demo.reel
               [(Demo.browser, StopLoop); (Demo.browser, Tick (Fin 1000));
                (Demo.browser, StartLoop None);
                (Demo.browser, Spin (Some (Fin 2)) no_spin_opts)]))
     = spin_mode.
Proof.
  split; [| reflexivity].
  pose proof (session_frame_requests
                [(Demo.browser, StartLoop None);
                 (Demo.browser, Spin (Some (Fin 2)) no_spin_opts)]
                (fst (session Demo.reel
                        [(Demo.browser, StopLoop);
                         (Demo.browser, Tick (Fin 1000))]))
                eq_refl) as (_ & _ & _ & H).
  vm_compute in H. vm_compute. reflexivity.
Defined.

(* ================================================================== *)
(** * The hook of revision 3.3 *)
(* ================================================================== *)

(** In revision 3.3 a tick invokes [onStop] exactly when it ends a spin,
    once, with the target index; the spin ends in highlight mode. *)
Theorem V33_onStop_exactly_at_stop (s : V33.Reeler) (ts : num) :
  onStop_calls (snd (V33._tick s ts))
  = if andb (Mode_eqb (V33._mode s) spin_mode)
            (Mode_eqb (V33._mode (fst (V33._tick s ts))) highlight)
    then [V33._targetIdx s] else [].
Proof.
  destruct (V33_tick_advance s ts) as (Em & Ec). rewrite Em, Ec.
  destruct (V33._mode s) eqn:Hm; cbn [Mode_eqb andb];
    try (rewrite V33_advance_other by congruence; reflexivity).
  destruct (V33_advance_spin s ts Hm) as [(H1 & H2)|(H1 & H2)];
    rewrite H1, H2; reflexivity.
Qed.

(** The frame of the highlighted reel once the zoom is over: the row of
    iteration 7 (item "C", the target) is centred and drawn at opacity 1,
    in revision 3.8R10 and in revision 3.8R9. *)
Lemma R10_highlight_rows_witness :
  exists r,
    In r (rows_of (R10._draw Demo.browser Demo.highlighted (Fin 9100) (Fin 300)))
    /\ row_i r = 7%nat /\ row_alpha r = Fin 1.
Proof.
  eexists. split; [vm_compute; do 4 right; left; reflexivity |].
  split; [reflexivity |].
  match goal with
  | |- row_alpha ?r = _ =>
      assert (H := R10_highlight_rows Demo.browser Demo.highlighted (Fin 9100)
                     (Fin 300) r (proj1 highlighted_facts)
                     ltac:(vm_compute; do 4 right; left; reflexivity))
  end.
  vm_compute in H. exact (proj2 H).
Defined.

Lemma R9_highlight_rows_witness :
  exists r,
    In r (rows_of (R9._draw Demo.browser Demo.highlighted (Fin 9100)))
    /\ row_i r = 7%nat /\ row_alpha r = Fin 1.
Proof.
  eexists. split; [vm_compute; do 4 right; left; reflexivity |].
  split; [reflexivity |].
  match goal with
  | |- row_alpha ?r = _ =>
      assert (H := R9_highlight_rows Demo.browser Demo.highlighted (Fin 9100)
                     r (proj1 highlighted_facts)
                     ltac:(vm_compute; do 4 right; left; reflexivity))
  end.
  vm_compute in H. exact (proj2 H).
Defined.
